(** * SimpleProceduralWalk: the per-tick computations of [FAnimNode_SPW]

    A shallow embedding of [SPW_Computations.cpp] (initialisation, motion
    sampling, foot target resolution, the gait scheduler, swing
    interpolation and the slope multipliers of the body solver) and, of
    [AnimNode_SPW.cpp], of the falling/landing logic and of the resize of
    the CCDIK rotation limits, followed by the properties proved about them.

    Numbers.  The C++ [float] is modelled by the real numbers: arithmetic is
    exact, there is neither rounding nor NaN nor infinity, and a comparison
    of the source is the corresponding decidable comparison on [R].  The
    quotient of the step advance, whose divisor is zero on a pawn that turns
    in place, is modelled with the infinities and the NaN of the [float]
    ([FloatValue]); the other quotients have no counterpart in the model at
    a zero divisor, and every statement that depends on the value of one of
    them says that its divisor is not zero.

    Arrays.  [TArray] is a list; [a[i]] is the total lookup [a !!! i] and
    [a[i].f = v] is [alter].  The engine range-checks [operator[]].  In the
    per-tick computations the model reads a default element and writes
    nothing out of range, and the statements speak about indices that are
    in range; [Initialize_Computations], which is where the configured leg
    indices first meet the arrays, is modelled with the check: it returns
    no node when an index is out of range.

    Collaborators.  The pawn, the skeletal mesh, the spatial queries and the
    engine's rotator/transform routines are not part of the plugin; they are
    the fields of [World], the snapshot a tick reads. *)

From Stdlib Require Import Reals Lra Lia List Bool String Machin.
From stdpp Require Import base decidable option list.
Import ListNotations.
Open Scope R_scope.

(** ** Comparisons of the source as decisions *)

#[global] Instance Rlt_decision : RelDecision Rlt := Rlt_dec.
#[global] Instance Rle_decision : RelDecision Rle := Rle_dec.
#[global] Instance Rgt_decision : RelDecision Rgt := Rgt_dec.
#[global] Instance Rge_decision : RelDecision Rge := Rge_dec.
#[global] Instance Req_decision : EqDecision R := Req_dec_T.

(** ** FVector *)

Module FVector.

Record t : Type := Make { X : R; Y : R; Z : R }.

(** [FVector(0.f)], also the value of a default-initialised member. *)
Definition Zero : t := Make 0 0 0.

Definition add (a b : t) : t := Make (X a + X b) (Y a + Y b) (Z a + Z b).
Definition sub (a b : t) : t := Make (X a - X b) (Y a - Y b) (Z a - Z b).
(** [FVector * float] *)
Definition scale (a : t) (k : R) : t := Make (X a * k) (Y a * k) (Z a * k).
(** [FVector * FVector], component by component *)
Definition mul (a b : t) : t := Make (X a * X b) (Y a * Y b) (Z a * Z b).

Definition DotProduct (a b : t) : R := X a * X b + Y a * Y b + Z a * Z b.
Definition SizeSquared (a : t) : R := X a * X a + Y a * Y a + Z a * Z a.
Definition Size (a : t) : R := sqrt (SizeSquared a).
Definition Dist (a b : t) : R := Size (sub b a).

(** [FVector::Normalize(Tolerance = SMALL_NUMBER)]: scaled in place when the
    squared size exceeds the tolerance, left alone otherwise. *)
Definition Normalize (a : t) : t :=
  if decide (SizeSquared a > / 100000000)
  then scale a (/ sqrt (SizeSquared a))
  else a.

End FVector.

Declare Scope vector_scope.
Delimit Scope vector_scope with V.
Bind Scope vector_scope with FVector.t.
Infix "+" := FVector.add : vector_scope.
Infix "-" := FVector.sub : vector_scope.
Infix "*" := FVector.scale : vector_scope.

#[global] Instance FVector_inhabited : Inhabited FVector.t := populate FVector.Zero.

(** ** FRotator *)

Module FRotator.

Record t : Type := Make { Pitch : R; Yaw : R; Roll : R }.

(** [FRotator(0.f)] *)
Definition Zero : t := Make 0 0 0.

Definition sub (a b : t) : t := Make (Pitch a - Pitch b) (Yaw a - Yaw b) (Roll a - Roll b).

End FRotator.

(** ** FMath *)

Module FMath.

(** [Clamp(X, Min, Max) = X < Min ? Min : X < Max ? X : Max] *)
Definition Clamp (x lo hi : R) : R :=
  if decide (x < lo) then lo else if decide (x < hi) then x else hi.

(** [Lerp(A, B, Alpha) = A + Alpha * (B - A)] *)
Definition Lerp (a b alpha : R) : R := a + alpha * (b - a).
Definition LerpV (a b : FVector.t) (alpha : R) : FVector.t :=
  (a + (b - a) * alpha)%V.

Definition Max (a b : R) : R := if decide (a >= b) then a else b.

(** [IsNearlyEqual(A, B, ErrorTolerance)] *)
Definition IsNearlyEqual (a b tol : R) : bool := bool_decide (Rabs (a - b) <= tol).
(** [IsNearlyZero(Value, SMALL_NUMBER)] *)
Definition IsNearlyZero (a : R) : bool := bool_decide (Rabs a <= / 100000000).

Definition RadiansToDegrees (r : R) : R := r * (180 / PI).

(** [GetRangePct(MinValue, MaxValue, Value)] *)
Definition GetRangePct (lo hi v : R) : R :=
  let Divisor := hi - lo in
  if IsNearlyZero Divisor then (if decide (v >= hi) then 1 else 0)
  else (v - lo) / Divisor.

(** [GetMappedRangeValueClamped(InputRange, OutputRange, Value)] *)
Definition GetMappedRangeValueClamped (inA inB outA outB v : R) : R :=
  let ClampedPct := Clamp (GetRangePct inA inB v) 0 1 in
  Lerp outA outB ClampedPct.

(** [ClampAxis]: the angle brought into [0, 360). *)
Definition ClampAxis (a : R) : R := a - 360 * IZR (Int_part (a / 360)).
(** [NormalizeAxis]: the angle brought into (-180, 180]. *)
Definition NormalizeAxis (a : R) : R :=
  let c := ClampAxis a in if decide (c > 180) then c - 360 else c.

(** [FMath::Acos]: the argument is clamped to [-1, 1] first. *)
Definition Acos (v : R) : R :=
  acos (if decide (v < -1) then -1 else if decide (v < 1) then v else 1).

End FMath.

(** ** Quotients by zero

    A [float] quotient whose divisor is zero is an infinity with the sign
    of the dividend, or NaN when the dividend is zero as well.  The zero of
    a divisor is taken to be [+0], which is what sums, products and
    quotients of operands that are not negative give. *)
Inductive FloatValue : Type :=
  | Finite (x : R)
  | PlusInfinity
  | MinusInfinity
  | NaN.

Module Float.

(** [A / B] *)
Definition div (a b : R) : FloatValue :=
  if decide (b = 0) then
    if decide (0 < a) then PlusInfinity
    else if decide (a < 0) then MinusInfinity
    else NaN
  else Finite (a / b).

(** [A + B], the second operand a quotient *)
Definition add (a : R) (b : FloatValue) : FloatValue :=
  match b with
  | Finite x => Finite (a + x)
  | PlusInfinity => PlusInfinity
  | MinusInfinity => MinusInfinity
  | NaN => NaN
  end.

(** [FMath::Clamp(X, Min, Max) = X < Min ? Min : X < Max ? X : Max], where
    every comparison with NaN is false: the result is a number again. *)
Definition Clamp (x : FloatValue) (lo hi : R) : R :=
  match x with
  | Finite v => FMath.Clamp v lo hi
  | PlusInfinity => hi
  | MinusInfinity => lo
  | NaN => hi
  end.

End Float.

(** ** UKismetMathLibrary *)

Module UKismetMathLibrary.

Definition MapRangeClamped (Value InRangeA InRangeB OutRangeA OutRangeB : R) : R :=
  FMath.GetMappedRangeValueClamped InRangeA InRangeB OutRangeA OutRangeB Value.

Definition DegAcos (a : R) : R := 180 / PI * FMath.Acos a.
Definition DegAtan (a : R) : R := 180 / PI * atan a.

(** [NormalizedDeltaRotator(A, B)]: [A - B] with each axis normalised. *)
Definition NormalizedDeltaRotator (a b : FRotator.t) : FRotator.t :=
  let d := FRotator.sub a b in
  FRotator.Make (FMath.NormalizeAxis (FRotator.Pitch d))
                (FMath.NormalizeAxis (FRotator.Yaw d))
                (FMath.NormalizeAxis (FRotator.Roll d)).

Definition FMax (a b : R) : R := FMath.Max a b.

(** [GetVectorArrayAverage]: the zero vector for an empty array. *)
Definition GetVectorArrayAverage (vs : list FVector.t) : FVector.t :=
  match vs with
  | [] => FVector.Zero
  | _ => (fold_left FVector.add vs FVector.Zero * (/ INR (length vs)))%V
  end.

End UKismetMathLibrary.

(** ** Transforms, hits, components *)

(** A transform is used by the plugin only through its action on positions:
    [(FTransform(FRotator(0.f), V, FVector(1.f)) * T).GetLocation()] is
    [TransformPosition T V], and [InverseTransformLocation(T, V)] is
    [InverseTransformPosition T V]. *)
Record FTransform : Type := {
  TransformPosition : FVector.t -> FVector.t;
  InverseTransformPosition : FVector.t -> FVector.t
}.

Definition FTransform_Identity : FTransform :=
  {| TransformPosition := fun v => v; InverseTransformPosition := fun v => v |}.

#[global] Instance FTransform_inhabited : Inhabited FTransform := populate FTransform_Identity.

(** A primitive component of the world, by identity. *)
Definition UPrimitiveComponent : Type := nat.

Record FHitResult : Type := {
  bBlockingHit : bool;
  ImpactPoint : FVector.t;
  ImpactNormal : FVector.t;
  GetComponent : option UPrimitiveComponent
}.

(** [FHitResult()]: every member zeroed.  It is what [FHitResult Hit;]
    declares, and what a trace that finds nothing leaves in its out
    parameter. *)
Definition FHitResult_Init : FHitResult :=
  {| bBlockingHit := false; ImpactPoint := FVector.Zero;
     ImpactNormal := FVector.Zero; GetComponent := None |}.

Definition FName : Type := string.

(** ** Configuration of the node *)

Record FSimpleProceduralWalk_Leg : Type := {
  ParentBone : FName;
  TipBone : FName;
  Offset : FVector.t
}.

Record FSimpleProceduralWalk_LegGroup : Type := {
  LegIndices : list nat
}.

Inductive ESimpleProceduralWalk_SolverType : Type := BASIC | ADVANCED.

Record Config : Type := {
  Legs : list FSimpleProceduralWalk_Leg;
  LegGroups : list FSimpleProceduralWalk_LegGroup;
  StepHeight : R;
  StepDistanceForward : R;
  StepDistanceRight : R;
  StepSequencePercent : R;
  StepSlopeReductionMultiplier : R;
  MinStepDuration : R;
  MinDistanceToUnplant : R;
  FixFeetTargetsAfterPercent : R;
  FeetTipBonesRotationInterpSpeed : R;
  BodyBounceMultiplier : R;
  BodySlopeMultiplier : R;
  BodyLocationInterpSpeed : R;
  BodyZOffset : R;
  bBodyRotateOnAcceleration : bool;
  bBodyRotateOnFeetLocations : bool;
  BodyRotationInterpSpeed : R;
  BodyAccelerationRotationMultiplier : R;
  MaxBodyRotation : FRotator.t;
  SolverType : ESimpleProceduralWalk_SolverType;
  RadiusCheckMultiplier : R;
  DistanceCheckMultiplier : R;
  TraceLength : R;
  TraceZOffset : R;
  SpeedCurve : R -> R;
  HeightCurve : R -> R;
  (** set once by [Initialize_AnyThread] *)
  OwnerHalfHeight : R
}.

(** [Initialize_Computations]: the radius of the foothold search. *)
Definition RadiusCheck (cfg : Config) : R :=
  RadiusCheckMultiplier cfg * FMath.Max (StepDistanceForward cfg) (StepDistanceRight cfg).

#[global] Instance Leg_inhabited : Inhabited FSimpleProceduralWalk_Leg :=
  populate {| ParentBone := EmptyString; TipBone := EmptyString; Offset := FVector.Zero |}.
#[global] Instance LegGroup_inhabited : Inhabited FSimpleProceduralWalk_LegGroup :=
  populate {| LegIndices := [] |}.

(** ** The world a tick reads *)

Record World : Type := {
  (** the pawn *)
  GetVelocity : FVector.t;
  GetActorForwardVector : FVector.t;
  GetActorRightVector : FVector.t;
  GetActorUpVector : FVector.t;
  GetActorRotation : FRotator.t;
  GetActorTransform : FTransform;
  (** [IsValid(OwnerPawn->GetMovementBase())] *)
  HasMovementBase : bool;
  (** the skeletal mesh: a socket in world space, and in actor space
      ([GetSocketTransform(Name, RTS_Actor).GetLocation()]) *)
  GetSocketLocation : FName -> FVector.t;
  GetSocketRelLocation : FName -> FVector.t;
  (** the spatial queries: the blocking hit of a ray if there is one, and
      the hits of a swept sphere *)
  LineTraceSingle : FVector.t -> FVector.t -> option FHitResult;
  SphereTraceMulti : FVector.t -> FVector.t -> R -> list FHitResult;
  (** dynamic surfaces *)
  IsValidComponent : UPrimitiveComponent -> bool;
  GetComponentTransform : UPrimitiveComponent -> FTransform;
  (** [InverseTransformRotation(Mesh transform, MakeRotFromZX(Normal, Mesh forward))] *)
  FootRotationFromNormal : FVector.t -> FRotator.t;
  (** the engine's interpolation and angle routines *)
  RInterpTo : FRotator.t -> FRotator.t -> R -> R -> FRotator.t;
  VInterpTo : FVector.t -> FVector.t -> R -> R -> FVector.t;
  ClampAngle : R -> R -> R -> R;
  (** elapsed tick time, stored by [UpdateInternal] *)
  WorldDeltaSeconds : R
}.

(** [IsValid(Component)]: not null and alive in the world. *)
Definition IsValid (w : World) (c : option UPrimitiveComponent) : bool :=
  match c with
  | Some c => IsValidComponent w c
  | None => false
  end.

(** [Component->GetComponentTransform()], read only under [IsValid]. *)
Definition ComponentTransform (w : World) (c : option UPrimitiveComponent) : FTransform :=
  match c with
  | Some c => GetComponentTransform w c
  | None => FTransform_Identity
  end.

(** ** Runtime state *)

Record FLegData : Type := {
  Length : R;
  TipBoneOriginalRelLocation : FVector.t;
  FootTarget : FVector.t;
  FootLocation : FVector.t;
  FootUnplantLocation : FVector.t;
  FootTargetRotation : FRotator.t;
  GroupIndex : nat;
  bIsForward : bool;
  bIsBackwards : bool;
  bIsRight : bool;
  bIsLeft : bool;
  bEnableIK : bool;
  LastHit : FHitResult;
  SupportComp : option UPrimitiveComponent;
  RelLocationToSupportComp : FVector.t;
  SupportCompPreviousTransform : FTransform;
  SupportCompDelta : FVector.t
}.

Record FGroupData : Type := {
  bIsUnplanted : bool;
  StepPercent : R
}.

#[global] Instance FLegData_inhabited : Inhabited FLegData :=
  populate {| Length := 0; TipBoneOriginalRelLocation := FVector.Zero;
              FootTarget := FVector.Zero; FootLocation := FVector.Zero;
              FootUnplantLocation := FVector.Zero; FootTargetRotation := FRotator.Zero;
              GroupIndex := 0; bIsForward := false; bIsBackwards := false;
              bIsRight := false; bIsLeft := false; bEnableIK := false;
              LastHit := FHitResult_Init; SupportComp := None;
              RelLocationToSupportComp := FVector.Zero;
              SupportCompPreviousTransform := FTransform_Identity;
              SupportCompDelta := FVector.Zero |}.
#[global] Instance FGroupData_inhabited : Inhabited FGroupData :=
  populate {| bIsUnplanted := false; StepPercent := 0 |}.

(** The motion metrics of [UpdatePawnVariables]. *)
Record Motion : Type := {
  Speed : R;
  ForwardPercent : R;
  RightPercent : R;
  YawDelta : R;
  PreviousRotation : FRotator.t;
  CurrentStepLength : R;
  CurrentStepDuration : R;
  ForwardAcceleration : R;
  RightAcceleration : R;
  PreviousSpeed : R;
  PreviousForwardPercent : R;
  PreviousRightPercent : R
}.

(** The outputs of the body solver. *)
Record Body : Type := {
  ReduceSlopeMultiplierPitch : R;
  ReduceSlopeMultiplierRoll : R;
  CurrentBodyRelRotation : FRotator.t;
  CurrentBodyRelLocation : FVector.t
}.

(** The mutable members of [FAnimNode_SPW]. *)
Record Node : Type := {
  SkippedFrames : nat;
  bIsInitialized : bool;
  bIsFalling : bool;
  LegsData : list FLegData;
  GroupsData : list FGroupData;
  CurrentGroupIndex : nat;
  motion : Motion;
  body : Body
}.

Definition with_LegsData (s : Node) (l : list FLegData) : Node :=
  {| SkippedFrames := SkippedFrames s; bIsInitialized := bIsInitialized s;
     bIsFalling := bIsFalling s; LegsData := l; GroupsData := GroupsData s;
     CurrentGroupIndex := CurrentGroupIndex s; motion := motion s; body := body s |}.

Definition with_GroupsData (s : Node) (g : list FGroupData) : Node :=
  {| SkippedFrames := SkippedFrames s; bIsInitialized := bIsInitialized s;
     bIsFalling := bIsFalling s; LegsData := LegsData s; GroupsData := g;
     CurrentGroupIndex := CurrentGroupIndex s; motion := motion s; body := body s |}.

Definition with_CurrentGroupIndex (s : Node) (i : nat) : Node :=
  {| SkippedFrames := SkippedFrames s; bIsInitialized := bIsInitialized s;
     bIsFalling := bIsFalling s; LegsData := LegsData s; GroupsData := GroupsData s;
     CurrentGroupIndex := i; motion := motion s; body := body s |}.

Definition with_motion (s : Node) (m : Motion) : Node :=
  {| SkippedFrames := SkippedFrames s; bIsInitialized := bIsInitialized s;
     bIsFalling := bIsFalling s; LegsData := LegsData s; GroupsData := GroupsData s;
     CurrentGroupIndex := CurrentGroupIndex s; motion := m; body := body s |}.

Definition with_body (s : Node) (b : Body) : Node :=
  {| SkippedFrames := SkippedFrames s; bIsInitialized := bIsInitialized s;
     bIsFalling := bIsFalling s; LegsData := LegsData s; GroupsData := GroupsData s;
     CurrentGroupIndex := CurrentGroupIndex s; motion := motion s; body := b |}.

Definition with_bIsFalling (s : Node) (b : bool) : Node :=
  {| SkippedFrames := SkippedFrames s; bIsInitialized := bIsInitialized s;
     bIsFalling := b; LegsData := LegsData s; GroupsData := GroupsData s;
     CurrentGroupIndex := CurrentGroupIndex s; motion := motion s; body := body s |}.

Definition with_init (s : Node) (n : nat) (b : bool) : Node :=
  {| SkippedFrames := n; bIsInitialized := b;
     bIsFalling := bIsFalling s; LegsData := LegsData s; GroupsData := GroupsData s;
     CurrentGroupIndex := CurrentGroupIndex s; motion := motion s; body := body s |}.

(** [LegsData[LegIndex]] updated in place. *)
Definition alter_leg (f : FLegData -> FLegData) (LegIndex : nat) (s : Node) : Node :=
  with_LegsData s (alter f LegIndex (LegsData s)).

(** [GroupsData[GroupIndex]] updated in place. *)
Definition alter_group (f : FGroupData -> FGroupData) (GroupIndex : nat) (s : Node) : Node :=
  with_GroupsData s (alter f GroupIndex (GroupsData s)).

(** [for (int i = 0; i < n; i++) body(i)] *)
Definition for_index (n : nat) (body : nat -> Node -> Node) (s : Node) : Node :=
  fold_left (fun s i => body i s) (seq 0 n) s.

(** [for (int LegIndex : LegIndices) body(LegIndex)] *)
Definition for_each (l : list nat) (body : nat -> Node -> Node) (s : Node) : Node :=
  fold_left (fun s i => body i s) l s.

(** ** The computations of [SPW_Computations.cpp] *)

Section Computations.

Variable cfg : Config.
Variable w : World.

Definition FRAMES_TO_SKIP_ON_INIT : nat := 2.
Definition STEP_PERCENT_AT_BEGINNING : R := 15 / 100.
Definition STEP_PERCENT_AT_END : R := 85 / 100.
Definition SPEED_THRESHOLD_MIN : R := 2.

(** *** Helpers *)

Definition IsLegUnplanted (LegIndex : nat) (s : Node) : bool :=
  bIsUnplanted (GroupsData s !!! GroupIndex (LegsData s !!! LegIndex)).

Definition GetLegStepPercent (LegIndex : nat) (s : Node) : R :=
  StepPercent (GroupsData s !!! GroupIndex (LegsData s !!! LegIndex)).

Definition GetReductionSlopeMultiplier (s : Node) : R :=
  Rabs (ForwardPercent (motion s)) * ReduceSlopeMultiplierPitch (body s)
  + Rabs (RightPercent (motion s)) * ReduceSlopeMultiplierRoll (body s).

Definition SetNextCurrentGroupIndex (s : Node) : Node :=
  let i := (CurrentGroupIndex s + 1)%nat in
  with_CurrentGroupIndex s (if decide (i = length (LegGroups cfg)) then 0%nat else i).

(** The support component of a leg is the component of its last hit; its
    transform and the reference location in its frame are stored when the
    component is valid. *)
Definition SupportComponentData (RefLocation : FVector.t) (d : FLegData) : FLegData :=
  let comp := GetComponent (LastHit d) in
  {| Length := Length d; TipBoneOriginalRelLocation := TipBoneOriginalRelLocation d;
     FootTarget := FootTarget d; FootLocation := FootLocation d;
     FootUnplantLocation := FootUnplantLocation d;
     FootTargetRotation := FootTargetRotation d; GroupIndex := GroupIndex d;
     bIsForward := bIsForward d; bIsBackwards := bIsBackwards d;
     bIsRight := bIsRight d; bIsLeft := bIsLeft d; bEnableIK := bEnableIK d;
     LastHit := LastHit d;
     SupportComp := comp;
     RelLocationToSupportComp :=
       if IsValid w comp
       then InverseTransformPosition (ComponentTransform w comp) RefLocation
       else RelLocationToSupportComp d;
     SupportCompPreviousTransform :=
       if IsValid w comp
       then ComponentTransform w comp
       else SupportCompPreviousTransform d;
     SupportCompDelta := SupportCompDelta d |}.

Definition SetSupportComponentData (LegIndex : nat) (RefLocation : FVector.t) (s : Node) : Node :=
  alter_leg (SupportComponentData RefLocation) LegIndex s.

(** *** UpdatePawnVariables *)

Definition UpdatePawnVariables (s : Node) : Node :=
  let m := motion s in
  let PawnVelocity0 := GetVelocity w in
  let Speed0 := FVector.Size PawnVelocity0 in
  let slow := bool_decide (Speed0 <= SPEED_THRESHOLD_MIN) in
  let Speed' := if slow then 0 else Speed0 in
  let PawnVelocity := FVector.Normalize (if slow then FVector.Zero else PawnVelocity0) in
  let ForwardPercent' :=
    UKismetMathLibrary.MapRangeClamped
      (UKismetMathLibrary.DegAcos (FVector.DotProduct (GetActorForwardVector w) PawnVelocity))
      0 180 1 (-1) in
  let RightPercent' :=
    UKismetMathLibrary.MapRangeClamped
      (UKismetMathLibrary.DegAcos (FVector.DotProduct (GetActorRightVector w) PawnVelocity))
      0 180 1 (-1) in
  let YawDelta' :=
    FRotator.Yaw (UKismetMathLibrary.NormalizedDeltaRotator (GetActorRotation w) (PreviousRotation m)) in
  let s1 := with_motion s
    {| Speed := Speed'; ForwardPercent := ForwardPercent'; RightPercent := RightPercent';
       YawDelta := YawDelta'; PreviousRotation := GetActorRotation w;
       CurrentStepLength := CurrentStepLength m; CurrentStepDuration := CurrentStepDuration m;
       ForwardAcceleration := ForwardAcceleration m; RightAcceleration := RightAcceleration m;
       PreviousSpeed := PreviousSpeed m; PreviousForwardPercent := PreviousForwardPercent m;
       PreviousRightPercent := PreviousRightPercent m |} in
  let CurrentStepLength' :=
    (Rabs (ForwardPercent' * StepDistanceForward cfg)
     + Rabs (RightPercent' * StepDistanceRight cfg)
     + Rabs (StepDistanceRight cfg * FMath.Clamp (YawDelta' / 360) (-1) 1))
    * GetReductionSlopeMultiplier s1 in
  let SpeedWithAngular := Speed' + Rabs YawDelta' in
  let CurrentStepDuration' :=
    if decide (SpeedWithAngular > 5)
    then CurrentStepLength' / SpeedWithAngular
    else MinStepDuration cfg in
  with_motion s
    {| Speed := Speed'; ForwardPercent := ForwardPercent'; RightPercent := RightPercent';
       YawDelta := YawDelta'; PreviousRotation := GetActorRotation w;
       CurrentStepLength := CurrentStepLength';
       CurrentStepDuration := CurrentStepDuration';
       ForwardAcceleration :=
         (ForwardPercent' * Speed' - PreviousForwardPercent m * PreviousSpeed m)
         / WorldDeltaSeconds w;
       RightAcceleration :=
         (RightPercent' * Speed' - PreviousRightPercent m * PreviousSpeed m)
         / WorldDeltaSeconds w;
       PreviousSpeed := Speed'; PreviousForwardPercent := ForwardPercent';
       PreviousRightPercent := RightPercent' |}.

(** *** SetSupportCompDeltas *)

Definition SupportCompDeltaOf (d : FLegData) : FLegData :=
  {| Length := Length d; TipBoneOriginalRelLocation := TipBoneOriginalRelLocation d;
     FootTarget := FootTarget d; FootLocation := FootLocation d;
     FootUnplantLocation := FootUnplantLocation d;
     FootTargetRotation := FootTargetRotation d; GroupIndex := GroupIndex d;
     bIsForward := bIsForward d; bIsBackwards := bIsBackwards d;
     bIsRight := bIsRight d; bIsLeft := bIsLeft d; bEnableIK := bEnableIK d;
     LastHit := LastHit d; SupportComp := SupportComp d;
     RelLocationToSupportComp := RelLocationToSupportComp d;
     SupportCompPreviousTransform :=
       if IsValid w (SupportComp d)
       then ComponentTransform w (SupportComp d)
       else SupportCompPreviousTransform d;
     SupportCompDelta :=
       if IsValid w (SupportComp d) then
         let PreviousLocation :=
           TransformPosition (SupportCompPreviousTransform d) (RelLocationToSupportComp d) in
         let NewLocation :=
           TransformPosition (ComponentTransform w (SupportComp d))
             (RelLocationToSupportComp d) in
         (NewLocation - PreviousLocation)%V
       else FVector.Zero |}.

Definition SetSupportCompDelta (LegIndex : nat) (s : Node) : Node :=
  alter_leg SupportCompDeltaOf LegIndex s.

Definition SetSupportCompDeltas (s : Node) : Node :=
  for_index (length (Legs cfg)) SetSupportCompDelta s.

(** *** SetFootTargetLocation *)

(** The probe segment of a leg: the anchor below the parent bone, biased by
    the motion percentages and the leg offset; the start raised by
    [TraceZOffset], the end lowered by [TraceLength]. *)
Definition StartLocationWithoutZOffset (LegIndex : nat) (s : Node) : FVector.t :=
  let Leg := Legs cfg !!! LegIndex in
  let ParentBoneLocation := GetSocketLocation w (ParentBone Leg) in
  let ForwardOffset :=
    (GetActorForwardVector w
     * (StepDistanceForward cfg * ForwardPercent (motion s) + FVector.X (Offset Leg)))%V in
  let RightOffset :=
    (GetActorRightVector w
     * (StepDistanceRight cfg * RightPercent (motion s) + FVector.Y (Offset Leg)))%V in
  (ParentBoneLocation + ForwardOffset + RightOffset)%V.

Definition StartLocation (LegIndex : nat) (s : Node) : FVector.t :=
  (StartLocationWithoutZOffset LegIndex s + GetActorUpVector w * TraceZOffset cfg)%V.

Definition EndLocation (LegIndex : nat) (s : Node) : FVector.t :=
  (StartLocationWithoutZOffset LegIndex s - GetActorUpVector w * TraceLength cfg)%V.

(** The line trace: [bIsHit] and the out parameter [Hit]. *)
Definition LineHit (LegIndex : nat) (s : Node) : bool * FHitResult :=
  match LineTraceSingle w (StartLocation LegIndex s) (EndLocation LegIndex s) with
  | Some h => (true, h)
  | None => (false, FHitResult_Init)
  end.

(** One iteration of the loop over [FootHoldHits]: the pair is
    [(MinZ, FootHoldBestHit)]. *)
Definition FootHoldStep (Anchor : FVector.t) (ZDistanceToLineHit : R)
    (acc : R * FHitResult) (FootHoldHit : FHitResult) : R * FHitResult :=
  let ZDistanceToFootHoldHit := FVector.Size (Anchor - ImpactPoint FootHoldHit)%V in
  if decide (ZDistanceToFootHoldHit < ZDistanceToLineHit) then
    let CurrentHitZ :=
      FVector.Size (FVector.mul (Anchor - ImpactPoint FootHoldHit)%V (GetActorUpVector w))
      * (1 - FVector.DotProduct (ImpactNormal FootHoldHit) (GetActorUpVector w)) in
    if decide (CurrentHitZ < fst acc) then (CurrentHitZ, FootHoldHit) else acc
  else acc.

Definition FootHoldBestHit (Anchor : FVector.t) (ZDistanceToLineHit : R)
    (FootHoldHits : list FHitResult) : FHitResult :=
  snd (fold_left (FootHoldStep Anchor ZDistanceToLineHit) FootHoldHits
         ((TraceLength cfg + TraceZOffset cfg) * 2, FHitResult_Init)).

(** The solver: [bIsHit] and [Hit] as they stand when the result is
    applied.  BASIC keeps the line trace; ADVANCED may replace it by a
    foothold of the sphere trace. *)
Definition ResolveProbe (solver : ESimpleProceduralWalk_SolverType)
    (LegIndex : nat) (s : Node) : bool * FHitResult :=
  let line := LineHit LegIndex s in
  match solver with
  | BASIC => line
  | ADVANCED =>
    let Anchor := StartLocationWithoutZOffset LegIndex s in
    let ZDistanceToLineHit := FVector.Size (Anchor - ImpactPoint (snd line))%V in
    let bIsTooDistant :=
      bool_decide (ZDistanceToLineHit
                   > Length (LegsData s !!! LegIndex) * DistanceCheckMultiplier cfg) in
    if negb (fst line) || bIsTooDistant then
      let FootHoldHits :=
        SphereTraceMulti w (StartLocation LegIndex s) (EndLocation LegIndex s)
          (RadiusCheck cfg) in
      if bool_decide (0 < length FootHoldHits)%nat then
        let Best := FootHoldBestHit Anchor ZDistanceToLineHit FootHoldHits in
        if bBlockingHit Best then (true, Best) else line
      else line
    else line
  end.

(** The rotation a foot is asked to take. *)
Definition TargetFootRotationCS (bIsHit : bool) (Hit : FHitResult)
    (LegIndex : nat) (s : Node) : FRotator.t :=
  if bIsHit then
    if negb (IsLegUnplanted LegIndex s)
       || (IsLegUnplanted LegIndex s
           && (bool_decide (GetLegStepPercent LegIndex s < STEP_PERCENT_AT_BEGINNING)
               || bool_decide (GetLegStepPercent LegIndex s > STEP_PERCENT_AT_END)))
    then FootRotationFromNormal w (ImpactNormal Hit)
    else FRotator.Zero
  else FRotator.Zero.

(** The value [FootTarget] has when the function returns. *)
Definition NewFootTarget (bIsHit : bool) (Hit : FHitResult)
    (LegIndex : nat) (s : Node) : FVector.t :=
  let Leg := Legs cfg !!! LegIndex in
  let d := LegsData s !!! LegIndex in
  if bIsHit then
    let FootTarget' := (ImpactPoint Hit + FVector.Make 0 0 (FVector.Z (Offset Leg)))%V in
    if IsLegUnplanted LegIndex s then
      if decide (GetLegStepPercent LegIndex s < FixFeetTargetsAfterPercent cfg)
      then FootTarget'
      else (FootTarget d + SupportCompDelta d)%V
    else FootTarget'
  else
    TransformPosition (GetActorTransform w) (TipBoneOriginalRelLocation d).

Definition SetFootTargetLocationWith (solver : ESimpleProceduralWalk_SolverType)
    (LegIndex : nat) (s : Node) : Node :=
  let bIsHit := fst (ResolveProbe solver LegIndex s) in
  let Hit := snd (ResolveProbe solver LegIndex s) in
  alter_leg (fun d =>
    {| Length := Length d; TipBoneOriginalRelLocation := TipBoneOriginalRelLocation d;
       FootTarget := NewFootTarget bIsHit Hit LegIndex s;
       FootLocation := FootLocation d;
       FootUnplantLocation := FootUnplantLocation d;
       FootTargetRotation :=
         RInterpTo w (FootTargetRotation d) (TargetFootRotationCS bIsHit Hit LegIndex s)
           (WorldDeltaSeconds w) (FeetTipBonesRotationInterpSpeed cfg);
       GroupIndex := GroupIndex d;
       bIsForward := bIsForward d; bIsBackwards := bIsBackwards d;
       bIsRight := bIsRight d; bIsLeft := bIsLeft d;
       bEnableIK := bIsHit;
       LastHit := Hit;
       SupportComp := SupportComp d;
       RelLocationToSupportComp := RelLocationToSupportComp d;
       SupportCompPreviousTransform := SupportCompPreviousTransform d;
       SupportCompDelta := SupportCompDelta d |}) LegIndex s.

Definition SetFootTargetLocation (LegIndex : nat) (s : Node) : Node :=
  SetFootTargetLocationWith (SolverType cfg) LegIndex s.

Definition SetFeetTargetLocations (s : Node) : Node :=
  for_index (length (Legs cfg)) SetFootTargetLocation s.

(** *** SetCurrentGroupUnplanted *)

Definition with_FootLocation (d : FLegData) (v : FVector.t) : FLegData :=
  {| Length := Length d; TipBoneOriginalRelLocation := TipBoneOriginalRelLocation d;
     FootTarget := FootTarget d; FootLocation := v;
     FootUnplantLocation := FootUnplantLocation d;
     FootTargetRotation := FootTargetRotation d; GroupIndex := GroupIndex d;
     bIsForward := bIsForward d; bIsBackwards := bIsBackwards d;
     bIsRight := bIsRight d; bIsLeft := bIsLeft d; bEnableIK := bEnableIK d;
     LastHit := LastHit d; SupportComp := SupportComp d;
     RelLocationToSupportComp := RelLocationToSupportComp d;
     SupportCompPreviousTransform := SupportCompPreviousTransform d;
     SupportCompDelta := SupportCompDelta d |}.

Definition with_FootUnplantLocation (d : FLegData) (v : FVector.t) : FLegData :=
  {| Length := Length d; TipBoneOriginalRelLocation := TipBoneOriginalRelLocation d;
     FootTarget := FootTarget d; FootLocation := FootLocation d;
     FootUnplantLocation := v;
     FootTargetRotation := FootTargetRotation d; GroupIndex := GroupIndex d;
     bIsForward := bIsForward d; bIsBackwards := bIsBackwards d;
     bIsRight := bIsRight d; bIsLeft := bIsLeft d; bEnableIK := bEnableIK d;
     LastHit := LastHit d; SupportComp := SupportComp d;
     RelLocationToSupportComp := RelLocationToSupportComp d;
     SupportCompPreviousTransform := SupportCompPreviousTransform d;
     SupportCompDelta := SupportCompDelta d |}.

(** The test of the loop that looks for a foot far enough from its target. *)
Definition IsFootFarEnough (s : Node) (LegIndex : nat) : bool :=
  bool_decide (FVector.Dist (FootLocation (LegsData s !!! LegIndex))
                            (FootTarget (LegsData s !!! LegIndex))
               >= MinDistanceToUnplant cfg).

(** [CurrentGroupIndex - 1], or the last group when that is negative. *)
Definition PreviousGroupIndex (s : Node) : nat :=
  if decide (CurrentGroupIndex s = 0)%nat
  then (length (LegGroups cfg) - 1)%nat
  else (CurrentGroupIndex s - 1)%nat.

(** The body of the loop over the feet of the group that unplants. *)
Definition UnplantLeg (LegIndex : nat) (s : Node) : Node :=
  let s1 := alter_leg (fun d => with_FootUnplantLocation d (FootLocation d)) LegIndex s in
  SetSupportComponentData LegIndex (FootUnplantLocation (LegsData s1 !!! LegIndex)) s1.

(** The interface events ([CallStepInterfaces]) are dispatched to the game
    thread and touch no member of the node; they are not modelled. *)
Definition SetCurrentGroupUnplanted (s : Node) : Node :=
  let Current := CurrentGroupIndex s in
  if bIsUnplanted (GroupsData s !!! Current) then s
  else
    let bIsAtLeastOneFootFarEnough :=
      existsb (IsFootFarEnough s) (LegIndices (LegGroups cfg !!! Current)) in
    if negb bIsAtLeastOneFootFarEnough then s
    else
      let Previous := GroupsData s !!! PreviousGroupIndex s in
      if bIsUnplanted Previous
         && bool_decide (StepPercent Previous < StepSequencePercent cfg)
      then s
      else
        let s1 := alter_group (fun _ => {| bIsUnplanted := true; StepPercent := 0 |})
                    Current s in
        let s2 := for_each (LegIndices (LegGroups cfg !!! Current)) UnplantLeg s1 in
        SetNextCurrentGroupIndex s2.

(** *** ComputeFeet *)

Definition ComputeFeetGroup (GroupIndex : nat) (s : Node) : Node :=
  let Group := LegIndices (LegGroups cfg !!! GroupIndex) in
  if bIsFalling s then
    for_each Group
      (fun LegIndex => alter_leg (fun d => with_FootLocation d (FootTarget d)) LegIndex) s
  else if bIsUnplanted (GroupsData s !!! GroupIndex) then
    let StepPercent' :=
      Float.Clamp
        (Float.add (StepPercent (GroupsData s !!! GroupIndex))
           (Float.div (WorldDeltaSeconds w) (CurrentStepDuration (motion s)))) 0 1 in
    let s1 := alter_group
                (fun g => {| bIsUnplanted := bIsUnplanted g; StepPercent := StepPercent' |})
                GroupIndex s in
    let InterpSpeed := SpeedCurve cfg StepPercent' in
    let RelativeZ := HeightCurve cfg StepPercent' * StepHeight cfg in
    for_each Group
      (fun LegIndex =>
         alter_leg (fun d =>
           with_FootUnplantLocation
             (with_FootLocation d
                (FMath.LerpV (FootUnplantLocation d) (FootTarget d) InterpSpeed
                 + GetActorUpVector w * RelativeZ)%V)
             (FootUnplantLocation d + SupportCompDelta d)%V) LegIndex) s1
  else
    for_each Group
      (fun LegIndex =>
         alter_leg (fun d =>
           let FootDistanceFromLocation :=
             FVector.Dist (FootLocation d)
                          (GetSocketLocation w (TipBone (Legs cfg !!! LegIndex))) in
           if decide (FootDistanceFromLocation
                      <= MinDistanceToUnplant cfg * DistanceCheckMultiplier cfg)
           then with_FootLocation d (FootLocation d + SupportCompDelta d)%V
           else d) LegIndex) s.

Definition ComputeFeet (s : Node) : Node :=
  for_index (length (LegGroups cfg)) ComputeFeetGroup s.

(** *** SetGroupsPlanted *)

Definition PlantLeg (LegIndex : nat) (s : Node) : Node :=
  SetSupportComponentData LegIndex (FootLocation (LegsData s !!! LegIndex)) s.

Definition SetGroupPlanted (GroupIndex : nat) (s : Node) : Node :=
  let g := GroupsData s !!! GroupIndex in
  if bIsUnplanted g && bool_decide (StepPercent g = 1) then
    let s1 := for_each (LegIndices (LegGroups cfg !!! GroupIndex)) PlantLeg s in
    alter_group (fun g => {| bIsUnplanted := false; StepPercent := StepPercent g |})
      GroupIndex s1
  else s.

Definition SetGroupsPlanted (s : Node) : Node :=
  for_index (length (LegGroups cfg)) SetGroupPlanted s.

(** *** The body solver *)

(** [LegsData[0 .. Legs.Num())], the legs a loop over [Legs.Num()] visits. *)
Definition VisitedLegs (s : Node) : list FLegData :=
  map (fun LegIndex => LegsData s !!! LegIndex) (seq 0 (length (Legs cfg))).

Definition FTargetOf (d : FLegData) : FVector.t :=
  InverseTransformPosition (GetActorTransform w) (FootTarget d).

(** [GetAverageFeetTargets]: forward, backwards, right, left. *)
Definition AverageFeetTargetsForward (s : Node) : FVector.t :=
  UKismetMathLibrary.GetVectorArrayAverage
    (map FTargetOf (List.filter bIsForward (VisitedLegs s))).
Definition AverageFeetTargetsBackwards (s : Node) : FVector.t :=
  UKismetMathLibrary.GetVectorArrayAverage
    (map FTargetOf (List.filter bIsBackwards (VisitedLegs s))).
Definition AverageFeetTargetsRight (s : Node) : FVector.t :=
  UKismetMathLibrary.GetVectorArrayAverage
    (map FTargetOf (List.filter bIsRight (VisitedLegs s))).
Definition AverageFeetTargetsLeft (s : Node) : FVector.t :=
  UKismetMathLibrary.GetVectorArrayAverage
    (map FTargetOf (List.filter bIsLeft (VisitedLegs s))).

(** The expression both slope multipliers are computed by: the angle, held
    in degrees, goes through [RadiansToDegrees] and then to the cosine. *)
Definition ReduceSlopeMultiplierOf (ssrm : R) (AngleFromFeetLocations : R) : R :=
  UKismetMathLibrary.MapRangeClamped
    (Rabs (cos (FMath.RadiansToDegrees AngleFromFeetLocations)))
    0 1 (1 - ssrm) 1.

(** The angles of the body from the feet targets.  When the two averages
    coincide in [X] (or in [Y]) the [float] quotient is infinite or NaN;
    the real quotient below has no meaning there, and no statement depends
    on the value of an angle at a zero divisor. *)
Definition PitchFromFeetLocations (Forward Backwards : FVector.t) : R :=
  if bBodyRotateOnFeetLocations cfg then
    UKismetMathLibrary.DegAtan
      ((FVector.Z Forward - FVector.Z Backwards) / (FVector.X Forward - FVector.X Backwards))
  else 0.

Definition RollFromFeetLocations (Right Left : FVector.t) : R :=
  if bBodyRotateOnFeetLocations cfg then
    - UKismetMathLibrary.DegAtan
        ((FVector.Z Right - FVector.Z Left) / (FVector.Y Right - FVector.Y Left))
  else 0.

Definition ComputeBodyRotation (Forward Backwards Right Left : FVector.t) (s : Node) : Node :=
  let Pitch := PitchFromFeetLocations Forward Backwards in
  let Roll := RollFromFeetLocations Right Left in
  let PitchFromAcceleration :=
    if bBodyRotateOnAcceleration cfg
    then ForwardAcceleration (motion s) * BodyAccelerationRotationMultiplier cfg * (- (2 / 10))
    else 0 in
  let RollFromAcceleration :=
    if bBodyRotateOnAcceleration cfg
    then RightAcceleration (motion s) * BodyAccelerationRotationMultiplier cfg * (2 / 10)
    else 0 in
  let BodyPitch :=
    ClampAngle w (Pitch + PitchFromAcceleration)
      (- FRotator.Pitch (MaxBodyRotation cfg)) (FRotator.Pitch (MaxBodyRotation cfg)) in
  let BodyRoll :=
    ClampAngle w (Roll + RollFromAcceleration)
      (- FRotator.Roll (MaxBodyRotation cfg)) (FRotator.Roll (MaxBodyRotation cfg)) in
  let TargetBodyRelRotation := FRotator.Make BodyPitch 0 BodyRoll in
  with_body s
    {| ReduceSlopeMultiplierPitch :=
         ReduceSlopeMultiplierOf (StepSlopeReductionMultiplier cfg) Pitch;
       ReduceSlopeMultiplierRoll :=
         ReduceSlopeMultiplierOf (StepSlopeReductionMultiplier cfg) Roll;
       CurrentBodyRelRotation :=
         RInterpTo w (CurrentBodyRelRotation (body s)) TargetBodyRelRotation
           (WorldDeltaSeconds w) (BodyRotationInterpSpeed cfg);
       CurrentBodyRelLocation := CurrentBodyRelLocation (body s) |}.

Definition ComputeBodyLocation (Forward Backwards Right Left : FVector.t) (s : Node) : Node :=
  let AverageFeetLocation :=
    UKismetMathLibrary.GetVectorArrayAverage (map FootLocation (VisitedLegs s)) in
  let AverageFeetRelLocation :=
    InverseTransformPosition (GetActorTransform w) AverageFeetLocation in
  let ReduceZForFeetLocations :=
    FMath.Clamp
      (UKismetMathLibrary.FMax
         (Rabs (FVector.Z Forward - FVector.Z Backwards) * BodySlopeMultiplier cfg)
         (Rabs (FVector.Z Right - FVector.Z Left) * BodySlopeMultiplier cfg))
      0 (OwnerHalfHeight cfg) in
  let BodyZPosition :=
    (FVector.Z AverageFeetRelLocation + OwnerHalfHeight cfg) * BodyBounceMultiplier cfg
    - ReduceZForFeetLocations + BodyZOffset cfg in
  let TargetBodyRelLocation := FVector.Make 0 0 BodyZPosition in
  with_body s
    {| ReduceSlopeMultiplierPitch := ReduceSlopeMultiplierPitch (body s);
       ReduceSlopeMultiplierRoll := ReduceSlopeMultiplierRoll (body s);
       CurrentBodyRelRotation := CurrentBodyRelRotation (body s);
       CurrentBodyRelLocation :=
         VInterpTo w (CurrentBodyRelLocation (body s)) TargetBodyRelLocation
           (WorldDeltaSeconds w) (BodyLocationInterpSpeed cfg) |}.

Definition ComputeBodyTransform (s : Node) : Node :=
  let Forward := AverageFeetTargetsForward s in
  let Backwards := AverageFeetTargetsBackwards s in
  let Right := AverageFeetTargetsRight s in
  let Left := AverageFeetTargetsLeft s in
  ComputeBodyLocation Forward Backwards Right Left
    (ComputeBodyRotation Forward Backwards Right Left s).

(** *** ResetFeetTargetsAndLocations *)

Definition ResetFoot (LegIndex : nat) (s : Node) : Node :=
  alter_leg (fun d =>
    let FootLocation' :=
      TransformPosition (GetActorTransform w) (TipBoneOriginalRelLocation d) in
    with_FootUnplantLocation (with_FootLocation d FootLocation') FootLocation') LegIndex s.

Definition ResetGroup (GroupIndex : nat) (s : Node) : Node :=
  alter_group (fun g => {| bIsUnplanted := false; StepPercent := 0 |}) GroupIndex s.

Definition ResetFeetTargetsAndLocations (s : Node) : Node :=
  let s1 := SetFeetTargetLocations s in
  let s2 := for_index (length (Legs cfg)) ResetFoot s1 in
  let s3 := with_CurrentGroupIndex s2 0%nat in
  for_index (length (LegGroups cfg)) ResetGroup s3.

(** *** Evaluate_Computations *)

(** The body of the loop that initialises the leg data once the first
    frames have been skipped. *)
Definition InitLegData (LegIndex : nat) (s : Node) : Node :=
  let Leg := Legs cfg !!! LegIndex in
  let ParentBoneRelLocationWithOffsets :=
    (GetSocketRelLocation w (ParentBone Leg) + Offset Leg)%V in
  let TipBoneRelLocation :=
    FVector.Make (FVector.X ParentBoneRelLocationWithOffsets)
                 (FVector.Y ParentBoneRelLocationWithOffsets)
                 (- OwnerHalfHeight cfg) in
  let TipBoneLocation := TransformPosition (GetActorTransform w) TipBoneRelLocation in
  let centreX := FMath.IsNearlyEqual (FVector.X ParentBoneRelLocationWithOffsets) 0 (/ 1000) in
  let centreY := FMath.IsNearlyEqual (FVector.Y ParentBoneRelLocationWithOffsets) 0 (/ 1000) in
  alter_leg (fun d =>
    {| Length := FVector.Z ParentBoneRelLocationWithOffsets - FVector.Z TipBoneRelLocation;
       TipBoneOriginalRelLocation := TipBoneRelLocation;
       FootTarget := TipBoneLocation; FootLocation := TipBoneLocation;
       FootUnplantLocation := FootUnplantLocation d;
       FootTargetRotation := FootTargetRotation d; GroupIndex := GroupIndex d;
       bIsForward :=
         if centreX then true
         else bool_decide (FVector.X ParentBoneRelLocationWithOffsets > 0);
       bIsBackwards :=
         if centreX then true
         else bool_decide (FVector.X ParentBoneRelLocationWithOffsets < 0);
       bIsRight :=
         if centreY then true
         else bool_decide (FVector.Y ParentBoneRelLocationWithOffsets > 0);
       bIsLeft :=
         if centreY then true
         else bool_decide (FVector.Y ParentBoneRelLocationWithOffsets < 0);
       bEnableIK := bEnableIK d; LastHit := LastHit d; SupportComp := SupportComp d;
       RelLocationToSupportComp := RelLocationToSupportComp d;
       SupportCompPreviousTransform := SupportCompPreviousTransform d;
       SupportCompDelta := SupportCompDelta d |}) LegIndex s.

(** The part of a tick that follows the initialisation: motion, support
    deltas, foot targets, then the gait (suspended while falling) and the
    body. *)
Definition BeforeGait (s : Node) : Node :=
  SetFeetTargetLocations (SetSupportCompDeltas (UpdatePawnVariables s)).

Definition Pipeline (s : Node) : Node :=
  let s3 := BeforeGait s in
  let s4 :=
    if bIsFalling s3 then ComputeFeet s3
    else SetGroupsPlanted (ComputeFeet (SetCurrentGroupUnplanted s3)) in
  ComputeBodyTransform s4.

Definition Evaluate_Computations (s : Node) : Node :=
  if decide (SkippedFrames s < FRAMES_TO_SKIP_ON_INIT)%nat then
    with_init s (S (SkippedFrames s)) (bIsInitialized s)
  else if decide (SkippedFrames s = FRAMES_TO_SKIP_ON_INIT)%nat then
    Pipeline (with_init (for_index (length (Legs cfg)) InitLegData s)
                (FRAMES_TO_SKIP_ON_INIT + 1)%nat true)
  else Pipeline s.

(** *** EvaluateSkeletalControl_AnyThread ([AnimNode_SPW.cpp]), while playing

    The falling events, then the computations.  The body and leg solvers
    that follow read the result and are outside this development. *)
Definition EvaluateSkeletalControl_AnyThread (s : Node) : Node :=
  let s1 :=
    if bIsInitialized s then
      if negb (HasMovementBase w) then
        if negb (bIsFalling s)
        then with_bIsFalling (ResetFeetTargetsAndLocations s) true
        else s
      else
        if bIsFalling s
        then ResetFeetTargetsAndLocations (with_bIsFalling s false)
        else s
    else s in
  Evaluate_Computations s1.

End Computations.

(** *** Initialize_Computations

    [SetNum] truncates the array or pads it with default-constructed
    elements.  [LegsData[LegIndex]] is range-checked: an entry of
    [LegIndices] that is not an index of [LegsData] stops the program, and
    the function returns no node.  Otherwise it returns the node together
    with the value it stores in the member [RadiusCheck], the value the
    probe reads as [RadiusCheck cfg]. *)
Definition with_GroupIndex (d : FLegData) (g : nat) : FLegData :=
  {| Length := Length d; TipBoneOriginalRelLocation := TipBoneOriginalRelLocation d;
     FootTarget := FootTarget d; FootLocation := FootLocation d;
     FootUnplantLocation := FootUnplantLocation d;
     FootTargetRotation := FootTargetRotation d; GroupIndex := g;
     bIsForward := bIsForward d; bIsBackwards := bIsBackwards d;
     bIsRight := bIsRight d; bIsLeft := bIsLeft d; bEnableIK := bEnableIK d;
     LastHit := LastHit d; SupportComp := SupportComp d;
     RelLocationToSupportComp := RelLocationToSupportComp d;
     SupportCompPreviousTransform := SupportCompPreviousTransform d;
     SupportCompDelta := SupportCompDelta d |}.

(** [LegsData[LegIndex].GroupIndex = GroupIndex] *)
Definition SetLegGroupIndex (GroupIndex LegIndex : nat) (s : Node) : option Node :=
  if decide (LegIndex < length (LegsData s))%nat
  then Some (alter_leg (fun d => with_GroupIndex d GroupIndex) LegIndex s)
  else None.

(** A loop whose body may stop the program. *)
Definition for_each_checked (l : list nat) (body : nat -> Node -> option Node) (s : Node)
    : option Node :=
  fold_left (fun acc i => match acc with Some s' => body i s' | None => None end) l (Some s).

Definition InitFeetGroup (cfg : Config) (GroupIndex : nat) (s : Node) : option Node :=
  for_each_checked (LegIndices (LegGroups cfg !!! GroupIndex)) (SetLegGroupIndex GroupIndex) s.

Definition Initialize_Computations (cfg : Config) (s : Node) : option (Node * R) :=
  let FeetDataSize := length (Legs cfg) in
  let s1 := with_LegsData s (resize FeetDataSize inhabitant (LegsData s)) in
  let FeetGroupsSize := length (LegGroups cfg) in
  let s2 := with_GroupsData s1 (resize FeetGroupsSize inhabitant (GroupsData s1)) in
  match for_each_checked (seq 0 (length (LegGroups cfg))) (InitFeetGroup cfg) s2 with
  | Some s3 =>
      Some (s3, RadiusCheckMultiplier cfg
                * FMath.Max (StepDistanceForward cfg) (StepDistanceRight cfg))
  | None => None
  end.

(** *** CCDIK_ResizeRotationLimitPerJoints ([AnimNode_SPW.cpp])

    The function on the array [Legs[LegIndex].RotationLimitPerJoints] it
    resizes; [SetNum] pads a [float] array with zeros. *)
Definition CCDIK_ResizeRotationLimitPerJoints (NewSize : nat) (RotationLimitPerJoints : list R)
    : list R :=
  if decide (NewSize = 0%nat) then []
  else if decide (length RotationLimitPerJoints <> NewSize) then
    let StartIndex := length RotationLimitPerJoints in
    let resized := resize NewSize 0 RotationLimitPerJoints in
    fold_left (fun l Index => <[Index := 30]> l)
      (seq StartIndex (length resized - StartIndex)) resized
  else RotationLimitPerJoints.

(** * Notions the statements use *)

(** ** Example inputs *)

(** The defaults of the node's constructor ([AnimNode_SPW.cpp]) around the
    given legs and groups.  The two curves are assets; a linear speed
    profile and a parabolic height profile stand for them.  The half height
    is measured at initialisation. *)
Definition ConstructorConfig (legs : list FSimpleProceduralWalk_Leg)
    (groups : list FSimpleProceduralWalk_LegGroup) : Config :=
  {| Legs := legs; LegGroups := groups;
     StepHeight := 20; StepDistanceForward := 50; StepDistanceRight := 30;
     StepSequencePercent := 1; StepSlopeReductionMultiplier := 3 / 4;
     MinStepDuration := 15 / 100; MinDistanceToUnplant := 5;
     FixFeetTargetsAfterPercent := 1 / 2; FeetTipBonesRotationInterpSpeed := 15;
     BodyBounceMultiplier := 1 / 2; BodySlopeMultiplier := 1 / 2;
     BodyLocationInterpSpeed := 10; BodyZOffset := 0;
     bBodyRotateOnAcceleration := true; bBodyRotateOnFeetLocations := true;
     BodyRotationInterpSpeed := 25 / 10; BodyAccelerationRotationMultiplier := 1 / 10;
     MaxBodyRotation := FRotator.Make 45 0 45;
     SolverType := ADVANCED;
     RadiusCheckMultiplier := 15 / 10; DistanceCheckMultiplier := 12 / 10;
     TraceLength := 350; TraceZOffset := 50;
     SpeedCurve := fun t => t; HeightCurve := fun t => 4 * t * (1 - t);
     OwnerHalfHeight := 50 |}.

Definition ExampleLeg : FSimpleProceduralWalk_Leg :=
  {| ParentBone := "thigh"%string; TipBone := "foot"%string; Offset := FVector.Zero |}.

(** One leg in one group; two legs in two groups of one. *)
Definition OneLeg : Config :=
  ConstructorConfig [ExampleLeg] [ {| LegIndices := [0%nat] |} ].
Definition TwoGroups : Config :=
  ConstructorConfig [ExampleLeg; ExampleLeg]
    [ {| LegIndices := [0%nat] |}; {| LegIndices := [1%nat] |} ].

(** A pawn at rest, axis-aligned, standing at the world origin: every
    socket is at [socket], the ray answers [ray] and the swept sphere
    [sphere], whatever the segment. *)
Definition StillWorld (socket : FVector.t) (ray : option FHitResult)
    (sphere : list FHitResult) : World :=
  {| GetVelocity := FVector.Zero;
     GetActorForwardVector := FVector.Make 1 0 0;
     GetActorRightVector := FVector.Make 0 1 0;
     GetActorUpVector := FVector.Make 0 0 1;
     GetActorRotation := FRotator.Zero;
     GetActorTransform := FTransform_Identity;
     HasMovementBase := true;
     GetSocketLocation := fun _ => socket;
     GetSocketRelLocation := fun _ => socket;
     LineTraceSingle := fun _ _ => ray;
     SphereTraceMulti := fun _ _ _ => sphere;
     IsValidComponent := fun _ => true;
     GetComponentTransform := fun _ => FTransform_Identity;
     FootRotationFromNormal := fun _ => FRotator.Zero;
     RInterpTo := fun _ Target _ _ => Target;
     VInterpTo := fun _ Target _ _ => Target;
     ClampAngle := fun a lo hi => FMath.Clamp a lo hi;
     WorldDeltaSeconds := 1 / 60 |}.

(** A hit on level ground at [p]. *)
Definition GroundHit (p : FVector.t) : FHitResult :=
  {| bBlockingHit := true; ImpactPoint := p;
     ImpactNormal := FVector.Make 0 0 1; GetComponent := None |}.

(** A leg of rest length [len] in group [g], foot at [location], target at
    [target], resting position [rest] in actor space. *)
Definition ExampleLegData (len : R) (g : nat) (rest target location : FVector.t) : FLegData :=
  {| Length := len; TipBoneOriginalRelLocation := rest;
     FootTarget := target; FootLocation := location;
     FootUnplantLocation := location; FootTargetRotation := FRotator.Zero;
     GroupIndex := g; bIsForward := true; bIsBackwards := true;
     bIsRight := true; bIsLeft := true; bEnableIK := true;
     LastHit := FHitResult_Init; SupportComp := None;
     RelLocationToSupportComp := FVector.Zero;
     SupportCompPreviousTransform := FTransform_Identity;
     SupportCompDelta := FVector.Zero |}.

Definition StillMotion : Motion :=
  {| Speed := 0; ForwardPercent := 0; RightPercent := 0; YawDelta := 0;
     PreviousRotation := FRotator.Zero; CurrentStepLength := 0;
     CurrentStepDuration := 15 / 100; ForwardAcceleration := 0; RightAcceleration := 0;
     PreviousSpeed := 0; PreviousForwardPercent := 0; PreviousRightPercent := 0 |}.

(** An initialised node on the ground. *)
Definition ExampleNode (legs : list FLegData) (groups : list FGroupData) (current : nat) : Node :=
  {| SkippedFrames := 3; bIsInitialized := true; bIsFalling := false;
     LegsData := legs; GroupsData := groups; CurrentGroupIndex := current;
     motion := StillMotion;
     body := {| ReduceSlopeMultiplierPitch := 1; ReduceSlopeMultiplierRoll := 1;
                CurrentBodyRelRotation := FRotator.Zero;
                CurrentBodyRelLocation := FVector.Zero |} |}.

(** A single leg in mid swing, past the freeze threshold, its target at
    (10, 0, 0), its foot on the way there. *)
Definition SwingingNode : Node :=
  ExampleNode
    [ExampleLegData 50 0 FVector.Zero (FVector.Make 10 0 0) (FVector.Make 5 0 4)]
    [ {| bIsUnplanted := true; StepPercent := 3 / 4 |} ] 0.

(** A single planted leg of rest length 20, at its target. *)
Definition PlantedNode : Node :=
  ExampleNode
    [ExampleLegData 20 0 FVector.Zero FVector.Zero FVector.Zero]
    [ {| bIsUnplanted := false; StepPercent := 0 |} ] 0.

(** [LegsOnly s s']: [s'] differs from [s] in [LegsData] at most. *)
Definition LegsOnly (s s' : Node) : Prop := s' = with_LegsData s (LegsData s').

(** [LegsKeep R s s']: only the legs change, each leg into one related to it
    by [R]. *)
Definition LegsKeep (Rel : FLegData -> FLegData -> Prop) (s s' : Node) : Prop :=
  LegsOnly s s' /\ Forall2 Rel (LegsData s) (LegsData s').

(** [SameFor i s1 s2]: the two states differ at most in legs other than [i]. *)
Definition SameFor (i : nat) (s1 s2 : Node) : Prop :=
  with_LegsData s2 [] = with_LegsData s1 [] /\ LegsData s2 !! i = LegsData s1 !! i.

Definition NoGround : World := StillWorld (FVector.Make 0 0 40) None [].

Definition LevelGround : World :=
  StillWorld (FVector.Make 0 0 40) (Some (GroundHit (FVector.Make 3 0 0))) [].

(** Scenario 4: level ground 40 below the anchor of a leg whose rest length
    is 20, and nothing for the swept sphere to find. *)
Definition DistantGround : World :=
  StillWorld (FVector.Make 0 0 40) (Some (GroundHit FVector.Zero)) [].

(** No ground under the anchor, a ledge to the side and below: the ledge
    is farther from the anchor than the world origin is. *)
Definition LedgeOnly : World :=
  StillWorld (FVector.Make 0 0 50) None [GroundHit (FVector.Make 20 0 (-60))].

(** The test that lets the current group unplant: it is planted, one of
    its feet is far enough, and the previous group does not hold it back. *)
Definition Unplants (cfg : Config) (s : Node) : bool :=
  negb (bIsUnplanted (GroupsData s !!! CurrentGroupIndex s))
  && existsb (IsFootFarEnough cfg s) (LegIndices (LegGroups cfg !!! CurrentGroupIndex s))
  && negb (bIsUnplanted (GroupsData s !!! PreviousGroupIndex cfg s)
           && bool_decide (StepPercent (GroupsData s !!! PreviousGroupIndex cfg s)
                           < StepSequencePercent cfg)).

(** What [ComputeFeet] does to the data of one group on the ground. *)
Definition AdvanceStep (dt dur : R) (g : FGroupData) : FGroupData :=
  if bIsUnplanted g
  then {| bIsUnplanted := bIsUnplanted g;
          StepPercent := Float.Clamp (Float.add (StepPercent g) (Float.div dt dur)) 0 1 |}
  else g.

(** What [SetGroupsPlanted] does to the data of one group. *)
Definition PlantStep (g : FGroupData) : FGroupData :=
  if bIsUnplanted g && bool_decide (StepPercent g = 1)
  then {| bIsUnplanted := false; StepPercent := StepPercent g |}
  else g.

(** [LegsRel R s s']: the legs of [s'] are those of [s], each changed into
    one related to it by [R]. *)
Definition LegsRel (Rel : FLegData -> FLegData -> Prop) (s s' : Node) : Prop :=
  Forall2 Rel (LegsData s) (LegsData s').

(** The leg with its support recaptured at its foot location. *)
Definition Recaptured (w : World) (d : FLegData) : FLegData :=
  SupportComponentData w (FootLocation d) d.

Definition MaybeRecaptured (w : World) (d d' : FLegData) : Prop :=
  d' = d \/ d' = Recaptured w d.

(** What the probe of a tick leaves of a leg: where it rests, where it is
    and where it unplanted from. *)
Definition KeepsLocations (d d' : FLegData) : Prop :=
  TipBoneOriginalRelLocation d' = TipBoneOriginalRelLocation d
  /\ FootLocation d' = FootLocation d
  /\ FootUnplantLocation d' = FootUnplantLocation d.

(** The leg after the reset loop. *)
Definition ResetLeg (w : World) (d : FLegData) : FLegData :=
  with_FootUnplantLocation
    (with_FootLocation d (TransformPosition (GetActorTransform w) (TipBoneOriginalRelLocation d)))
    (TransformPosition (GetActorTransform w) (TipBoneOriginalRelLocation d)).

(** Two legs on level ground under a pawn at rest. *)
Definition LevelGroundTwo : World :=
  StillWorld (FVector.Make 0 0 40) (Some (GroundHit FVector.Zero)) [].

(** Group 0 half way through its swing, group 1 planted and next to check;
    the foot of group 1 is 10 away from its target. *)
Definition MidStride : Node :=
  ExampleNode
    [ExampleLegData 50 0 FVector.Zero FVector.Zero FVector.Zero;
     ExampleLegData 50 1 FVector.Zero (FVector.Make 10 0 0) FVector.Zero]
    [ {| bIsUnplanted := true; StepPercent := 1 / 2 |};
      {| bIsUnplanted := false; StepPercent := 1 |} ] 1.

(** Both groups planted, group 0 next to check, its foot 10 away from its
    target. *)
Definition Standing : Node :=
  ExampleNode
    [ExampleLegData 50 0 FVector.Zero (FVector.Make 10 0 0) FVector.Zero;
     ExampleLegData 50 1 FVector.Zero FVector.Zero FVector.Zero]
    [ {| bIsUnplanted := false; StepPercent := 0 |};
      {| bIsUnplanted := false; StepPercent := 0 |} ] 0.

(** Group 0 at the end of its swing. *)
Definition EndOfSwing : Node :=
  ExampleNode
    [ExampleLegData 50 0 FVector.Zero FVector.Zero FVector.Zero;
     ExampleLegData 50 1 FVector.Zero FVector.Zero FVector.Zero]
    [ {| bIsUnplanted := true; StepPercent := 1 |};
      {| bIsUnplanted := false; StepPercent := 1 |} ] 1.

(** [Shape s s']: [s'] has the arrays of [s] in size, and everything else
    of [s] unchanged. *)
Definition Shape (s s' : Node) : Prop :=
  with_GroupsData (with_LegsData s' []) [] = with_GroupsData (with_LegsData s []) []
  /\ length (LegsData s') = length (LegsData s)
  /\ length (GroupsData s') = length (GroupsData s).

(** The leg with its foot put on its target, as a falling tick leaves it. *)
Definition SnappedLeg (d : FLegData) : FLegData := with_FootLocation d (FootTarget d).

(** The legs the loops over the groups visit, in order. *)
Definition GroupedLegs (cfg : Config) (n : nat) : list nat :=
  concat (map (fun g => LegIndices (LegGroups cfg !!! g)) (seq 0 n)).

(** The node of [MidStride], falling. *)
Definition FallingNode : Node := with_bIsFalling MidStride true.

(** The world seen by a pawn that has lost its movement base. *)
Definition NoMovementBase (w : World) : World :=
  {| GetVelocity := GetVelocity w;
     GetActorForwardVector := GetActorForwardVector w;
     GetActorRightVector := GetActorRightVector w;
     GetActorUpVector := GetActorUpVector w;
     GetActorRotation := GetActorRotation w;
     GetActorTransform := GetActorTransform w;
     HasMovementBase := false;
     GetSocketLocation := GetSocketLocation w;
     GetSocketRelLocation := GetSocketRelLocation w;
     LineTraceSingle := LineTraceSingle w;
     SphereTraceMulti := SphereTraceMulti w;
     IsValidComponent := IsValidComponent w;
     GetComponentTransform := GetComponentTransform w;
     FootRotationFromNormal := FootRotationFromNormal w;
     RInterpTo := RInterpTo w;
     VInterpTo := VInterpTo w;
     ClampAngle := ClampAngle w;
     WorldDeltaSeconds := WorldDeltaSeconds w |}.

(** A pawn drifting at half the threshold speed. *)
Definition Drifting : World :=
  {| GetVelocity := FVector.Make 1 0 0;
     GetActorForwardVector := FVector.Make 1 0 0;
     GetActorRightVector := FVector.Make 0 1 0;
     GetActorUpVector := FVector.Make 0 0 1;
     GetActorRotation := FRotator.Zero;
     GetActorTransform := FTransform_Identity;
     HasMovementBase := true;
     GetSocketLocation := fun _ => FVector.Make 0 0 40;
     GetSocketRelLocation := fun _ => FVector.Make 0 0 40;
     LineTraceSingle := fun _ _ => Some (GroundHit FVector.Zero);
     SphereTraceMulti := fun _ _ _ => [];
     IsValidComponent := fun _ => true;
     GetComponentTransform := fun _ => FTransform_Identity;
     FootRotationFromNormal := fun _ => FRotator.Zero;
     RInterpTo := fun _ Target _ _ => Target;
     VInterpTo := fun _ Target _ _ => Target;
     ClampAngle := fun a lo hi => FMath.Clamp a lo hi;
     WorldDeltaSeconds := 1 / 60 |}.

(** A leg standing on a platform (component 7) that has moved by (5, 0, 0)
    since it was last sampled. *)
Definition MovingPlatform : World :=
  {| GetVelocity := FVector.Zero;
     GetActorForwardVector := FVector.Make 1 0 0;
     GetActorRightVector := FVector.Make 0 1 0;
     GetActorUpVector := FVector.Make 0 0 1;
     GetActorRotation := FRotator.Zero;
     GetActorTransform := FTransform_Identity;
     HasMovementBase := true;
     GetSocketLocation := fun _ => FVector.Make 0 0 40;
     GetSocketRelLocation := fun _ => FVector.Make 0 0 40;
     LineTraceSingle := fun _ _ => Some (GroundHit FVector.Zero);
     SphereTraceMulti := fun _ _ _ => [];
     IsValidComponent := fun _ => true;
     GetComponentTransform := fun _ =>
       {| TransformPosition := fun v => (v + FVector.Make 5 0 0)%V;
          InverseTransformPosition := fun v => (v - FVector.Make 5 0 0)%V |};
     FootRotationFromNormal := fun _ => FRotator.Zero;
     RInterpTo := fun _ Target _ _ => Target;
     VInterpTo := fun _ Target _ _ => Target;
     ClampAngle := fun a lo hi => FMath.Clamp a lo hi;
     WorldDeltaSeconds := 1 / 60 |}.

Definition OnPlatform : Node :=
  ExampleNode
    [ {| Length := 50; TipBoneOriginalRelLocation := FVector.Zero;
         FootTarget := FVector.Zero; FootLocation := FVector.Zero;
         FootUnplantLocation := FVector.Zero; FootTargetRotation := FRotator.Zero;
         GroupIndex := 0; bIsForward := true; bIsBackwards := true;
         bIsRight := true; bIsLeft := true; bEnableIK := true;
         LastHit := FHitResult_Init; SupportComp := Some 7%nat;
         RelLocationToSupportComp := FVector.Zero;
         SupportCompPreviousTransform := FTransform_Identity;
         SupportCompDelta := FVector.Zero |} ]
    [ {| bIsUnplanted := false; StepPercent := 0 |} ] 0.

(** The score of a candidate of the sphere trace. *)
Definition FootHoldScore (w : World) (Anchor : FVector.t) (h : FHitResult) : R :=
  FVector.Size (FVector.mul (Anchor - ImpactPoint h)%V (GetActorUpVector w))
  * (1 - FVector.DotProduct (ImpactNormal h) (GetActorUpVector w)).

(** Two ledges under the anchor, the nearer one level, the other a wall. *)
Definition TwoLedges : list FHitResult :=
  [ {| bBlockingHit := true; ImpactPoint := FVector.Make 0 0 10;
       ImpactNormal := FVector.Make 1 0 0; GetComponent := None |};
    GroundHit (FVector.Make 0 0 0) ].

(** What no tick changes of a leg once it is initialised: its rest length,
    its resting position, its group and its classification. *)
Definition KeepsStatic (d d' : FLegData) : Prop :=
  Length d' = Length d
  /\ TipBoneOriginalRelLocation d' = TipBoneOriginalRelLocation d
  /\ GroupIndex d' = GroupIndex d
  /\ bIsForward d' = bIsForward d /\ bIsBackwards d' = bIsBackwards d
  /\ bIsRight d' = bIsRight d /\ bIsLeft d' = bIsLeft d.

(** What [UnplantLeg] makes of a leg: the foot location becomes the location
    the swing starts from, and the support is recaptured there. *)
Definition UnplantedLeg (w : World) (d : FLegData) : FLegData :=
  SupportComponentData w (FootLocation d) (with_FootUnplantLocation d (FootLocation d)).

(** The loop over the legs of a group in [Initialize_Computations] when
    every index is in range. *)
Definition LabelGroup (cfg : Config) (GroupIndex : nat) (s : Node) : Node :=
  for_each (LegIndices (LegGroups cfg !!! GroupIndex))
    (fun LegIndex => alter_leg (fun d => with_GroupIndex d GroupIndex) LegIndex) s.

(** The same leg but for its group index. *)
Definition SameButGroupIndex (d d' : FLegData) : Prop :=
  with_GroupIndex d' 0 = with_GroupIndex d 0.

(** What the resolution of the targets may change of a leg: its target, the
    rotation asked of its foot, whether its IK is enabled and its last hit;
    everything else is kept. *)
Definition RetargetedOnly (d d' : FLegData) : Prop :=
  Length d' = Length d
  /\ TipBoneOriginalRelLocation d' = TipBoneOriginalRelLocation d
  /\ FootLocation d' = FootLocation d
  /\ FootUnplantLocation d' = FootUnplantLocation d
  /\ GroupIndex d' = GroupIndex d
  /\ bIsForward d' = bIsForward d /\ bIsBackwards d' = bIsBackwards d
  /\ bIsRight d' = bIsRight d /\ bIsLeft d' = bIsLeft d
  /\ SupportComp d' = SupportComp d
  /\ RelLocationToSupportComp d' = RelLocationToSupportComp d
  /\ SupportCompPreviousTransform d' = SupportCompPreviousTransform d
  /\ SupportCompDelta d' = SupportCompDelta d.

(** Three legs in three groups of one.  Group 0 is planted and next to
    check, its foot 10 away from its target; group 1 is planted; group 2,
    the one before group 0 in cyclic order, is half way through its swing. *)
Definition ThreeGroups : Config :=
  ConstructorConfig [ExampleLeg; ExampleLeg; ExampleLeg]
    [ {| LegIndices := [0%nat] |}; {| LegIndices := [1%nat] |}; {| LegIndices := [2%nat] |} ].

Definition WrapAround : Node :=
  ExampleNode
    [ExampleLegData 50 0 FVector.Zero (FVector.Make 10 0 0) FVector.Zero;
     ExampleLegData 50 1 FVector.Zero FVector.Zero FVector.Zero;
     ExampleLegData 50 2 FVector.Zero FVector.Zero FVector.Zero]
    [ {| bIsUnplanted := false; StepPercent := 0 |};
      {| bIsUnplanted := false; StepPercent := 0 |};
      {| bIsUnplanted := true; StepPercent := 1 / 2 |} ] 0.

(** A pawn that turns in place over level ground: no velocity, and a yaw
    10 degrees away from the rotation of the previous tick. *)
Definition TurningInPlace : World :=
  {| GetVelocity := FVector.Zero;
     GetActorForwardVector := FVector.Make 1 0 0;
     GetActorRightVector := FVector.Make 0 1 0;
     GetActorUpVector := FVector.Make 0 0 1;
     GetActorRotation := FRotator.Make 0 10 0;
     GetActorTransform := FTransform_Identity;
     HasMovementBase := true;
     GetSocketLocation := fun _ => FVector.Make 0 0 40;
     GetSocketRelLocation := fun _ => FVector.Make 0 0 40;
     LineTraceSingle := fun _ _ => Some (GroundHit FVector.Zero);
     SphereTraceMulti := fun _ _ _ => [];
     IsValidComponent := fun _ => true;
     GetComponentTransform := fun _ => FTransform_Identity;
     FootRotationFromNormal := fun _ => FRotator.Zero;
     RInterpTo := fun _ Target _ _ => Target;
     VInterpTo := fun _ Target _ _ => Target;
     ClampAngle := fun a lo hi => FMath.Clamp a lo hi;
     WorldDeltaSeconds := 1 / 60 |}.

(** A single leg at the end of its swing, its foot at (10, 0, 0) on the
    platform (component 7) its last probe hit. *)
Definition LandingOnPlatform : Node :=
  ExampleNode
    [ {| Length := 50; TipBoneOriginalRelLocation := FVector.Zero;
         FootTarget := FVector.Make 10 0 0; FootLocation := FVector.Make 10 0 0;
         FootUnplantLocation := FVector.Zero; FootTargetRotation := FRotator.Zero;
         GroupIndex := 0; bIsForward := true; bIsBackwards := true;
         bIsRight := true; bIsLeft := true; bEnableIK := true;
         LastHit := {| bBlockingHit := true; ImpactPoint := FVector.Make 10 0 0;
                       ImpactNormal := FVector.Make 0 0 1; GetComponent := Some 7%nat |};
         SupportComp := None;
         RelLocationToSupportComp := FVector.Zero;
         SupportCompPreviousTransform := FTransform_Identity;
         SupportCompDelta := FVector.Zero |} ]
    [ {| bIsUnplanted := true; StepPercent := 1 |} ] 0.

(** * Properties *)

(** ** Arithmetic of the engine routines *)

Lemma Clamp_range (x lo hi : R) : lo <= hi -> lo <= FMath.Clamp x lo hi <= hi.
Proof.
  intros Hle. unfold FMath.Clamp.
  destruct (decide (x < lo)) as [Hlo|Hlo]; [lra|].
  destruct (decide (x < hi)) as [Hhi|Hhi]; lra.
Qed.

Lemma Clamp_inside (x lo hi : R) : lo <= x <= hi -> FMath.Clamp x lo hi = x.
Proof.
  intros [H1 H2]. unfold FMath.Clamp.
  destruct (decide (x < lo)) as [Hlo|Hlo]; [lra|].
  destruct (decide (x < hi)) as [Hhi|Hhi]; lra.
Qed.

(** The clamp saturates: from the upper bound on, the result is the bound
    itself. *)
Lemma Clamp_saturates (x lo hi : R) : lo <= hi -> hi <= x -> FMath.Clamp x lo hi = hi.
Proof.
  intros Hle Hx. unfold FMath.Clamp.
  destruct (decide (x < lo)) as [Hlo|Hlo]; [lra|].
  destruct (decide (x < hi)) as [Hhi|Hhi]; lra.
Qed.

Lemma Clamp_advance (x d : R) : 0 <= x <= 1 -> 0 <= d -> x <= FMath.Clamp (x + d) 0 1.
Proof.
  intros [H0 H1] Hd. unfold FMath.Clamp.
  destruct (decide (x + d < 0)) as [Hlo|Hlo]; [lra|].
  destruct (decide (x + d < 1)) as [Hhi|Hhi]; lra.
Qed.

Lemma Rdiv_nonneg (a b : R) : 0 <= a -> 0 < b -> 0 <= a / b.
Proof.
  intros Ha Hb. unfold Rdiv. apply Rmult_le_pos; [exact Ha|].
  left. now apply Rinv_0_lt_compat.
Qed.

(** The step advance [Clamp(p + dt / dur, 0, 1)]: with a divisor that is
    not zero it is the clamp of the real quotient; with a zero divisor and
    an elapsed time that is not negative the quotient is infinite or NaN,
    and the clamp returns its upper bound. *)
Lemma StepAdvance_finite (p dt dur : R) :
  dur <> 0 ->
  Float.Clamp (Float.add p (Float.div dt dur)) 0 1 = FMath.Clamp (p + dt / dur) 0 1.
Proof. intros H. unfold Float.div. now rewrite decide_False by exact H. Qed.

Lemma StepAdvance_zero (p dt : R) :
  0 <= dt -> Float.Clamp (Float.add p (Float.div dt 0)) 0 1 = 1.
Proof.
  intros H. unfold Float.div. rewrite decide_True by reflexivity.
  destruct (decide (0 < dt)); [reflexivity|].
  destruct (decide (dt < 0)); [lra|reflexivity].
Qed.

Lemma StepAdvance_range (x : FloatValue) : 0 <= Float.Clamp x 0 1 <= 1.
Proof. destruct x; simpl; try lra. apply Clamp_range. lra. Qed.

Lemma StepAdvance_mono (p dt dur : R) :
  0 <= p <= 1 -> 0 <= dt -> 0 <= dur ->
  p <= Float.Clamp (Float.add p (Float.div dt dur)) 0 1.
Proof.
  intros Hp Hdt Hdur. destruct (decide (dur = 0)) as [->|Hne].
  - rewrite StepAdvance_zero by exact Hdt. lra.
  - rewrite StepAdvance_finite by exact Hne.
    apply Clamp_advance; [exact Hp|]. apply Rdiv_nonneg; lra.
Qed.

(** ** What a step leaves alone *)

Lemma LegsOnly_refl (s : Node) : LegsOnly s s.
Proof. unfold LegsOnly. now destruct s. Qed.

Lemma LegsOnly_trans (s1 s2 s3 : Node) : LegsOnly s1 s2 -> LegsOnly s2 s3 -> LegsOnly s1 s3.
Proof. unfold LegsOnly. intros H12 H23. rewrite H23, H12. reflexivity. Qed.

Lemma LegsOnly_alter_leg (f : FLegData -> FLegData) (i : nat) (s : Node) :
  LegsOnly s (alter_leg f i s).
Proof. reflexivity. Qed.

Lemma LegsOnly_GroupsData (s s' : Node) : LegsOnly s s' -> GroupsData s' = GroupsData s.
Proof. intros H. rewrite H. reflexivity. Qed.

Lemma LegsOnly_CurrentGroupIndex (s s' : Node) :
  LegsOnly s s' -> CurrentGroupIndex s' = CurrentGroupIndex s.
Proof. intros H. rewrite H. reflexivity. Qed.

Lemma LegsOnly_motion (s s' : Node) : LegsOnly s s' -> motion s' = motion s.
Proof. intros H. rewrite H. reflexivity. Qed.

Lemma LegsOnly_body (s s' : Node) : LegsOnly s s' -> body s' = body s.
Proof. intros H. rewrite H. reflexivity. Qed.

Lemma LegsOnly_bIsFalling (s s' : Node) : LegsOnly s s' -> bIsFalling s' = bIsFalling s.
Proof. intros H. rewrite H. reflexivity. Qed.

(** Loops: a relation that every iteration respects is respected by the
    loop. *)
Lemma for_each_rel (Rel : Node -> Node -> Prop) (body : nat -> Node -> Node) :
  (forall s, Rel s s) ->
  (forall s1 s2 s3, Rel s1 s2 -> Rel s2 s3 -> Rel s1 s3) ->
  (forall i s, Rel s (body i s)) ->
  forall l s, Rel s (for_each l body s).
Proof.
  intros Hrefl Htrans Hbody l. unfold for_each.
  induction l as [|i l IH]; intros s; simpl.
  - apply Hrefl.
  - eapply Htrans; [apply (Hbody i)|apply IH].
Qed.

Lemma for_index_rel (Rel : Node -> Node -> Prop) (body : nat -> Node -> Node) :
  (forall s, Rel s s) ->
  (forall s1 s2 s3, Rel s1 s2 -> Rel s2 s3 -> Rel s1 s3) ->
  (forall i s, Rel s (body i s)) ->
  forall n s, Rel s (for_index n body s).
Proof. intros Hrefl Htrans Hbody n s. now apply (for_each_rel Rel body). Qed.

Lemma for_each_inv (P : Node -> Prop) (body : nat -> Node -> Node) :
  (forall i s, P s -> P (body i s)) ->
  forall l s, P s -> P (for_each l body s).
Proof.
  intros Hbody l. unfold for_each.
  induction l as [|i l IH]; intros s Hs; simpl; [exact Hs|].
  apply IH, Hbody, Hs.
Qed.

Lemma for_index_S (n : nat) (body : nat -> Node -> Node) (s : Node) :
  for_index (S n) body s = body n (for_index n body s).
Proof. unfold for_index. rewrite seq_S, fold_left_app. reflexivity. Qed.

Lemma LegsKeep_refl (Rel : FLegData -> FLegData -> Prop) :
  (forall d, Rel d d) -> forall s, LegsKeep Rel s s.
Proof.
  intros Hrefl s. split; [apply LegsOnly_refl|].
  apply Forall2_same_length_lookup_2; [reflexivity|].
  intros i x y Hx Hy. rewrite Hx in Hy. injection Hy as <-. apply Hrefl.
Qed.

Lemma LegsKeep_trans (Rel : FLegData -> FLegData -> Prop) :
  (forall a b c, Rel a b -> Rel b c -> Rel a c) ->
  forall s1 s2 s3, LegsKeep Rel s1 s2 -> LegsKeep Rel s2 s3 -> LegsKeep Rel s1 s3.
Proof.
  intros Htrans s1 s2 s3 [Ho12 Hf12] [Ho23 Hf23]. split.
  - eapply LegsOnly_trans; eassumption.
  - eapply Forall2_trans; [|eassumption|eassumption].
    intros a b c. apply Htrans.
Qed.

Lemma LegsKeep_alter_leg (Rel : FLegData -> FLegData -> Prop) (f : FLegData -> FLegData)
    (i : nat) (s : Node) :
  (forall d, Rel d d) -> (forall d, LegsData s !! i = Some d -> Rel d (f d)) ->
  LegsKeep Rel s (alter_leg f i s).
Proof.
  intros Hrefl Hf. split; [apply LegsOnly_alter_leg|].
  simpl. apply Forall2_same_length_lookup_2.
  - now rewrite length_alter.
  - intros j x y Hx Hy.
    destruct (decide (i = j)) as [->|Hne].
    + rewrite list_lookup_alter_eq, Hx in Hy. simpl in Hy. injection Hy as <-.
      now apply Hf.
    + rewrite list_lookup_alter_ne, Hx in Hy by exact Hne. injection Hy as <-.
      apply Hrefl.
Qed.

Lemma LegsKeep_length (Rel : FLegData -> FLegData -> Prop) (s s' : Node) :
  LegsKeep Rel s s' -> length (LegsData s') = length (LegsData s).
Proof. intros [_ H]. symmetry. eapply Forall2_length, H. Qed.

Lemma LegsKeep_lookup (Rel : FLegData -> FLegData -> Prop) (s s' : Node) (i : nat) :
  (forall d, Rel d d) -> LegsKeep Rel s s' -> Rel (LegsData s !!! i) (LegsData s' !!! i).
Proof.
  intros Hrefl [_ H].
  destruct (LegsData s !! i) as [d|] eqn:Hd.
  - destruct (Forall2_lookup_l _ _ _ _ _ H Hd) as (d' & Hd' & HR).
    rewrite (list_lookup_total_correct _ _ _ Hd), (list_lookup_total_correct _ _ _ Hd').
    exact HR.
  - assert (Hn : LegsData s' !! i = None).
    { apply lookup_ge_None. apply lookup_ge_None in Hd.
      rewrite <- (Forall2_length _ _ _ H). exact Hd. }
    rewrite !list_lookup_total_alt, Hd, Hn. apply Hrefl.
Qed.

Lemma PI_bounds : 314159 / 100000 < PI < 31416 / 10000.
Proof.
  pose proof (PI_2_3_7_ineq 2) as [Hlo Hhi].
  unfold sum_f_R0, tg_alt, PI_2_3_7_tg, Ratan_seq in Hlo, Hhi.
  simpl in Hlo, Hhi.
  split; lra.
Qed.

Lemma MapRangeClamped_unit (v a : R) :
  0 <= v <= 1 -> UKismetMathLibrary.MapRangeClamped v 0 1 a 1 = a + v * (1 - a).
Proof.
  intros Hv.
  unfold UKismetMathLibrary.MapRangeClamped, FMath.GetMappedRangeValueClamped,
    FMath.GetRangePct, FMath.IsNearlyZero, FMath.Lerp.
  rewrite bool_decide_eq_false_2.
  2:{ rewrite Rabs_pos_eq by lra. lra. }
  replace ((v - 0) / (1 - 0)) with v by field.
  now rewrite Clamp_inside.
Qed.

Lemma ReduceSlopeMultiplierOf_eq (ssrm a : R) :
  ReduceSlopeMultiplierOf ssrm a
  = 1 - ssrm + Rabs (cos (FMath.RadiansToDegrees a)) * ssrm.
Proof.
  unfold ReduceSlopeMultiplierOf. rewrite MapRangeClamped_unit.
  - ring.
  - split; [apply Rabs_pos|].
    apply Rabs_le. pose proof (COS_bound (FMath.RadiansToDegrees a)). lra.
Qed.

Lemma ReduceSlopeMultiplierOf_range (ssrm a : R) :
  0 <= ssrm -> 1 - ssrm <= ReduceSlopeMultiplierOf ssrm a <= 1.
Proof.
  intros Hs. rewrite ReduceSlopeMultiplierOf_eq.
  assert (H : 0 <= Rabs (cos (FMath.RadiansToDegrees a)) <= 1).
  { split; [apply Rabs_pos|].
    apply Rabs_le. pose proof (COS_bound (FMath.RadiansToDegrees a)). lra. }
  nra.
Qed.

Lemma ReduceSlopeMultiplierOf_level (ssrm : R) : ReduceSlopeMultiplierOf ssrm 0 = 1.
Proof.
  rewrite ReduceSlopeMultiplierOf_eq. unfold FMath.RadiansToDegrees.
  rewrite Rmult_0_l, cos_0, Rabs_R1. ring.
Qed.

(** cos of an angle that is [k] half-turns plus a remainder *)
Lemma cos_shift_odd (y : R) (k : nat) : cos (y + (2 * INR k + 1) * PI) = - cos y.
Proof.
  replace (y + (2 * INR k + 1) * PI) with ((y + PI) + 2 * INR k * PI) by ring.
  rewrite cos_period. apply neg_cos.
Qed.

Lemma cos_at_90 : exists y, - (PI / 2) < y < PI / 2 /\ Rabs (cos (FMath.RadiansToDegrees 90)) = cos y.
Proof.
  pose proof PI_bounds as [Hlo Hhi].
  assert (Hpi : 0 < PI) by lra.
  exists (FMath.RadiansToDegrees 90 - (2 * INR 820 + 1) * PI).
  assert (Hx : FMath.RadiansToDegrees 90 * PI = 16200).
  { unfold FMath.RadiansToDegrees. field. lra. }
  assert (HI : INR 820 = 820) by (rewrite INR_IZR_INZ; simpl; reflexivity).
  split.
  - rewrite HI. nra.
  - set (y := FMath.RadiansToDegrees 90 - (2 * INR 820 + 1) * PI).
    replace (FMath.RadiansToDegrees 90) with (y + (2 * INR 820 + 1) * PI) by (unfold y; ring).
    rewrite cos_shift_odd, Rabs_Ropp.
    apply Rabs_pos_eq. left. apply cos_gt_0; unfold y; rewrite HI; nra.
Qed.

Lemma slope_multiplier_at_90 : ReduceSlopeMultiplierOf (3 / 4) 90 > 1 - 3 / 4.
Proof.
  rewrite ReduceSlopeMultiplierOf_eq.
  destruct cos_at_90 as (y & [Hy1 Hy2] & ->).
  pose proof (cos_gt_0 y Hy1 Hy2). lra.
Qed.

Lemma cos_at_45 :
  exists y, PI / 4 < y < PI / 2 /\ Rabs (cos (FMath.RadiansToDegrees 45)) = cos y.
Proof.
  pose proof PI_bounds as [Hlo Hhi].
  assert (Hpi : 0 < PI) by lra.
  exists ((2 * INR 410 + 1) * PI - FMath.RadiansToDegrees 45).
  assert (Hx : FMath.RadiansToDegrees 45 * PI = 8100).
  { unfold FMath.RadiansToDegrees. field. lra. }
  assert (HI : INR 410 = 410) by (rewrite INR_IZR_INZ; simpl; reflexivity).
  set (y := (2 * INR 410 + 1) * PI - FMath.RadiansToDegrees 45).
  assert (Hy : PI / 4 < y < PI / 2) by (unfold y; rewrite HI; split; nra).
  split; [exact Hy|].
  replace (FMath.RadiansToDegrees 45) with (- y + (2 * INR 410 + 1) * PI) by (unfold y; ring).
  rewrite cos_shift_odd, cos_neg, Rabs_Ropp.
  apply Rabs_pos_eq. left. apply cos_gt_0; lra.
Qed.

Lemma PitchFromFeetLocations_45 cfg :
  bBodyRotateOnFeetLocations cfg = true ->
  PitchFromFeetLocations cfg (FVector.Make 50 0 50) FVector.Zero = 45.
Proof.
  intros H. unfold PitchFromFeetLocations, UKismetMathLibrary.DegAtan. rewrite H. simpl.
  replace ((50 - 0) / (50 - 0)) with 1 by (field; lra).
  rewrite atan_1. field. apply PI_neq0.
Qed.

(** C8.  The slope multiplier follows the cosine of the body angle only at
    0 degrees, where it is 1.  The angle, held in degrees, goes through
    [RadiansToDegrees] before the cosine is taken: at 90 degrees the
    multiplier of the constructor's configuration stays above the configured
    minimum [1 - StepSlopeReductionMultiplier], and for feet that put the
    body at 45 degrees it is below the cosine of 45 degrees mapped into the
    configured range. *)
Theorem slope_multiplier_misses_cosine :
  ReduceSlopeMultiplierOf (3 / 4) 0 = 1
  /\ ReduceSlopeMultiplierOf (3 / 4) 90 > 1 - 3 / 4
  /\ (forall w Right Left s,
        ReduceSlopeMultiplierPitch
          (body (ComputeBodyRotation (ConstructorConfig [] []) w
                   (FVector.Make 50 0 50) FVector.Zero Right Left s))
        < 1 - 3 / 4 + cos (PI / 4) * (3 / 4)).
Proof.
  split; [apply ReduceSlopeMultiplierOf_level|].
  split; [apply slope_multiplier_at_90|].
  intros w Right Left s. unfold ComputeBodyRotation. simpl.
  rewrite (PitchFromFeetLocations_45 (ConstructorConfig [] []) eq_refl).
  rewrite ReduceSlopeMultiplierOf_eq.
  destruct cos_at_45 as (y & [Hy1 Hy2] & ->).
  pose proof PI_bounds as [Hlo Hhi].
  assert (cos y < cos (PI / 4)) by (apply cos_decreasing_1; lra).
  lra.
Qed.

(** ** Foot targets *)

Lemma SameFor_refl (i : nat) (s : Node) : SameFor i s s.
Proof. now split. Qed.

Lemma SameFor_trans (i : nat) (s1 s2 s3 : Node) :
  SameFor i s1 s2 -> SameFor i s2 s3 -> SameFor i s1 s3.
Proof. intros [H1 H2] [H3 H4]. split; congruence. Qed.

Lemma SameFor_alter_leg (f : FLegData -> FLegData) (i j : nat) (s : Node) :
  j <> i -> SameFor i s (alter_leg f j s).
Proof.
  intros Hne. split; [reflexivity|]. simpl. now apply list_lookup_alter_ne.
Qed.

Lemma SameFor_leg (i : nat) (s1 s2 : Node) :
  SameFor i s1 s2 -> LegsData s2 !!! i = LegsData s1 !!! i.
Proof. intros [_ H]. now rewrite !list_lookup_total_alt, H. Qed.

Lemma SameFor_motion (i : nat) (s1 s2 : Node) : SameFor i s1 s2 -> motion s2 = motion s1.
Proof. intros [H _]. exact (f_equal motion H). Qed.

Lemma SameFor_GroupsData (i : nat) (s1 s2 : Node) :
  SameFor i s1 s2 -> GroupsData s2 = GroupsData s1.
Proof. intros [H _]. exact (f_equal GroupsData H). Qed.

Lemma ResolveProbe_SameFor cfg w solver i s1 s2 :
  SameFor i s1 s2 -> ResolveProbe cfg w solver i s2 = ResolveProbe cfg w solver i s1.
Proof.
  intros H.
  unfold ResolveProbe, LineHit, StartLocation, EndLocation, StartLocationWithoutZOffset.
  now rewrite (SameFor_motion _ _ _ H), (SameFor_leg _ _ _ H).
Qed.

Lemma NewFootTarget_SameFor cfg w b h i s1 s2 :
  SameFor i s1 s2 -> NewFootTarget cfg w b h i s2 = NewFootTarget cfg w b h i s1.
Proof.
  intros H. unfold NewFootTarget, IsLegUnplanted, GetLegStepPercent.
  now rewrite (SameFor_GroupsData _ _ _ H), (SameFor_leg _ _ _ H).
Qed.

Lemma TargetFootRotationCS_SameFor w b h i s1 s2 :
  SameFor i s1 s2 -> TargetFootRotationCS w b h i s2 = TargetFootRotationCS w b h i s1.
Proof.
  intros H. unfold TargetFootRotationCS, IsLegUnplanted, GetLegStepPercent.
  now rewrite (SameFor_GroupsData _ _ _ H), (SameFor_leg _ _ _ H).
Qed.

Lemma SetFootTargetLocationWith_SameFor cfg w solver i s1 s2 :
  SameFor i s1 s2 ->
  LegsData (SetFootTargetLocationWith cfg w solver i s2) !! i
  = LegsData (SetFootTargetLocationWith cfg w solver i s1) !! i.
Proof.
  intros H. unfold SetFootTargetLocationWith. simpl.
  rewrite !list_lookup_alter_eq.
  rewrite (ResolveProbe_SameFor _ _ _ _ _ _ H).
  rewrite (NewFootTarget_SameFor _ _ _ _ _ _ _ H).
  rewrite (TargetFootRotationCS_SameFor _ _ _ _ _ _ H).
  destruct H as [_ ->]. reflexivity.
Qed.

Lemma for_each_SameFor (body : nat -> Node -> Node) (i : nat) :
  (forall j s, j <> i -> SameFor i s (body j s)) ->
  forall l s, Forall (fun j => j <> i) l -> SameFor i s (for_each l body s).
Proof.
  intros Hbody l. unfold for_each.
  induction l as [|j l IH]; intros s Hl; simpl; [apply SameFor_refl|].
  inversion Hl as [|? ? Hj Hl']; subst.
  eapply SameFor_trans; [apply (Hbody j), Hj|]. now apply IH.
Qed.

(** In the loop over the legs, leg [i] gets what [SetFootTargetLocation i]
    gives it on the state the loop started from. *)
Lemma SetFeetTargetLocations_leg cfg w s i :
  (i < length (Legs cfg))%nat ->
  LegsData (SetFeetTargetLocations cfg w s) !!! i
  = LegsData (SetFootTargetLocation cfg w i s) !!! i.
Proof.
  intros Hi. unfold SetFeetTargetLocations, for_index.
  replace (length (Legs cfg)) with (i + S (length (Legs cfg) - S i))%nat by lia.
  rewrite seq_app, fold_left_app. simpl.
  set (sa := fold_left _ (seq 0 i) s).
  assert (Ha : SameFor i s sa).
  { apply (for_each_SameFor (SetFootTargetLocation cfg w) i).
    - intros j s0 Hne. now apply SameFor_alter_leg.
    - apply Forall_forall. intros j Hj. apply elem_of_seq in Hj. lia. }
  pose proof (for_each_SameFor (SetFootTargetLocation cfg w) i) as Hb.
  specialize (Hb (fun j s0 Hne => SameFor_alter_leg _ i j s0 Hne)).
  specialize (Hb (seq (S i) (length (Legs cfg) - S i)) (SetFootTargetLocation cfg w i sa)).
  unfold for_each in Hb.
  rewrite (SameFor_leg _ _ _ (Hb ltac:(apply Forall_forall; intros j Hj; apply elem_of_seq in Hj; lia))).
  rewrite !list_lookup_total_alt.
  unfold SetFootTargetLocation.
  now rewrite (SetFootTargetLocationWith_SameFor _ _ _ _ _ _ Ha).
Qed.

(** What [SetFootTargetLocation] leaves in the leg it is called for. *)
Lemma SetFootTargetLocationWith_result cfg w solver i s :
  (i < length (LegsData s))%nat ->
  let d := LegsData s !!! i in
  let r := ResolveProbe cfg w solver i s in
  let d' := LegsData (SetFootTargetLocationWith cfg w solver i s) !!! i in
  FootTarget d' = NewFootTarget cfg w (fst r) (snd r) i s /\
  bEnableIK d' = fst r /\
  LastHit d' = snd r /\
  FootTargetRotation d'
  = RInterpTo w (FootTargetRotation d) (TargetFootRotationCS w (fst r) (snd r) i s)
      (WorldDeltaSeconds w) (FeetTipBonesRotationInterpSpeed cfg).
Proof.
  intros Hi. unfold SetFootTargetLocationWith. simpl.
  rewrite list_lookup_total_alter_eq by exact Hi. simpl. auto.
Qed.

Lemma LineHit_miss cfg w i s :
  fst (LineHit cfg w i s) = false -> LineHit cfg w i s = (false, FHitResult_Init).
Proof. unfold LineHit. now destruct (LineTraceSingle w _ _). Qed.

Lemma FootHoldStep_keeps w Anchor ZD acc h :
  ~ FVector.Size (Anchor - ImpactPoint h)%V < ZD ->
  FootHoldStep w Anchor ZD acc h = acc.
Proof. intros H. unfold FootHoldStep. now rewrite decide_False. Qed.

(** The best foothold is the initial (non-blocking) hit or one of the
    candidates that is strictly closer to the anchor than the line hit. *)
Lemma FootHoldBestHit_spec cfg w Anchor ZD hits :
  let Best := FootHoldBestHit cfg w Anchor ZD hits in
  Best = FHitResult_Init
  \/ (In Best hits /\ FVector.Size (Anchor - ImpactPoint Best)%V < ZD).
Proof.
  unfold FootHoldBestHit.
  set (P := fun h => h = FHitResult_Init
                     \/ (In h hits /\ FVector.Size (Anchor - ImpactPoint h)%V < ZD)).
  assert (H : forall l acc, (forall h, In h l -> In h hits) -> P (snd acc) ->
                            P (snd (fold_left (FootHoldStep w Anchor ZD) l acc))).
  { induction l as [|h l IH]; intros acc Hl Hacc; simpl; [exact Hacc|].
    apply IH; [intros h' Hh'; apply Hl; now right|].
    unfold FootHoldStep.
    destruct (decide (FVector.Size (Anchor - ImpactPoint h)%V < ZD)) as [Hd|Hd]; [|exact Hacc].
    destruct (decide (_ < fst acc)); [|exact Hacc].
    simpl. right. split; [apply Hl; now left|exact Hd]. }
  apply H; [auto|now left].
Qed.

Lemma FootHoldBestHit_rejects cfg w Anchor ZD hits :
  (forall h, In h hits -> ZD <= FVector.Size (Anchor - ImpactPoint h)%V) ->
  FootHoldBestHit cfg w Anchor ZD hits = FHitResult_Init.
Proof.
  intros Hall. destruct (FootHoldBestHit_spec cfg w Anchor ZD hits) as [H|[Hin Hlt]];
    [exact H|].
  specialize (Hall _ Hin). lra.
Qed.

(** BASIC keeps the line trace. *)
Lemma ResolveProbe_BASIC cfg w i s : ResolveProbe cfg w BASIC i s = LineHit cfg w i s.
Proof. reflexivity. Qed.

(** ADVANCED keeps the line trace unless the search is triggered and its
    best foothold is a blocking hit. *)
Lemma ResolveProbe_ADVANCED_keeps cfg w i s :
  let line := LineHit cfg w i s in
  let Anchor := StartLocationWithoutZOffset cfg w i s in
  let ZDistanceToLineHit := FVector.Size (Anchor - ImpactPoint (snd line))%V in
  let Threshold := Length (LegsData s !!! i) * DistanceCheckMultiplier cfg in
  let FootHoldHits :=
    SphereTraceMulti w (StartLocation cfg w i s) (EndLocation cfg w i s) (RadiusCheck cfg) in
  (fst line = true /\ ZDistanceToLineHit <= Threshold)
  \/ bBlockingHit (FootHoldBestHit cfg w Anchor ZDistanceToLineHit FootHoldHits) = false ->
  ResolveProbe cfg w ADVANCED i s = line.
Proof.
  intros line Anchor ZD Threshold Hits H. unfold ResolveProbe.
  fold line. fold Anchor. fold ZD. fold Threshold. fold Hits.
  destruct H as [[Hhit Hnear]|Hnone].
  - rewrite Hhit. rewrite bool_decide_eq_false_2 by lra. reflexivity.
  - rewrite Hnone. destruct (negb (fst line) || _); [|reflexivity].
    now destruct (bool_decide _).
Qed.

(** C5, amended.  In ADVANCED mode a leg whose ray hits within the
    distance threshold, or whose foothold search selects no blocking hit,
    is updated exactly as BASIC mode updates it for the same probe segment.
    After a ray hit its IK is enabled, its last hit is the ray hit, and its
    target is the impact point raised by the leg's vertical offset, unless
    the leg is unplanted at or past [FixFeetTargetsAfterPercent]: there the
    target is the old target moved by the support delta.  After a miss its
    IK is disabled and its target is the resting position. *)
Theorem advanced_agrees_with_basic cfg w i s :
  (i < length (LegsData s))%nat ->
  let Start := StartLocation cfg w i s in
  let End := EndLocation cfg w i s in
  let Anchor := StartLocationWithoutZOffset cfg w i s in
  let d := LegsData s !!! i in
  let Group := GroupsData s !!! GroupIndex d in
  let Threshold := Length d * DistanceCheckMultiplier cfg in
  let FootHoldHits := SphereTraceMulti w Start End (RadiusCheck cfg) in
  let NoFootHold := fun ZDistanceToLineHit : R =>
    bBlockingHit (FootHoldBestHit cfg w Anchor ZDistanceToLineHit FootHoldHits) = false in
  let advanced := SetFootTargetLocationWith cfg w ADVANCED i s in
  let d' := LegsData advanced !!! i in
  (forall Hit, LineTraceSingle w Start End = Some Hit ->
     FVector.Size (Anchor - ImpactPoint Hit)%V <= Threshold
     \/ NoFootHold (FVector.Size (Anchor - ImpactPoint Hit)%V) ->
     advanced = SetFootTargetLocationWith cfg w BASIC i s
     /\ bEnableIK d' = true
     /\ LastHit d' = Hit
     /\ (bIsUnplanted Group = false \/ StepPercent Group < FixFeetTargetsAfterPercent cfg ->
         FootTarget d'
         = (ImpactPoint Hit + FVector.Make 0 0 (FVector.Z (Offset (Legs cfg !!! i))))%V)
     /\ (bIsUnplanted Group = true ->
         StepPercent Group >= FixFeetTargetsAfterPercent cfg ->
         FootTarget d' = (FootTarget d + SupportCompDelta d)%V))
  /\ (LineTraceSingle w Start End = None ->
      NoFootHold (FVector.Size (Anchor - FVector.Zero)%V) ->
      advanced = SetFootTargetLocationWith cfg w BASIC i s
      /\ bEnableIK d' = false
      /\ LastHit d' = FHitResult_Init
      /\ FootTarget d'
         = TransformPosition (GetActorTransform w) (TipBoneOriginalRelLocation d)).
Proof.
  intros Hi Start End Anchor d Group Threshold Hits NoFootHold advanced d'.
  destruct (SetFootTargetLocationWith_result cfg w ADVANCED i s Hi) as (HT & HIK & HL & _).
  fold advanced d' in HT, HIK, HL.
  split.
  - intros Hit Hline Hcond.
    assert (Hl : LineHit cfg w i s = (true, Hit)).
    { unfold LineHit. fold Start End. now rewrite Hline. }
    assert (Hr : ResolveProbe cfg w ADVANCED i s = (true, Hit)).
    { rewrite ResolveProbe_ADVANCED_keeps; [exact Hl|].
      rewrite Hl. simpl. fold Anchor d Threshold Start End Hits.
      destruct Hcond as [Hnear|Hnone]; [left; auto|right; exact Hnone]. }
    split.
    { unfold advanced, SetFootTargetLocationWith. now rewrite Hr, ResolveProbe_BASIC, Hl. }
    rewrite HT, HIK, HL, Hr. simpl.
    split; [reflexivity|]. split; [reflexivity|].
    unfold NewFootTarget, IsLegUnplanted, GetLegStepPercent. fold d Group.
    split.
    + intros [Hpl|Hlt].
      * now rewrite Hpl.
      * destruct (bIsUnplanted Group); [|reflexivity]. now rewrite decide_True.
    + intros Hun Hge. rewrite Hun. now rewrite decide_False by lra.
  - intros Hline Hnone.
    assert (Hl : LineHit cfg w i s = (false, FHitResult_Init)).
    { unfold LineHit. fold Start End. now rewrite Hline. }
    assert (Hr : ResolveProbe cfg w ADVANCED i s = (false, FHitResult_Init)).
    { rewrite ResolveProbe_ADVANCED_keeps; [exact Hl|].
      rewrite Hl. simpl. fold Anchor Start End Hits. right. exact Hnone. }
    split.
    { unfold advanced, SetFootTargetLocationWith. now rewrite Hr, ResolveProbe_BASIC, Hl. }
    rewrite HT, HIK, HL, Hr. simpl. auto.
Qed.

(** What BASIC resolves to: the impact point raised by the leg's vertical
    offset on a hit of a leg that is not in the frozen part of its swing,
    the resting position on a miss. *)
Lemma basic_target cfg w i s :
  (i < length (LegsData s))%nat ->
  let line := LineHit cfg w i s in
  let d := LegsData s !!! i in
  let d' := LegsData (SetFootTargetLocationWith cfg w BASIC i s) !!! i in
  (fst line = true ->
   IsLegUnplanted i s = false
   \/ GetLegStepPercent i s < FixFeetTargetsAfterPercent cfg ->
   FootTarget d'
   = (ImpactPoint (snd line) + FVector.Make 0 0 (FVector.Z (Offset (Legs cfg !!! i))))%V)
  /\ (fst line = false ->
      FootTarget d' = TransformPosition (GetActorTransform w) (TipBoneOriginalRelLocation d)).
Proof.
  intros Hi line d d'.
  destruct (SetFootTargetLocationWith_result cfg w BASIC i s Hi) as (HT & _).
  fold d' in HT. rewrite ResolveProbe_BASIC in HT. fold line in HT.
  split.
  - intros Hhit Hfree. rewrite HT, Hhit. unfold NewFootTarget.
    destruct Hfree as [-> | Hlt]; [reflexivity|].
    destruct (IsLegUnplanted i s); [|reflexivity].
    now rewrite decide_True.
  - intros Hmiss. rewrite HT, Hmiss. reflexivity.
Qed.

Lemma Size_le (v : FVector.t) (r : R) :
  0 <= r -> FVector.SizeSquared v <= r * r -> FVector.Size v <= r.
Proof.
  intros Hr H. unfold FVector.Size. rewrite <- (sqrt_square r Hr).
  now apply sqrt_le_1_alt.
Qed.

Lemma Size_gt (v : FVector.t) (r : R) :
  0 <= r -> r * r < FVector.SizeSquared v -> r < FVector.Size v.
Proof.
  intros Hr H. unfold FVector.Size. rewrite <- (sqrt_square r Hr) at 1.
  apply sqrt_lt_1_alt. split; [nra|exact H].
Qed.

Lemma Size_mono (u v : FVector.t) :
  FVector.SizeSquared u <= FVector.SizeSquared v -> FVector.Size u <= FVector.Size v.
Proof. apply sqrt_le_1_alt. Qed.

(** C6.  On every tick, a leg whose probe resolves to no hit has its IK
    disabled and its foot target set to its original resting position
    transformed by the actor transform; the leg is updated all the same:
    its last hit is stored and its target rotation is interpolated towards
    the neutral rotation. *)
Theorem probe_miss_rests cfg w s i :
  (i < length (Legs cfg))%nat -> (i < length (LegsData s))%nat ->
  fst (ResolveProbe cfg w (SolverType cfg) i s) = false ->
  let d := LegsData s !!! i in
  let d' := LegsData (SetFeetTargetLocations cfg w s) !!! i in
  bEnableIK d' = false
  /\ FootTarget d' = TransformPosition (GetActorTransform w) (TipBoneOriginalRelLocation d)
  /\ LastHit d' = snd (ResolveProbe cfg w (SolverType cfg) i s)
  /\ FootTargetRotation d'
     = RInterpTo w (FootTargetRotation d) FRotator.Zero
         (WorldDeltaSeconds w) (FeetTipBonesRotationInterpSpeed cfg).
Proof.
  intros Hi Hl Hmiss d d'. unfold d'.
  rewrite SetFeetTargetLocations_leg by exact Hi.
  destruct (SetFootTargetLocationWith_result cfg w (SolverType cfg) i s Hl)
    as (HT & HIK & HL & HR).
  unfold SetFootTargetLocation.
  rewrite HT, HIK, HL, HR, Hmiss. unfold NewFootTarget, TargetFootRotationCS. auto.
Qed.

Lemma probe_miss_rests_witness :
  let d' := LegsData (SetFeetTargetLocations OneLeg NoGround PlantedNode) !!! 0%nat in
  bEnableIK d' = false
  /\ FootTarget d' = FVector.Zero
  /\ LastHit d' = FHitResult_Init
  /\ FootTargetRotation d' = FRotator.Zero.
Proof.
  apply (probe_miss_rests OneLeg NoGround PlantedNode 0%nat).
  - simpl. lia.
  - simpl. lia.
  - reflexivity.
Defined.

(** C7, amended.  For a leg that is unplanted with its swing at or past
    [FixFeetTargetsAfterPercent]: when the probe resolves to a hit, the foot
    target changes only by the leg's support delta of the tick; when the
    probe resolves to no hit, the foot target is overwritten by the resting
    position. *)
Theorem frozen_target_keeps_on_hit cfg w s i :
  (i < length (Legs cfg))%nat -> (i < length (LegsData s))%nat ->
  IsLegUnplanted i s = true ->
  GetLegStepPercent i s >= FixFeetTargetsAfterPercent cfg ->
  let d := LegsData s !!! i in
  let d' := LegsData (SetFeetTargetLocations cfg w s) !!! i in
  (fst (ResolveProbe cfg w (SolverType cfg) i s) = true ->
   FootTarget d' = (FootTarget d + SupportCompDelta d)%V)
  /\ (fst (ResolveProbe cfg w (SolverType cfg) i s) = false ->
      FootTarget d' = TransformPosition (GetActorTransform w) (TipBoneOriginalRelLocation d)).
Proof.
  intros Hi Hl Hun Hfix d d'. unfold d'.
  rewrite SetFeetTargetLocations_leg by exact Hi.
  destruct (SetFootTargetLocationWith_result cfg w (SolverType cfg) i s Hl) as (HT & _).
  unfold SetFootTargetLocation. rewrite HT. unfold NewFootTarget.
  split; intros ->.
  - rewrite Hun. rewrite decide_False by lra. reflexivity.
  - reflexivity.
Qed.

Lemma frozen_target_keeps_on_hit_witness :
  FootTarget (LegsData (SetFeetTargetLocations OneLeg LevelGround SwingingNode) !!! 0%nat)
  = (FVector.Make 10 0 0 + FVector.Zero)%V.
Proof.
  refine (proj1 (frozen_target_keeps_on_hit OneLeg LevelGround SwingingNode 0%nat
                   _ _ _ _) _).
  - simpl. lia.
  - simpl. lia.
  - reflexivity.
  - unfold GetLegStepPercent. simpl. lra.
  - unfold ResolveProbe. simpl.
    rewrite bool_decide_eq_false_2; [reflexivity|].
    apply Rle_not_gt, Size_le; [simpl; lra|].
    unfold FVector.SizeSquared. simpl. lra.
Defined.

(** C7 as stated fails: the leg is in the frozen part of its swing, the
    probe misses, and the target is not the old target plus the support
    delta. *)
Lemma frozen_target_overwritten_on_miss :
  IsLegUnplanted 0 SwingingNode = true
  /\ GetLegStepPercent 0 SwingingNode >= FixFeetTargetsAfterPercent OneLeg
  /\ FootTarget (LegsData (SetFeetTargetLocations OneLeg NoGround SwingingNode) !!! 0%nat)
     <> (FootTarget (LegsData SwingingNode !!! 0%nat)
         + SupportCompDelta (LegsData SwingingNode !!! 0%nat))%V.
Proof.
  split; [reflexivity|]. split; [unfold GetLegStepPercent; simpl; lra|].
  intros H. apply (f_equal FVector.X) in H. simpl in H. lra.
Qed.

Lemma advanced_agrees_with_basic_witness :
  SetFootTargetLocationWith OneLeg DistantGround ADVANCED 0 PlantedNode
  = SetFootTargetLocationWith OneLeg DistantGround BASIC 0 PlantedNode
  /\ FootTarget (LegsData (SetFootTargetLocationWith OneLeg DistantGround ADVANCED 0 PlantedNode)
                 !!! 0%nat)
     = (FVector.Zero + FVector.Make 0 0 0)%V.
Proof.
  destruct (advanced_agrees_with_basic OneLeg DistantGround 0%nat PlantedNode) as [Hhit _].
  - simpl. lia.
  - destruct (Hhit (GroundHit FVector.Zero) eq_refl) as (Heq & _ & _ & Htarget & _).
    + right. reflexivity.
    + split; [exact Heq|]. apply Htarget. now left.
Defined.

(** C5 as stated fails for a leg in the frozen part of its swing: the ray
    hits within the distance threshold, and the target ADVANCED resolves
    is not the impact point raised by the vertical offset of the leg. *)
Lemma advanced_target_of_frozen_leg_is_not_the_hit :
  LineTraceSingle LevelGround (StartLocation OneLeg LevelGround 0 SwingingNode)
    (EndLocation OneLeg LevelGround 0 SwingingNode)
  = Some (GroundHit (FVector.Make 3 0 0))
  /\ FVector.Size (StartLocationWithoutZOffset OneLeg LevelGround 0 SwingingNode
                   - FVector.Make 3 0 0)%V
     <= Length (LegsData SwingingNode !!! 0%nat) * DistanceCheckMultiplier OneLeg
  /\ FootTarget (LegsData (SetFootTargetLocationWith OneLeg LevelGround ADVANCED 0 SwingingNode)
                 !!! 0%nat)
     <> (FVector.Make 3 0 0
         + FVector.Make 0 0 (FVector.Z (Offset (Legs OneLeg !!! 0%nat))))%V.
Proof.
  assert (Hnear : FVector.Size (StartLocationWithoutZOffset OneLeg LevelGround 0 SwingingNode
                                - FVector.Make 3 0 0)%V
                  <= Length (LegsData SwingingNode !!! 0%nat) * DistanceCheckMultiplier OneLeg).
  { apply Size_le; [simpl; lra|]. unfold FVector.SizeSquared. simpl. lra. }
  split; [reflexivity|]. split; [exact Hnear|].
  destruct (SetFootTargetLocationWith_result OneLeg LevelGround ADVANCED 0%nat SwingingNode)
    as (HT & _); [simpl; lia|].
  rewrite HT, ResolveProbe_ADVANCED_keeps by (left; split; [reflexivity|exact Hnear]).
  unfold NewFootTarget, GetLegStepPercent. simpl.
  rewrite decide_False by lra.
  intros H. apply (f_equal FVector.X) in H. simpl in H. lra.
Qed.

(** C10.  In ADVANCED mode after a missed ray, a foothold is used only
    if it is strictly closer to the anchor than the anchor is to the zero
    vector, the impact point of the missed ray; when every candidate of the
    sphere trace is at least that far, the leg takes the no-hit path: IK
    disabled, target at the resting position. *)
Theorem missed_ray_filters_footholds cfg w s i :
  (i < length (LegsData s))%nat ->
  fst (LineHit cfg w i s) = false ->
  let Anchor := StartLocationWithoutZOffset cfg w i s in
  let FootHoldHits :=
    SphereTraceMulti w (StartLocation cfg w i s) (EndLocation cfg w i s) (RadiusCheck cfg) in
  let d := LegsData s !!! i in
  let d' := LegsData (SetFootTargetLocationWith cfg w ADVANCED i s) !!! i in
  (forall h, ResolveProbe cfg w ADVANCED i s = (true, h) ->
     In h FootHoldHits
     /\ FVector.Size (Anchor - ImpactPoint h)%V < FVector.Size (Anchor - FVector.Zero)%V)
  /\ ((forall h, In h FootHoldHits ->
        FVector.Size (Anchor - FVector.Zero)%V <= FVector.Size (Anchor - ImpactPoint h)%V) ->
      ResolveProbe cfg w ADVANCED i s = (false, FHitResult_Init)
      /\ bEnableIK d' = false
      /\ FootTarget d'
         = TransformPosition (GetActorTransform w) (TipBoneOriginalRelLocation d)).
Proof.
  intros Hi Hmiss Anchor Hits d d'.
  pose proof (LineHit_miss _ _ _ _ Hmiss) as Hline.
  assert (Hprobe : ResolveProbe cfg w ADVANCED i s
                   = if bool_decide (0 < length Hits)%nat
                     then if bBlockingHit (FootHoldBestHit cfg w Anchor
                                             (FVector.Size (Anchor - FVector.Zero)%V) Hits)
                          then (true, FootHoldBestHit cfg w Anchor
                                        (FVector.Size (Anchor - FVector.Zero)%V) Hits)
                          else (false, FHitResult_Init)
                     else (false, FHitResult_Init)).
  { unfold ResolveProbe. rewrite Hline. reflexivity. }
  split.
  - intros h Hh. rewrite Hprobe in Hh.
    destruct (bool_decide _); [|discriminate].
    destruct (bBlockingHit _) eqn:Hb; [|discriminate].
    injection Hh as <-.
    destruct (FootHoldBestHit_spec cfg w Anchor
                (FVector.Size (Anchor - FVector.Zero)%V) Hits) as [E|HH]; [|exact HH].
    rewrite E in Hb. discriminate.
  - intros Hall.
    assert (Hres : ResolveProbe cfg w ADVANCED i s = (false, FHitResult_Init)).
    { rewrite Hprobe, FootHoldBestHit_rejects by exact Hall. simpl.
      now destruct (bool_decide _). }
    destruct (SetFootTargetLocationWith_result cfg w ADVANCED i s Hi) as (HT & HIK & _).
    fold d' in HT, HIK. rewrite Hres in HT, HIK. auto.
Qed.

Lemma missed_ray_filters_footholds_witness :
  SphereTraceMulti LedgeOnly (StartLocation OneLeg LedgeOnly 0 PlantedNode)
    (EndLocation OneLeg LedgeOnly 0 PlantedNode) (RadiusCheck OneLeg)
  = [GroundHit (FVector.Make 20 0 (-60))]
  /\ ResolveProbe OneLeg LedgeOnly ADVANCED 0 PlantedNode = (false, FHitResult_Init)
  /\ bEnableIK (LegsData (SetFootTargetLocationWith OneLeg LedgeOnly ADVANCED 0 PlantedNode)
                !!! 0%nat) = false
  /\ FootTarget (LegsData (SetFootTargetLocationWith OneLeg LedgeOnly ADVANCED 0 PlantedNode)
                 !!! 0%nat) = FVector.Zero.
Proof.
  split; [reflexivity|].
  refine (proj2 (missed_ray_filters_footholds OneLeg LedgeOnly PlantedNode 0%nat _ _) _).
  - simpl. lia.
  - reflexivity.
  - intros h [<-|[]]. apply Size_mono. unfold FVector.SizeSquared. simpl. lra.
Defined.

(** ** The gait scheduler *)

Lemma alter_fixed {A : Type} (f : A -> A) (i : nat) (l : list A) :
  (forall x, l !! i = Some x -> f x = x) -> alter f i l = l.
Proof.
  intros H. apply list_eq. intros j.
  destruct (decide (i = j)) as [->|Hne].
  - rewrite list_lookup_alter_eq. destruct (l !! j) as [x|] eqn:E; [|reflexivity].
    simpl. now rewrite H.
  - now rewrite list_lookup_alter_ne.
Qed.

(** A loop that updates group [i] by [f] in iteration [i]. *)
Lemma fold_alter_seq {A : Type} (f : A -> A) (n : nat) (l : list A) (j : nat) :
  fold_left (fun l i => alter f i l) (seq 0 n) l !! j
  = if decide (j < n)%nat then f <$> l !! j else l !! j.
Proof.
  induction n as [|n IH].
  - simpl. destruct (decide (j < 0)%nat); [lia|reflexivity].
  - rewrite seq_S, fold_left_app. simpl.
    destruct (decide (n = j)) as [->|Hne].
    + rewrite list_lookup_alter_eq, IH.
      destruct (decide (j < j)%nat); [lia|].
      destruct (decide (j < S j)%nat); [reflexivity|lia].
    + rewrite list_lookup_alter_ne, IH by exact Hne.
      destruct (decide (j < n)%nat), (decide (j < S n)%nat); try reflexivity; lia.
Qed.

Lemma fold_alter_seq_total {A : Type} `{Inhabited A} (f : A -> A) (n : nat)
    (l : list A) (j : nat) :
  (j < n)%nat -> (j < length l)%nat ->
  fold_left (fun l i => alter f i l) (seq 0 n) l !!! j = f (l !!! j).
Proof.
  intros Hn Hl. rewrite !list_lookup_total_alt, fold_alter_seq.
  destruct (decide (j < n)%nat); [|lia].
  destruct (lookup_lt_is_Some_2 l j Hl) as [x ->]. reflexivity.
Qed.

Lemma for_index_groups (Inv : Node -> Prop) (f : FGroupData -> FGroupData)
    (body : nat -> Node -> Node) :
  (forall i s, Inv s -> Inv (body i s) /\ GroupsData (body i s) = alter f i (GroupsData s)) ->
  forall n s, Inv s ->
    Inv (for_index n body s)
    /\ GroupsData (for_index n body s)
       = fold_left (fun l i => alter f i l) (seq 0 n) (GroupsData s).
Proof.
  intros Hbody n. induction n as [|n IH]; intros s Hs.
  - now split.
  - rewrite for_index_S, seq_S, fold_left_app. simpl.
    destruct (IH s Hs) as [Hinv Hg].
    destruct (Hbody n _ Hinv) as [Hinv' Hg'].
    split; [exact Hinv'|]. now rewrite Hg', Hg.
Qed.

(** *** SetCurrentGroupUnplanted *)

Lemma LegsOnly_SetSupportComponentData w i ref s :
  LegsOnly s (SetSupportComponentData w i ref s).
Proof. apply LegsOnly_alter_leg. Qed.

Lemma LegsOnly_UnplantLeg w i s : LegsOnly s (UnplantLeg w i s).
Proof.
  unfold UnplantLeg. eapply LegsOnly_trans; [apply LegsOnly_alter_leg|].
  apply LegsOnly_SetSupportComponentData.
Qed.

Lemma LegsOnly_for_each (body : nat -> Node -> Node) :
  (forall i s, LegsOnly s (body i s)) -> forall l s, LegsOnly s (for_each l body s).
Proof.
  intros H. apply for_each_rel; [apply LegsOnly_refl|apply LegsOnly_trans|exact H].
Qed.

Lemma SetCurrentGroupUnplanted_idle cfg w s :
  Unplants cfg s = false -> SetCurrentGroupUnplanted cfg w s = s.
Proof.
  unfold Unplants, SetCurrentGroupUnplanted. intros H.
  destruct (bIsUnplanted (GroupsData s !!! CurrentGroupIndex s)); [reflexivity|].
  destruct (existsb _ _); [|reflexivity].
  simpl in H. apply negb_false_iff in H. now rewrite H.
Qed.

Lemma SetCurrentGroupUnplanted_fires cfg w s :
  Unplants cfg s = true ->
  let s' := SetCurrentGroupUnplanted cfg w s in
  GroupsData s'
  = alter (fun _ => {| bIsUnplanted := true; StepPercent := 0 |})
      (CurrentGroupIndex s) (GroupsData s)
  /\ motion s' = motion s /\ bIsFalling s' = bIsFalling s
  /\ CurrentGroupIndex s'
     = (if decide ((CurrentGroupIndex s + 1)%nat = length (LegGroups cfg))
        then 0%nat else (CurrentGroupIndex s + 1)%nat).
Proof.
  unfold Unplants, SetCurrentGroupUnplanted. intros H.
  apply andb_true_iff in H as [H H3]. apply andb_true_iff in H as [H1 H2].
  apply negb_true_iff in H1, H3. rewrite H1, H2, H3. simpl.
  set (s1 := alter_group _ _ s).
  pose proof (LegsOnly_for_each (UnplantLeg w) (LegsOnly_UnplantLeg w)
                (LegIndices (LegGroups cfg !!! CurrentGroupIndex s)) s1) as Hl.
  rewrite (LegsOnly_GroupsData _ _ Hl), (LegsOnly_motion _ _ Hl),
    (LegsOnly_bIsFalling _ _ Hl), (LegsOnly_CurrentGroupIndex _ _ Hl).
  auto.
Qed.

Lemma existsb_In_iff {A : Type} (f : A -> bool) (l : list A) :
  existsb f l = true <-> exists x, In x l /\ f x = true.
Proof. apply existsb_exists. Qed.

Lemma PreviousGroupIndex_cyclic cfg s :
  (CurrentGroupIndex s < length (LegGroups cfg))%nat ->
  PreviousGroupIndex cfg s
  = ((CurrentGroupIndex s + length (LegGroups cfg) - 1) mod length (LegGroups cfg))%nat.
Proof.
  intros Hc. unfold PreviousGroupIndex.
  destruct (decide (CurrentGroupIndex s = 0%nat)) as [->|Hne].
  - simpl. rewrite Nat.mod_small by lia. lia.
  - replace (CurrentGroupIndex s + length (LegGroups cfg) - 1)%nat
      with (CurrentGroupIndex s - 1 + 1 * length (LegGroups cfg))%nat by lia.
    rewrite Nat.Div0.mod_add. rewrite Nat.mod_small by lia. reflexivity.
Qed.

(** C2.  The current group, planted and in range, unplants exactly when
    one of its feet is at least [MinDistanceToUnplant] away from its target
    and the group before it in cyclic order (group [Current - 1], the last
    group when [Current] is 0, that is group [(Current + n - 1) mod n] of
    [n] groups) is planted, or unplanted with a step percent of at least
    [StepSequencePercent]; with a sequence percent of 1, group 1 does not
    unplant while group 0 is unplanted below 1. *)
Theorem unplant_fires_iff cfg w s :
  let n := length (LegGroups cfg) in
  let Current := CurrentGroupIndex s in
  let Previous := GroupsData s !!! ((Current + n - 1) mod n)%nat in
  (Current < n)%nat ->
  (Current < length (GroupsData s))%nat ->
  bIsUnplanted (GroupsData s !!! Current) = false ->
  (bIsUnplanted (GroupsData (SetCurrentGroupUnplanted cfg w s) !!! Current) = true
   <-> (exists LegIndex,
          In LegIndex (LegIndices (LegGroups cfg !!! Current))
          /\ FVector.Dist (FootLocation (LegsData s !!! LegIndex))
                          (FootTarget (LegsData s !!! LegIndex))
             >= MinDistanceToUnplant cfg)
       /\ (bIsUnplanted Previous = false
           \/ (bIsUnplanted Previous = true
               /\ StepPercent Previous >= StepSequencePercent cfg)))
  /\ (Current = 0%nat -> Previous = GroupsData s !!! (n - 1)%nat)
  /\ ((0 < Current)%nat -> Previous = GroupsData s !!! (Current - 1)%nat)
  /\ (StepSequencePercent cfg = 1 -> Current = 1%nat ->
      bIsUnplanted (GroupsData s !!! 0%nat) = true ->
      StepPercent (GroupsData s !!! 0%nat) < 1 ->
      SetCurrentGroupUnplanted cfg w s = s).
Proof.
  intros n Current Previous Hn Hrange Hplanted.
  assert (HP : Previous = GroupsData s !!! PreviousGroupIndex cfg s).
  { unfold Previous. now rewrite PreviousGroupIndex_cyclic by exact Hn. }
  assert (Hiff : Unplants cfg s = true
                 <-> (exists LegIndex,
                        In LegIndex (LegIndices (LegGroups cfg !!! Current))
                        /\ FVector.Dist (FootLocation (LegsData s !!! LegIndex))
                                        (FootTarget (LegsData s !!! LegIndex))
                           >= MinDistanceToUnplant cfg)
                     /\ (bIsUnplanted Previous = false
                         \/ (bIsUnplanted Previous = true
                             /\ StepPercent Previous >= StepSequencePercent cfg))).
  { rewrite HP. clear HP. set (Prev := GroupsData s !!! PreviousGroupIndex cfg s).
    unfold Unplants. fold Current. fold Prev. rewrite Hplanted. simpl.
    rewrite andb_true_iff, existsb_exists, negb_true_iff, andb_false_iff.
    unfold IsFootFarEnough.
    split.
    - intros [(x & Hin & Hfar) Hprev]. split.
      + exists x. split; [exact Hin|]. now apply bool_decide_eq_true in Hfar.
      + destruct Hprev as [Hp|Hp]; [now left|].
        apply bool_decide_eq_false in Hp.
        destruct (bIsUnplanted Prev); [right|now left].
        split; [reflexivity|lra].
    - intros [(x & Hin & Hfar) Hprev]. split.
      + exists x. split; [exact Hin|]. now apply bool_decide_eq_true.
      + destruct Hprev as [Hp|[_ Hp]]; [now left|right].
        apply bool_decide_eq_false. lra. }
  split.
  { rewrite <- Hiff. destruct (Unplants cfg s) eqn:HU.
    + destruct (SetCurrentGroupUnplanted_fires cfg w s HU) as (-> & _).
      fold Current. rewrite list_lookup_total_alter_eq by exact Hrange. now simpl.
    + rewrite SetCurrentGroupUnplanted_idle by exact HU. fold Current.
      rewrite Hplanted. split; discriminate. }
  split.
  { intros H0. unfold Previous. rewrite H0. simpl.
    now rewrite Nat.mod_small by (unfold n in *; lia). }
  split.
  { intros Hpos. unfold Previous.
    replace (Current + n - 1)%nat with (Current - 1 + 1 * n)%nat by lia.
    rewrite Nat.Div0.mod_add. now rewrite Nat.mod_small by lia. }
  intros Hseq Hc H0 Hlt. apply SetCurrentGroupUnplanted_idle.
  unfold Unplants, PreviousGroupIndex. fold Current. rewrite Hc.
  destruct (decide (1%nat = 0%nat)); [discriminate|]. simpl.
    rewrite H0, Hseq. rewrite bool_decide_eq_true_2 by exact Hlt.
    simpl. now rewrite andb_false_r.
Qed.

(** *** ComputeFeet *)

Lemma ComputeFeetGroup_groups cfg w g s :
  bIsFalling s = false ->
  GroupsData (ComputeFeetGroup cfg w g s)
  = alter (AdvanceStep (WorldDeltaSeconds w) (CurrentStepDuration (motion s))) g (GroupsData s)
  /\ motion (ComputeFeetGroup cfg w g s) = motion s
  /\ bIsFalling (ComputeFeetGroup cfg w g s) = false.
Proof.
  intros Hf. unfold ComputeFeetGroup. rewrite Hf.
  destruct (bIsUnplanted (GroupsData s !!! g)) eqn:Hun.
  - match goal with |- context [for_each ?l ?b ?s1] =>
      pose proof (LegsOnly_for_each b (fun i s0 => LegsOnly_alter_leg _ i s0) l s1) as Hl
    end.
    rewrite (LegsOnly_GroupsData _ _ Hl), (LegsOnly_motion _ _ Hl),
      (LegsOnly_bIsFalling _ _ Hl). simpl.
    split; [|auto].
    apply list_eq. intros j. destruct (decide (g = j)) as [->|Hne].
    + rewrite !list_lookup_alter_eq.
      destruct (GroupsData s !! j) as [x|] eqn:E; [|reflexivity]. simpl.
      rewrite (list_lookup_total_correct _ _ _ E) in *.
      unfold AdvanceStep. now rewrite Hun.
    + now rewrite !list_lookup_alter_ne.
  - match goal with |- context [for_each ?l ?b ?s1] =>
      pose proof (LegsOnly_for_each b (fun i s0 => LegsOnly_alter_leg _ i s0) l s1) as Hl
    end.
    rewrite (LegsOnly_GroupsData _ _ Hl), (LegsOnly_motion _ _ Hl),
      (LegsOnly_bIsFalling _ _ Hl).
    split; [|auto].
    symmetry. apply alter_fixed. intros x E.
    rewrite (list_lookup_total_correct _ _ _ E) in Hun.
    unfold AdvanceStep. now rewrite Hun.
Qed.

Lemma ComputeFeet_groups cfg w s g :
  bIsFalling s = false ->
  (g < length (LegGroups cfg))%nat -> (g < length (GroupsData s))%nat ->
  GroupsData (ComputeFeet cfg w s) !!! g
  = AdvanceStep (WorldDeltaSeconds w) (CurrentStepDuration (motion s)) (GroupsData s !!! g)
  /\ length (GroupsData (ComputeFeet cfg w s)) = length (GroupsData s).
Proof.
  intros Hf Hg Hl. unfold ComputeFeet.
  destruct (for_index_groups
              (fun s0 => bIsFalling s0 = false /\ motion s0 = motion s)
              (AdvanceStep (WorldDeltaSeconds w) (CurrentStepDuration (motion s)))
              (ComputeFeetGroup cfg w)) with (n := length (LegGroups cfg)) (s := s)
    as [_ ->].
  - intros i s0 [Hf0 Hm0].
    destruct (ComputeFeetGroup_groups cfg w i s0 Hf0) as (HG & HM & HF).
    rewrite HM, HF, HG, Hm0. auto.
  - auto.
  - split; [now apply fold_alter_seq_total|].
    clear. induction (length (LegGroups cfg)) as [|n IH]; [reflexivity|].
    rewrite seq_S, fold_left_app. simpl. now rewrite length_alter.
Qed.

(** *** SetGroupsPlanted *)

Lemma LegsOnly_PlantLeg w i s : LegsOnly s (PlantLeg w i s).
Proof. apply LegsOnly_alter_leg. Qed.

Lemma SetGroupPlanted_groups cfg w g s :
  GroupsData (SetGroupPlanted cfg w g s) = alter PlantStep g (GroupsData s).
Proof.
  unfold SetGroupPlanted.
  destruct (bIsUnplanted (GroupsData s !!! g) && bool_decide (StepPercent (GroupsData s !!! g) = 1))
    eqn:Hfire.
  - simpl.
    rewrite (LegsOnly_GroupsData _ _
               (LegsOnly_for_each (PlantLeg w) (LegsOnly_PlantLeg w) _ s)).
    apply list_eq. intros j. destruct (decide (g = j)) as [->|Hne].
    + rewrite !list_lookup_alter_eq.
      destruct (GroupsData s !! j) as [x|] eqn:E; [|reflexivity]. simpl.
      rewrite (list_lookup_total_correct _ _ _ E) in Hfire.
      unfold PlantStep. now rewrite Hfire.
    + now rewrite !list_lookup_alter_ne.
  - symmetry. apply alter_fixed. intros x E.
    rewrite (list_lookup_total_correct _ _ _ E) in Hfire.
    unfold PlantStep. now rewrite Hfire.
Qed.

Lemma SetGroupsPlanted_groups cfg w s g :
  (g < length (LegGroups cfg))%nat -> (g < length (GroupsData s))%nat ->
  GroupsData (SetGroupsPlanted cfg w s) !!! g = PlantStep (GroupsData s !!! g).
Proof.
  intros Hg Hl. unfold SetGroupsPlanted.
  destruct (for_index_groups (fun _ => True) PlantStep (SetGroupPlanted cfg w))
    with (n := length (LegGroups cfg)) (s := s) as [_ ->].
  - intros i s0 _. split; [exact I|apply SetGroupPlanted_groups].
  - exact I.
  - now apply fold_alter_seq_total.
Qed.

Lemma LegsRel_of_Keep Rel s s' : LegsKeep Rel s s' -> LegsRel Rel s s'.
Proof. now intros [_ H]. Qed.

Lemma LegsRel_refl (Rel : FLegData -> FLegData -> Prop) :
  (forall d, Rel d d) -> forall s, LegsRel Rel s s.
Proof. intros H s. apply LegsRel_of_Keep, LegsKeep_refl, H. Qed.

Lemma LegsRel_trans (Rel : FLegData -> FLegData -> Prop) :
  (forall a b c, Rel a b -> Rel b c -> Rel a c) ->
  forall s1 s2 s3, LegsRel Rel s1 s2 -> LegsRel Rel s2 s3 -> LegsRel Rel s1 s3.
Proof.
  intros Htrans s1 s2 s3 H12 H23. unfold LegsRel in *.
  eapply Forall2_trans; [|eassumption|eassumption]. intros a b c. apply Htrans.
Qed.

Lemma LegsRel_length Rel s s' : LegsRel Rel s s' -> length (LegsData s') = length (LegsData s).
Proof. intros H. symmetry. eapply Forall2_length, H. Qed.

Lemma LegsRel_lookup (Rel : FLegData -> FLegData -> Prop) (s s' : Node) (i : nat) :
  (forall d, Rel d d) -> LegsRel Rel s s' -> Rel (LegsData s !!! i) (LegsData s' !!! i).
Proof.
  intros Hrefl H. unfold LegsRel in H.
  destruct (LegsData s !! i) as [d|] eqn:Hd.
  - destruct (Forall2_lookup_l _ _ _ _ _ H Hd) as (d' & Hd' & HR).
    rewrite (list_lookup_total_correct _ _ _ Hd), (list_lookup_total_correct _ _ _ Hd').
    exact HR.
  - assert (Hn : LegsData s' !! i = None).
    { apply lookup_ge_None. apply lookup_ge_None in Hd.
      rewrite <- (Forall2_length _ _ _ H). exact Hd. }
    rewrite !list_lookup_total_alt, Hd, Hn. apply Hrefl.
Qed.

Lemma Recaptured_idem w d : Recaptured w (Recaptured w d) = Recaptured w d.
Proof.
  unfold Recaptured, SupportComponentData. simpl.
  destruct (IsValid w (GetComponent (LastHit d))); reflexivity.
Qed.

Lemma MaybeRecaptured_refl w d : MaybeRecaptured w d d.
Proof. now left. Qed.

Lemma MaybeRecaptured_trans w a b c :
  MaybeRecaptured w a b -> MaybeRecaptured w b c -> MaybeRecaptured w a c.
Proof.
  unfold MaybeRecaptured. intros [->| ->] [->| ->]; auto.
  right. apply Recaptured_idem.
Qed.

Lemma PlantLeg_legs w i s : LegsRel (MaybeRecaptured w) s (PlantLeg w i s).
Proof.
  apply LegsRel_of_Keep, LegsKeep_alter_leg; [apply MaybeRecaptured_refl|].
  intros d Hd. right. now rewrite (list_lookup_total_correct _ _ _ Hd).
Qed.

Lemma PlantLegs_legs w l s : LegsRel (MaybeRecaptured w) s (for_each l (PlantLeg w) s).
Proof.
  apply (for_each_rel (LegsRel (MaybeRecaptured w))).
  - apply LegsRel_refl, MaybeRecaptured_refl.
  - apply LegsRel_trans, MaybeRecaptured_trans.
  - apply PlantLeg_legs.
Qed.

Lemma PlantLegs_member w l : forall s i,
  In i l -> (i < length (LegsData s))%nat ->
  LegsData (for_each l (PlantLeg w) s) !!! i = Recaptured w (LegsData s !!! i).
Proof.
  induction l as [|j l IH]; intros s i Hin Hi; [destruct Hin|].
  change (for_each (j :: l) (PlantLeg w) s) with (for_each l (PlantLeg w) (PlantLeg w j s)).
  destruct (decide (j = i)) as [->|Hne].
  - assert (E : LegsData (PlantLeg w i s) !!! i = Recaptured w (LegsData s !!! i)).
    { unfold PlantLeg, SetSupportComponentData. simpl.
      now rewrite list_lookup_total_alter_eq. }
    destruct (LegsRel_lookup _ _ _ i (MaybeRecaptured_refl w)
                (PlantLegs_legs w l (PlantLeg w i s))) as [H|H];
      rewrite H, E; [reflexivity|apply Recaptured_idem].
  - destruct Hin as [Hin|Hin]; [contradiction|].
    rewrite IH; [|exact Hin|].
    + unfold PlantLeg, SetSupportComponentData. simpl.
      now rewrite list_lookup_total_alter_ne.
    + unfold PlantLeg, SetSupportComponentData. simpl. now rewrite length_alter.
Qed.

Lemma SetGroupPlanted_legs cfg w g s :
  LegsRel (MaybeRecaptured w) s (SetGroupPlanted cfg w g s).
Proof.
  unfold SetGroupPlanted. destruct (_ && _).
  - apply PlantLegs_legs.
  - apply LegsRel_refl, MaybeRecaptured_refl.
Qed.

Lemma SetGroupPlanted_member cfg w g s i :
  bIsUnplanted (GroupsData s !!! g) = true -> StepPercent (GroupsData s !!! g) = 1 ->
  In i (LegIndices (LegGroups cfg !!! g)) -> (i < length (LegsData s))%nat ->
  LegsData (SetGroupPlanted cfg w g s) !!! i = Recaptured w (LegsData s !!! i).
Proof.
  intros Hun Hone Hin Hi. unfold SetGroupPlanted.
  rewrite Hun, bool_decide_eq_true_2 by exact Hone. simpl.
  now apply PlantLegs_member.
Qed.

Lemma for_index_split (n g : nat) (body : nat -> Node -> Node) (s : Node) :
  (g < n)%nat ->
  for_index n body s = for_each (seq (S g) (n - S g)) body (body g (for_index g body s)).
Proof.
  intros Hg. unfold for_index, for_each.
  replace n with (g + S (n - S g))%nat at 1 by lia.
  rewrite seq_app, fold_left_app. reflexivity.
Qed.

Lemma SetGroupsPlanted_member cfg w s g i :
  (g < length (LegGroups cfg))%nat ->
  bIsUnplanted (GroupsData s !!! g) = true -> StepPercent (GroupsData s !!! g) = 1 ->
  In i (LegIndices (LegGroups cfg !!! g)) -> (i < length (LegsData s))%nat ->
  LegsData (SetGroupsPlanted cfg w s) !!! i = Recaptured w (LegsData s !!! i).
Proof.
  intros Hg Hun Hone Hin Hi. unfold SetGroupsPlanted.
  rewrite (for_index_split _ g) by exact Hg.
  set (sa := for_index g (SetGroupPlanted cfg w) s).
  assert (Hla : LegsRel (MaybeRecaptured w) s sa).
  { apply (for_index_rel (LegsRel (MaybeRecaptured w))).
    - apply LegsRel_refl, MaybeRecaptured_refl.
    - apply LegsRel_trans, MaybeRecaptured_trans.
    - apply SetGroupPlanted_legs. }
  assert (Hga : GroupsData sa !!! g = GroupsData s !!! g).
  { destruct (for_index_groups (fun _ => True) PlantStep (SetGroupPlanted cfg w))
      with (n := g) (s := s) as [_ E].
    - intros j s0 _. split; [exact I|apply SetGroupPlanted_groups].
    - exact I.
    - fold sa in E. rewrite E, !list_lookup_total_alt, fold_alter_seq.
      destruct (decide (g < g)%nat); [lia|reflexivity]. }
  assert (Hb : LegsData (SetGroupPlanted cfg w g sa) !!! i = Recaptured w (LegsData s !!! i)).
  { rewrite SetGroupPlanted_member; try (rewrite Hga; assumption); try assumption.
    - destruct (LegsRel_lookup _ _ _ i (MaybeRecaptured_refl w) Hla) as [->| ->];
        [reflexivity|apply Recaptured_idem].
    - now rewrite (LegsRel_length _ _ _ Hla). }
  assert (Hs : LegsRel (MaybeRecaptured w) (SetGroupPlanted cfg w g sa)
                 (for_each (seq (S g) (length (LegGroups cfg) - S g))
                    (SetGroupPlanted cfg w) (SetGroupPlanted cfg w g sa))).
  { apply (for_each_rel (LegsRel (MaybeRecaptured w))).
    - apply LegsRel_refl, MaybeRecaptured_refl.
    - apply LegsRel_trans, MaybeRecaptured_trans.
    - apply SetGroupPlanted_legs. }
  destruct (LegsRel_lookup _ _ _ i (MaybeRecaptured_refl w) Hs) as [H|H];
    rewrite H, Hb; [reflexivity|apply Recaptured_idem].
Qed.

(** C3.  [SetGroupsPlanted] plants a group, whichever it is, exactly when
    it is unplanted with a step percent equal to 1, and leaves the step
    percent alone.  Every leg of a group it plants has its support
    recaptured where the foot is: the support component becomes the
    component of the leg's last hit and, when that component is valid, the
    foot location is stored in the component's frame together with the
    component's transform; the foot, its target and its last hit are not
    touched.  The value 1 is reached: the swing advance saturates at it
    (also when the step duration is zero, where the quotient is infinite),
    and the group is planted in the same tick. *)
Theorem groups_plant_at_one cfg w s g :
  (g < length (LegGroups cfg))%nat -> (g < length (GroupsData s))%nat ->
  let old := GroupsData s !!! g in
  let new := GroupsData (SetGroupsPlanted cfg w s) !!! g in
  let dt := WorldDeltaSeconds w in
  let dur := CurrentStepDuration (motion s) in
  StepPercent new = StepPercent old
  /\ (bIsUnplanted old = false -> bIsUnplanted new = false)
  /\ (bIsUnplanted old = true -> (bIsUnplanted new = false <-> StepPercent old = 1))
  /\ (bIsUnplanted old = true -> StepPercent old = 1 ->
      forall LegIndex,
        In LegIndex (LegIndices (LegGroups cfg !!! g)) ->
        (LegIndex < length (LegsData s))%nat ->
        let d := LegsData s !!! LegIndex in
        let d' := LegsData (SetGroupsPlanted cfg w s) !!! LegIndex in
        let comp := GetComponent (LastHit d) in
        SupportComp d' = comp
        /\ (IsValid w comp = true ->
            RelLocationToSupportComp d'
            = InverseTransformPosition (ComponentTransform w comp) (FootLocation d)
            /\ SupportCompPreviousTransform d' = ComponentTransform w comp)
        /\ (IsValid w comp = false ->
            RelLocationToSupportComp d' = RelLocationToSupportComp d
            /\ SupportCompPreviousTransform d' = SupportCompPreviousTransform d)
        /\ FootLocation d' = FootLocation d
        /\ FootTarget d' = FootTarget d
        /\ FootUnplantLocation d' = FootUnplantLocation d
        /\ LastHit d' = LastHit d
        /\ SupportCompDelta d' = SupportCompDelta d)
  /\ (bIsFalling s = false -> bIsUnplanted old = true ->
      (dur <> 0 /\ 1 <= StepPercent old + dt / dur) \/ (dur = 0 /\ 0 <= dt) ->
      StepPercent (GroupsData (ComputeFeet cfg w s) !!! g) = 1
      /\ bIsUnplanted (GroupsData (SetGroupsPlanted cfg w (ComputeFeet cfg w s)) !!! g)
         = false).
Proof.
  intros Hg Hl old new dt dur. unfold new.
  rewrite SetGroupsPlanted_groups by assumption. fold old.
  unfold PlantStep.
  split; [now destruct (_ && _)|].
  split; [intros H; rewrite H; simpl; exact H|].
  split.
  { intros H. rewrite H. simpl. destruct (bool_decide (StepPercent old = 1)) eqn:E.
    - apply bool_decide_eq_true in E. simpl. tauto.
    - apply bool_decide_eq_false in E. rewrite H. split; [discriminate|tauto]. }
  split.
  { intros Hun Hone LegIndex Hin Hi.
    rewrite (SetGroupsPlanted_member cfg w s g LegIndex Hg Hun Hone Hin Hi).
    unfold Recaptured, SupportComponentData. simpl.
    split; [reflexivity|].
    split; [intros ->; split; reflexivity|].
    split; [intros ->; split; reflexivity|].
    repeat split. }
  intros Hf Hun Hsat.
  destruct (ComputeFeet_groups cfg w s g Hf Hg Hl) as [Hadv Hlen].
  assert (E : StepPercent (GroupsData (ComputeFeet cfg w s) !!! g) = 1).
  { rewrite Hadv. unfold AdvanceStep. fold old. rewrite Hun. simpl. fold dt dur.
    destruct Hsat as [[Hne Hsat]|[Hz Hdt]].
    - rewrite StepAdvance_finite by exact Hne. apply Clamp_saturates; lra.
    - rewrite Hz. now apply StepAdvance_zero. }
  split; [exact E|].
  rewrite SetGroupsPlanted_groups; [|exact Hg|now rewrite Hlen].
  unfold PlantStep. rewrite E, bool_decide_eq_true_2 by reflexivity.
  destruct (bIsUnplanted (GroupsData (ComputeFeet cfg w s) !!! g)) eqn:E2; simpl;
    [reflexivity|exact E2].
Qed.

(** *** The tick *)

Lemma LegsOnly_for_index (body : nat -> Node -> Node) :
  (forall i s, LegsOnly s (body i s)) -> forall n s, LegsOnly s (for_index n body s).
Proof.
  intros H. apply for_index_rel; [apply LegsOnly_refl|apply LegsOnly_trans|exact H].
Qed.

Lemma LegsOnly_SetSupportCompDeltas cfg w s : LegsOnly s (SetSupportCompDeltas cfg w s).
Proof. apply LegsOnly_for_index. intros i s0. apply LegsOnly_alter_leg. Qed.

Lemma LegsOnly_SetFeetTargetLocations cfg w s : LegsOnly s (SetFeetTargetLocations cfg w s).
Proof. apply LegsOnly_for_index. intros i s0. apply LegsOnly_alter_leg. Qed.

Lemma BeforeGait_frame cfg w s :
  GroupsData (BeforeGait cfg w s) = GroupsData s
  /\ CurrentGroupIndex (BeforeGait cfg w s) = CurrentGroupIndex s
  /\ bIsFalling (BeforeGait cfg w s) = bIsFalling s
  /\ motion (BeforeGait cfg w s) = motion (UpdatePawnVariables cfg w s).
Proof.
  unfold BeforeGait.
  pose proof (LegsOnly_trans _ _ _
                (LegsOnly_SetSupportCompDeltas cfg w (UpdatePawnVariables cfg w s))
                (LegsOnly_SetFeetTargetLocations cfg w _)) as H.
  rewrite (LegsOnly_GroupsData _ _ H), (LegsOnly_CurrentGroupIndex _ _ H),
    (LegsOnly_bIsFalling _ _ H), (LegsOnly_motion _ _ H).
  auto.
Qed.

Lemma ComputeBodyTransform_groups cfg w s :
  GroupsData (ComputeBodyTransform cfg w s) = GroupsData s.
Proof. reflexivity. Qed.

(** The group data at the end of a tick on the ground, in terms of the
    group data after the unplant step. *)
Lemma Pipeline_groups cfg w s g :
  bIsFalling s = false ->
  length (GroupsData s) = length (LegGroups cfg) ->
  (g < length (LegGroups cfg))%nat ->
  GroupsData (Pipeline cfg w s) !!! g
  = PlantStep
      (AdvanceStep (WorldDeltaSeconds w)
         (CurrentStepDuration (motion (UpdatePawnVariables cfg w s)))
         (GroupsData (SetCurrentGroupUnplanted cfg w (BeforeGait cfg w s)) !!! g)).
Proof.
  intros Hf Hlen Hg.
  destruct (BeforeGait_frame cfg w s) as (HG & HC & HF & HM).
  unfold Pipeline. rewrite HF, Hf, ComputeBodyTransform_groups.
  set (s3 := BeforeGait cfg w s) in *.
  assert (H4 : length (GroupsData (SetCurrentGroupUnplanted cfg w s3)) = length (GroupsData s)
               /\ motion (SetCurrentGroupUnplanted cfg w s3) = motion s3
               /\ bIsFalling (SetCurrentGroupUnplanted cfg w s3) = false).
  { destruct (Unplants cfg s3) eqn:HU.
    - destruct (SetCurrentGroupUnplanted_fires cfg w s3 HU) as (E & Em & Ef & _).
      rewrite E, Em, Ef, length_alter, HG, HF. auto.
    - rewrite SetCurrentGroupUnplanted_idle by exact HU. rewrite HG, HF. auto. }
  destruct H4 as (L4 & M4 & F4).
  destruct (ComputeFeet_groups cfg w (SetCurrentGroupUnplanted cfg w s3) g F4 Hg)
    as [E5 L5]; [rewrite L4, Hlen; exact Hg|].
  rewrite SetGroupsPlanted_groups; [|exact Hg|rewrite L5, L4, Hlen; exact Hg].
  now rewrite E5, M4, HM.
Qed.

Lemma Int_part_0 : Int_part 0 = 0%Z.
Proof. exact (Int_part_INR 0). Qed.

Lemma NormalizeAxis_diag (x : R) : FMath.NormalizeAxis (x - x) = 0.
Proof.
  unfold FMath.NormalizeAxis, FMath.ClampAxis.
  replace (x - x) with 0 by ring.
  unfold Rdiv. rewrite Rmult_0_l, Int_part_0.
  rewrite decide_False by lra. lra.
Qed.

(** Motion sampling of a pawn that neither moves nor turns. *)
Lemma UpdatePawnVariables_at_rest cfg w s :
  FVector.Size (GetVelocity w) <= SPEED_THRESHOLD_MIN ->
  GetActorRotation w = PreviousRotation (motion s) ->
  let m := motion (UpdatePawnVariables cfg w s) in
  Speed m = 0 /\ YawDelta m = 0 /\ CurrentStepDuration m = MinStepDuration cfg.
Proof.
  intros Hv Hr. unfold UpdatePawnVariables. simpl.
  rewrite bool_decide_eq_true_2 by exact Hv.
  rewrite Hr, NormalizeAxis_diag, Rabs_R0.
  rewrite decide_False by lra. auto.
Qed.

Lemma Normalize_Zero : FVector.Normalize FVector.Zero = FVector.Zero.
Proof.
  unfold FVector.Normalize. rewrite decide_False; [reflexivity|].
  unfold FVector.SizeSquared. simpl. lra.
Qed.

Lemma DotProduct_Zero (v : FVector.t) : FVector.DotProduct v FVector.Zero = 0.
Proof. unfold FVector.DotProduct. simpl. ring. Qed.

Lemma percent_of_right_angle :
  UKismetMathLibrary.MapRangeClamped (UKismetMathLibrary.DegAcos 0) 0 180 1 (-1) = 0.
Proof.
  assert (E : UKismetMathLibrary.DegAcos 0 = 90).
  { unfold UKismetMathLibrary.DegAcos, FMath.Acos.
    rewrite decide_False by lra. rewrite decide_True by lra.
    rewrite acos_0. field. apply PI_neq0. }
  rewrite E.
  unfold UKismetMathLibrary.MapRangeClamped, FMath.GetMappedRangeValueClamped,
    FMath.GetRangePct, FMath.IsNearlyZero, FMath.Lerp.
  rewrite bool_decide_eq_false_2 by (rewrite Rabs_pos_eq; lra).
  replace ((90 - 0) / (180 - 0)) with (1 / 2) by field.
  rewrite Clamp_inside by lra. field.
Qed.

Lemma CurrentStepDuration_nonneg cfg w s :
  0 <= MinStepDuration cfg ->
  0 <= ReduceSlopeMultiplierPitch (body s) -> 0 <= ReduceSlopeMultiplierRoll (body s) ->
  0 <= CurrentStepDuration (motion (UpdatePawnVariables cfg w s)).
Proof.
  intros Hmin Hp Hr. unfold UpdatePawnVariables. simpl.
  match goal with |- context [decide (?a > 5)] => destruct (decide (a > 5)) as [H|H] end;
    [|exact Hmin].
  unfold Rdiv. apply Rmult_le_pos.
  - apply Rmult_le_pos.
    + repeat apply Rplus_le_le_0_compat; apply Rabs_pos.
    + unfold GetReductionSlopeMultiplier. simpl.
      apply Rplus_le_le_0_compat; apply Rmult_le_pos; auto using Rabs_pos.
  - left. apply Rinv_0_lt_compat. lra.
Qed.

Lemma NormalizeAxis_small (a : R) : 0 <= a <= 180 -> FMath.NormalizeAxis a = a.
Proof.
  intros Ha. unfold FMath.NormalizeAxis, FMath.ClampAxis.
  rewrite <- (Int_part_spec (a / 360) 0%Z) by (simpl; lra).
  simpl. rewrite decide_False by lra. lra.
Qed.

(** Motion sampling of a pawn that turns in place: it has no direction, so
    the slope multiplier of the step length is zero, and above the
    threshold of 5 the step duration is a zero length over the yaw delta. *)
Lemma UpdatePawnVariables_turning_in_place cfg w s :
  FVector.Size (GetVelocity w) <= SPEED_THRESHOLD_MIN ->
  Rabs (FRotator.Yaw (UKismetMathLibrary.NormalizedDeltaRotator
                        (GetActorRotation w) (PreviousRotation (motion s)))) > 5 ->
  CurrentStepDuration (motion (UpdatePawnVariables cfg w s)) = 0.
Proof.
  intros Hv Hyaw. unfold UpdatePawnVariables. simpl.
  rewrite bool_decide_eq_true_2 by exact Hv.
  rewrite Normalize_Zero, !DotProduct_Zero, percent_of_right_angle.
  simpl in Hyaw. rewrite decide_True by lra.
  unfold GetReductionSlopeMultiplier. simpl. rewrite Rabs_R0. unfold Rdiv. ring.
Qed.

(** C1.  On a tick on the ground with an elapsed time that is not
    negative, the step percent of a group stays in [0, 1].  If the group is
    unplanted its step percent becomes the old value plus elapsed time over
    step duration, clamped to [0, 1]; at a zero step duration, where the
    quotient is infinite, that is 1.  It does not decrease, the step
    duration being not negative, which it is whenever the minimum step
    duration and the stored slope multipliers are not negative.  If the
    group is planted it keeps its value, unless the group is the current
    one and unplants in this tick, where it is the advance from 0. *)
Theorem StepPercent_on_ground cfg w s g :
  bIsFalling s = false ->
  length (GroupsData s) = length (LegGroups cfg) ->
  (g < length (LegGroups cfg))%nat ->
  0 <= WorldDeltaSeconds w ->
  0 <= StepPercent (GroupsData s !!! g) <= 1 ->
  let dt := WorldDeltaSeconds w in
  let dur := CurrentStepDuration (motion (UpdatePawnVariables cfg w s)) in
  let Advanced :=
    fun p : R => if decide (dur = 0) then 1 else FMath.Clamp (p + dt / dur) 0 1 in
  let old := GroupsData s !!! g in
  let new := GroupsData (Pipeline cfg w s) !!! g in
  (0 <= MinStepDuration cfg ->
   0 <= ReduceSlopeMultiplierPitch (body s) -> 0 <= ReduceSlopeMultiplierRoll (body s) ->
   0 <= dur)
  /\ 0 <= StepPercent new <= 1
  /\ (bIsUnplanted old = true ->
      StepPercent new = Advanced (StepPercent old)
      /\ (0 <= dur -> StepPercent old <= StepPercent new))
  /\ (bIsUnplanted old = false ->
      StepPercent new = StepPercent old
      \/ (g = CurrentGroupIndex s
          /\ bIsUnplanted
               (GroupsData (SetCurrentGroupUnplanted cfg w (BeforeGait cfg w s)) !!! g) = true
          /\ StepPercent new = Advanced 0)).
Proof.
  intros Hf Hlen Hg Hdt Hrange dt dur Advanced old new.
  split; [intros Hmin Hp Hr; now apply CurrentStepDuration_nonneg|].
  assert (HA : forall p, Float.Clamp (Float.add p (Float.div dt dur)) 0 1 = Advanced p).
  { intros p. unfold Advanced. destruct (decide (dur = 0)) as [Hz|Hnz].
    - rewrite Hz. now apply StepAdvance_zero.
    - now apply StepAdvance_finite. }
  unfold new. rewrite Pipeline_groups by assumption.
  destruct (BeforeGait_frame cfg w s) as (HG & HC & HF & HM).
  set (s3 := BeforeGait cfg w s) in *.
  assert (Hsp : forall x, StepPercent (PlantStep x) = StepPercent x).
  { intros x. unfold PlantStep. now destruct (_ && _). }
  rewrite Hsp. fold dt dur.
  (* the group data after the unplant step *)
  assert (H4 : GroupsData (SetCurrentGroupUnplanted cfg w s3) !!! g = old
               \/ (g = CurrentGroupIndex s /\ bIsUnplanted old = false
                   /\ GroupsData (SetCurrentGroupUnplanted cfg w s3) !!! g
                      = {| bIsUnplanted := true; StepPercent := 0 |})).
  { destruct (Unplants cfg s3) eqn:HU.
    - destruct (SetCurrentGroupUnplanted_fires cfg w s3 HU) as (E & _).
      rewrite E, HC, HG.
      destruct (decide (CurrentGroupIndex s = g)) as [Heq|Hne].
      + right. rewrite Heq. rewrite list_lookup_total_alter_eq by (rewrite Hlen; exact Hg).
        split; [now symmetry|]. split; [|reflexivity].
        unfold Unplants in HU. rewrite HC, HG, Heq in HU. fold old in HU.
        now destruct (bIsUnplanted old).
      + left. now rewrite list_lookup_total_alter_ne.
    - left. rewrite SetCurrentGroupUnplanted_idle by exact HU. now rewrite HG. }
  destruct H4 as [E|(Hcur & Hpl & E)]; rewrite E; unfold AdvanceStep.
  - destruct (bIsUnplanted old) eqn:Hun; simpl.
    + split; [apply StepAdvance_range|].
      split; [|discriminate].
      intros _. split; [apply HA|intros Hdur; now apply StepAdvance_mono].
    + split; [exact Hrange|]. split; [discriminate|]. intros _. now left.
  - simpl. split; [apply StepAdvance_range|].
    split; [rewrite Hpl; discriminate|].
    intros _. right. split; [exact Hcur|]. split; [reflexivity|apply HA].
Qed.

(** C4.  When speed plus absolute yaw delta is at most 5, the step duration
    is [MinStepDuration], whatever the step length; above 5 it is the step
    length divided by that sum. *)
Theorem CurrentStepDuration_boundary cfg w s :
  let m := motion (UpdatePawnVariables cfg w s) in
  let SpeedWithAngular := Speed m + Rabs (YawDelta m) in
  (SpeedWithAngular <= 5 -> CurrentStepDuration m = MinStepDuration cfg)
  /\ (SpeedWithAngular > 5 -> CurrentStepDuration m = CurrentStepLength m / SpeedWithAngular).
Proof.
  unfold UpdatePawnVariables. simpl.
  split; intros H.
  - now rewrite decide_False by lra.
  - now rewrite decide_True by lra.
Qed.

(** ** The reset *)

Lemma for_index_alter {A : Type} (proj : Node -> list A) (f : A -> A)
    (body : nat -> Node -> Node) :
  (forall i s, proj (body i s) = alter f i (proj s)) ->
  forall n s, proj (for_index n body s)
              = fold_left (fun l i => alter f i l) (seq 0 n) (proj s).
Proof.
  intros Hbody n. induction n as [|n IH]; intros s; [reflexivity|].
  rewrite for_index_S, seq_S, fold_left_app. simpl. now rewrite Hbody, IH.
Qed.

Lemma KeepsLocations_refl d : KeepsLocations d d.
Proof. now repeat split. Qed.

Lemma KeepsLocations_trans a b c :
  KeepsLocations a b -> KeepsLocations b c -> KeepsLocations a c.
Proof. unfold KeepsLocations. intros (H1 & H2 & H3) (H4 & H5 & H6). repeat split; congruence. Qed.

Lemma SetFeetTargetLocations_locations cfg w s :
  LegsRel KeepsLocations s (SetFeetTargetLocations cfg w s).
Proof.
  apply (for_index_rel (LegsRel KeepsLocations)).
  - apply LegsRel_refl, KeepsLocations_refl.
  - apply LegsRel_trans, KeepsLocations_trans.
  - intros i s0. apply LegsRel_of_Keep, LegsKeep_alter_leg; [apply KeepsLocations_refl|].
    intros d _. now repeat split.
Qed.

Lemma Reset_LegsData cfg w s :
  LegsData (ResetFeetTargetsAndLocations cfg w s)
  = fold_left (fun l i => alter (ResetLeg w) i l) (seq 0 (length (Legs cfg)))
      (LegsData (SetFeetTargetLocations cfg w s)).
Proof.
  unfold ResetFeetTargetsAndLocations.
  rewrite <- (for_index_alter LegsData (ResetLeg w) (ResetFoot w)) by reflexivity.
  set (s2 := for_index (length (Legs cfg)) (ResetFoot w) (SetFeetTargetLocations cfg w s)).
  transitivity (LegsData (with_CurrentGroupIndex s2 0)); [|reflexivity].
  apply (for_index_rel (fun s0 s1 => LegsData s1 = LegsData s0)); try congruence.
  reflexivity.
Qed.

Lemma fold_alter_length {A : Type} (f : A -> A) (n : nat) (l : list A) :
  length (fold_left (fun l i => alter f i l) (seq 0 n) l) = length l.
Proof.
  induction n as [|n IH]; [reflexivity|].
  rewrite seq_S, fold_left_app. simpl. now rewrite length_alter.
Qed.

Lemma Reset_length cfg w s :
  length (LegsData (ResetFeetTargetsAndLocations cfg w s)) = length (LegsData s).
Proof.
  rewrite Reset_LegsData, fold_alter_length.
  apply (LegsRel_length _ _ _ (SetFeetTargetLocations_locations cfg w s)).
Qed.

Lemma Reset_GroupsData cfg w s :
  GroupsData (ResetFeetTargetsAndLocations cfg w s)
  = fold_left (fun l i => alter (fun _ => {| bIsUnplanted := false; StepPercent := 0 |}) i l)
      (seq 0 (length (LegGroups cfg))) (GroupsData s).
Proof.
  unfold ResetFeetTargetsAndLocations.
  rewrite (for_index_alter GroupsData
             (fun _ => {| bIsUnplanted := false; StepPercent := 0 |}) ResetGroup);
    [|reflexivity].
  simpl.
  rewrite (LegsOnly_GroupsData _ _
             (LegsOnly_for_index (ResetFoot w) (fun i s0 => LegsOnly_alter_leg _ i s0) _ _)).
  now rewrite (LegsOnly_GroupsData _ _ (LegsOnly_SetFeetTargetLocations cfg w s)).
Qed.

Lemma Reset_CurrentGroupIndex cfg w s :
  CurrentGroupIndex (ResetFeetTargetsAndLocations cfg w s) = 0%nat.
Proof.
  unfold ResetFeetTargetsAndLocations.
  apply (for_index_rel (fun s0 s1 => CurrentGroupIndex s0 = 0%nat -> CurrentGroupIndex s1 = 0%nat));
    auto.
Qed.

Lemma Reset_leg cfg w s i :
  let d := LegsData (SetFeetTargetLocations cfg w s) !!! i in
  let d' := LegsData (ResetFeetTargetsAndLocations cfg w s) !!! i in
  if decide ((i < length (Legs cfg))%nat /\ (i < length (LegsData s))%nat)
  then d' = ResetLeg w d else d' = d.
Proof.
  intros d d'. unfold d', d. rewrite Reset_LegsData, !list_lookup_total_alt, fold_alter_seq.
  pose proof (LegsRel_length _ _ _ (SetFeetTargetLocations_locations cfg w s)) as Hlen.
  destruct (decide ((i < length (Legs cfg))%nat /\ (i < length (LegsData s))%nat))
    as [[Hi Hl]|Hout].
  - destruct (decide (i < length (Legs cfg))%nat); [|lia].
    rewrite <- Hlen in Hl. destruct (lookup_lt_is_Some_2 _ _ Hl) as [x ->]. reflexivity.
  - destruct (decide (i < length (Legs cfg))%nat) as [Hi|Hi]; [|reflexivity].
    assert (Hge : (length (LegsData (SetFeetTargetLocations cfg w s)) <= i)%nat) by lia.
    now rewrite (lookup_ge_None_2 _ _ Hge).
Qed.

(** C9.  Resetting twice in the same world leaves every leg's foot
    location and unplant location, the data of every group and the current
    group index as resetting once leaves them. *)
Theorem Reset_idempotent cfg w s :
  let once := ResetFeetTargetsAndLocations cfg w s in
  let twice := ResetFeetTargetsAndLocations cfg w once in
  (forall LegIndex,
     FootLocation (LegsData twice !!! LegIndex) = FootLocation (LegsData once !!! LegIndex)
     /\ FootUnplantLocation (LegsData twice !!! LegIndex)
        = FootUnplantLocation (LegsData once !!! LegIndex))
  /\ GroupsData twice = GroupsData once
  /\ CurrentGroupIndex twice = CurrentGroupIndex once.
Proof.
  intros once twice. split; [|split].
  - intros i.
    destruct (LegsRel_lookup _ _ _ i KeepsLocations_refl
                (SetFeetTargetLocations_locations cfg w once)) as (HT & HL & HU).
    pose proof (Reset_leg cfg w once i) as H2. fold twice in H2.
    pose proof (Reset_leg cfg w s i) as H1. fold once in H1.
    pose proof (Reset_length cfg w s) as Hlen. fold once in Hlen.
    simpl in H1, H2. rewrite Hlen in H2.
    destruct (decide ((i < length (Legs cfg))%nat /\ (i < length (LegsData s))%nat)).
    + rewrite H2, H1. unfold ResetLeg. simpl. rewrite HT, H1. simpl. auto.
    + rewrite H2. auto.
  - unfold twice. rewrite Reset_GroupsData. unfold once. rewrite Reset_GroupsData.
    apply list_eq. intros j. rewrite !fold_alter_seq.
    destruct (decide (j < length (LegGroups cfg))%nat); [|reflexivity].
    now destruct (GroupsData s !! j).
  - unfold twice, once. now rewrite !Reset_CurrentGroupIndex.
Qed.

Lemma Size_ge (v : FVector.t) (r : R) :
  0 <= r -> r * r <= FVector.SizeSquared v -> r <= FVector.Size v.
Proof.
  intros Hr H. unfold FVector.Size. rewrite <- (sqrt_square r Hr) at 1.
  now apply sqrt_le_1_alt.
Qed.

Lemma StepPercent_on_ground_witness :
  StepPercent (GroupsData (Pipeline TwoGroups TurningInPlace MidStride) !!! 0%nat) = 1.
Proof.
  assert (Hzero : CurrentStepDuration
                    (motion (UpdatePawnVariables TwoGroups TurningInPlace MidStride)) = 0).
  { apply UpdatePawnVariables_turning_in_place.
    - apply Size_le; [unfold SPEED_THRESHOLD_MIN; lra|].
      unfold FVector.SizeSquared, SPEED_THRESHOLD_MIN. simpl. lra.
    - simpl. rewrite NormalizeAxis_small by lra.
      rewrite Rabs_pos_eq by lra. lra. }
  destruct (StepPercent_on_ground TwoGroups TurningInPlace MidStride 0%nat)
    as (_ & _ & Hun & _).
  - reflexivity.
  - reflexivity.
  - simpl. lia.
  - simpl. lra.
  - simpl. lra.
  - destruct (Hun eq_refl) as [Hnew _]. rewrite Hnew, Hzero.
    now rewrite decide_True by reflexivity.
Defined.

Lemma unplant_fires_iff_witness :
  bIsUnplanted (GroupsData (SetCurrentGroupUnplanted TwoGroups LevelGroundTwo Standing) !!! 0%nat)
  = true
  /\ bIsUnplanted
       (GroupsData (SetCurrentGroupUnplanted ThreeGroups LevelGroundTwo WrapAround) !!! 0%nat)
     = false
  /\ SetCurrentGroupUnplanted TwoGroups LevelGroundTwo MidStride = MidStride.
Proof.
  split; [|split].
  - refine (proj2 (proj1 (unplant_fires_iff TwoGroups LevelGroundTwo Standing _ _ _)) _).
    + simpl. lia.
    + simpl. lia.
    + reflexivity.
    + split; [|now left].
      exists 0%nat. split; [now left|].
      apply Rle_ge. simpl. unfold FVector.Dist.
      apply Size_ge; [lra|]. unfold FVector.SizeSquared. simpl. lra.
  - destruct (unplant_fires_iff ThreeGroups LevelGroundTwo WrapAround) as [Hiff _].
    + simpl. lia.
    + simpl. lia.
    + reflexivity.
    + destruct (bIsUnplanted
                  (GroupsData (SetCurrentGroupUnplanted ThreeGroups LevelGroundTwo WrapAround)
                   !!! 0%nat)) eqn:E; [exfalso|reflexivity].
      apply Hiff in E. destruct E as [_ [Hp|[_ Hp]]].
      * simpl in Hp. discriminate.
      * simpl in Hp. lra.
  - refine (proj2 (proj2 (proj2 (unplant_fires_iff TwoGroups LevelGroundTwo MidStride _ _ _)))
              _ _ _ _).
    + simpl. lia.
    + simpl. lia.
    + reflexivity.
    + reflexivity.
    + reflexivity.
    + reflexivity.
    + simpl. lra.
Defined.

Lemma groups_plant_at_one_witness :
  let d' := LegsData (SetGroupsPlanted OneLeg MovingPlatform LandingOnPlatform) !!! 0%nat in
  bIsUnplanted (GroupsData (SetGroupsPlanted OneLeg MovingPlatform LandingOnPlatform) !!! 0%nat)
  = false
  /\ SupportComp d' = Some 7%nat
  /\ RelLocationToSupportComp d' = (FVector.Make 10 0 0 - FVector.Make 5 0 0)%V.
Proof.
  destruct (groups_plant_at_one OneLeg MovingPlatform LandingOnPlatform 0%nat)
    as (_ & _ & Hiff & Hrec & _).
  - simpl. lia.
  - simpl. lia.
  - split; [apply (Hiff eq_refl); reflexivity|].
    destruct (Hrec eq_refl eq_refl 0%nat) as (Hc & Hv & _).
    + simpl. now left.
    + simpl. lia.
    + split; [exact Hc|]. exact (proj1 (Hv eq_refl)).
Defined.

(** ** The shape of the node *)

Lemma Shape_refl s : Shape s s.
Proof. now repeat split. Qed.

Lemma Shape_trans s1 s2 s3 : Shape s1 s2 -> Shape s2 s3 -> Shape s1 s3.
Proof. intros (H1 & H2 & H3) (H4 & H5 & H6). repeat split; congruence. Qed.

Lemma Shape_alter_leg f i s : Shape s (alter_leg f i s).
Proof. repeat split. simpl. apply length_alter. Qed.

Lemma Shape_alter_group f i s : Shape s (alter_group f i s).
Proof. repeat split. simpl. apply length_alter. Qed.

Lemma Shape_for_each (body : nat -> Node -> Node) :
  (forall i s, Shape s (body i s)) -> forall l s, Shape s (for_each l body s).
Proof. intros H. apply for_each_rel; [apply Shape_refl|apply Shape_trans|exact H]. Qed.

Lemma Shape_for_index (body : nat -> Node -> Node) :
  (forall i s, Shape s (body i s)) -> forall n s, Shape s (for_index n body s).
Proof. intros H. apply for_index_rel; [apply Shape_refl|apply Shape_trans|exact H]. Qed.

Lemma Shape_CurrentGroupIndex s s' : Shape s s' -> CurrentGroupIndex s' = CurrentGroupIndex s.
Proof. intros [H _]. exact (f_equal CurrentGroupIndex H). Qed.

Lemma Shape_bIsFalling s s' : Shape s s' -> bIsFalling s' = bIsFalling s.
Proof. intros [H _]. exact (f_equal bIsFalling H). Qed.

Lemma Shape_SkippedFrames s s' : Shape s s' -> SkippedFrames s' = SkippedFrames s.
Proof. intros [H _]. exact (f_equal SkippedFrames H). Qed.

Lemma Shape_bIsInitialized s s' : Shape s s' -> bIsInitialized s' = bIsInitialized s.
Proof. intros [H _]. exact (f_equal bIsInitialized H). Qed.

Lemma Shape_motion s s' : Shape s s' -> motion s' = motion s.
Proof. intros [H _]. exact (f_equal motion H). Qed.

Lemma Shape_UnplantLeg w i s : Shape s (UnplantLeg w i s).
Proof.
  unfold UnplantLeg. eapply Shape_trans; [apply Shape_alter_leg|].
  apply Shape_alter_leg.
Qed.

Lemma Shape_ComputeFeetGroup cfg w g s : Shape s (ComputeFeetGroup cfg w g s).
Proof.
  unfold ComputeFeetGroup.
  destruct (bIsFalling s); [apply Shape_for_each; intros; apply Shape_alter_leg|].
  destruct (bIsUnplanted _).
  - eapply Shape_trans; [apply Shape_alter_group|].
    apply Shape_for_each. intros. apply Shape_alter_leg.
  - apply Shape_for_each. intros. apply Shape_alter_leg.
Qed.

Lemma Shape_ComputeFeet cfg w s : Shape s (ComputeFeet cfg w s).
Proof. apply Shape_for_index. intros. apply Shape_ComputeFeetGroup. Qed.

Lemma Shape_SetGroupPlanted cfg w g s : Shape s (SetGroupPlanted cfg w g s).
Proof.
  unfold SetGroupPlanted. destruct (_ && _); [|apply Shape_refl].
  eapply Shape_trans; [|apply Shape_alter_group].
  apply Shape_for_each. intros. apply Shape_alter_leg.
Qed.

Lemma Shape_SetGroupsPlanted cfg w s : Shape s (SetGroupsPlanted cfg w s).
Proof. apply Shape_for_index. intros. apply Shape_SetGroupPlanted. Qed.

Lemma Shape_SetSupportCompDeltas cfg w s : Shape s (SetSupportCompDeltas cfg w s).
Proof. apply Shape_for_index. intros. apply Shape_alter_leg. Qed.

Lemma Shape_SetFeetTargetLocations cfg w s : Shape s (SetFeetTargetLocations cfg w s).
Proof. apply Shape_for_index. intros. apply Shape_alter_leg. Qed.

Lemma mod_succ_wrap (i n : nat) :
  (i < n)%nat -> (if decide ((i + 1)%nat = n) then 0%nat else (i + 1)%nat) = ((i + 1) mod n)%nat.
Proof.
  intros Hi. destruct (decide ((i + 1)%nat = n)) as [E|E].
  - rewrite E. symmetry. apply Nat.Div0.mod_same.
  - symmetry. apply Nat.mod_small. lia.
Qed.

(** X1.  The current-group pointer is a round-robin pointer: a call of
    [SetCurrentGroupUnplanted] either changes nothing, or takes the current
    group from planted to unplanted and moves the pointer to the next group,
    wrapping after the last. *)
Theorem current_group_round_robin cfg w s :
  (CurrentGroupIndex s < length (LegGroups cfg))%nat ->
  (CurrentGroupIndex s < length (GroupsData s))%nat ->
  let s' := SetCurrentGroupUnplanted cfg w s in
  (CurrentGroupIndex s' < length (LegGroups cfg))%nat
  /\ (s' = s
      \/ (bIsUnplanted (GroupsData s !!! CurrentGroupIndex s) = false
          /\ bIsUnplanted (GroupsData s' !!! CurrentGroupIndex s) = true
          /\ CurrentGroupIndex s'
             = ((CurrentGroupIndex s + 1) mod length (LegGroups cfg))%nat)).
Proof.
  intros Hn Hl s'. unfold s'. destruct (Unplants cfg s) eqn:HU.
  - destruct (SetCurrentGroupUnplanted_fires cfg w s HU) as (EG & _ & _ & EC).
    rewrite EC, EG, mod_succ_wrap by exact Hn.
    split; [apply Nat.mod_upper_bound; lia|].
    right. rewrite list_lookup_total_alter_eq by exact Hl. simpl.
    split; [|auto]. unfold Unplants in HU.
    now destruct (bIsUnplanted (GroupsData s !!! CurrentGroupIndex s)).
  - rewrite SetCurrentGroupUnplanted_idle by exact HU. auto.
Qed.

Lemma Standing_unplants : Unplants TwoGroups Standing = true.
Proof.
  unfold Unplants, IsFootFarEnough. simpl.
  rewrite bool_decide_eq_true_2; [reflexivity|].
  apply Rle_ge. unfold FVector.Dist.
  apply Size_ge; [lra|]. unfold FVector.SizeSquared. simpl. lra.
Qed.

Lemma current_group_round_robin_witness :
  CurrentGroupIndex (SetCurrentGroupUnplanted TwoGroups LevelGroundTwo Standing) = 1%nat.
Proof.
  destruct (current_group_round_robin TwoGroups LevelGroundTwo Standing) as [_ [E|(_ & _ & E)]].
  - simpl. lia.
  - simpl. lia.
  - exfalso.
    destruct (SetCurrentGroupUnplanted_fires TwoGroups LevelGroundTwo Standing Standing_unplants)
      as (EG & _).
    rewrite E in EG. discriminate EG.
  - exact E.
Defined.

(** ** Falling *)

Lemma fold_alter_notin {A : Type} (f : A -> A) (l : list nat) : forall (xs : list A) (i : nat),
  ~ In i l -> fold_left (fun xs j => alter f j xs) l xs !! i = xs !! i.
Proof.
  induction l as [|j l IH]; intros xs i Hni; [reflexivity|]. simpl.
  rewrite IH by (intros H; apply Hni; now right).
  apply list_lookup_alter_ne. intros ->. apply Hni. now left.
Qed.

Lemma fold_alter_list_length {A : Type} (f : A -> A) (l : list nat) : forall (xs : list A),
  length (fold_left (fun xs j => alter f j xs) l xs) = length xs.
Proof.
  induction l as [|j l IH]; intros xs; [reflexivity|]. simpl.
  now rewrite IH, length_alter.
Qed.

Lemma fold_alter_member {A : Type} `{Inhabited A} (f : A -> A) :
  (forall x, f (f x) = f x) ->
  forall (l : list nat) (xs : list A) (i : nat),
    In i l -> (i < length xs)%nat ->
    fold_left (fun xs j => alter f j xs) l xs !!! i = f (xs !!! i).
Proof.
  intros Hf. induction l as [|j l IH]; intros xs i Hin Hi; [destruct Hin|]. simpl.
  destruct (in_dec Nat.eq_dec i l) as [Hl|Hl].
  - rewrite IH; [|exact Hl|now rewrite length_alter].
    destruct (decide (j = i)) as [->|Hne].
    + rewrite list_lookup_total_alter_eq by exact Hi. apply Hf.
    + now rewrite list_lookup_total_alter_ne.
  - destruct Hin as [->|Hin]; [|contradiction].
    rewrite !list_lookup_total_alt, fold_alter_notin by exact Hl.
    rewrite list_lookup_alter_eq.
    destruct (lookup_lt_is_Some_2 xs i Hi) as [x ->]. reflexivity.
Qed.

Lemma for_each_alter {A : Type} (proj : Node -> list A) (f : A -> A)
    (body : nat -> Node -> Node) :
  (forall i s, proj (body i s) = alter f i (proj s)) ->
  forall l s, proj (for_each l body s) = fold_left (fun xs i => alter f i xs) l (proj s).
Proof.
  intros Hbody l. unfold for_each.
  induction l as [|i l IH]; intros s; [reflexivity|]. simpl. now rewrite IH, Hbody.
Qed.

Lemma GroupedLegs_member cfg n g i :
  (g < n)%nat -> In i (LegIndices (LegGroups cfg !!! g)) -> In i (GroupedLegs cfg n).
Proof.
  intros Hg Hi. unfold GroupedLegs. apply in_concat.
  exists (LegIndices (LegGroups cfg !!! g)). split; [|exact Hi].
  apply in_map_iff. exists g. split; [reflexivity|]. apply in_seq. lia.
Qed.

Lemma ComputeFeetGroup_falling cfg w g s :
  bIsFalling s = true ->
  LegsOnly s (ComputeFeetGroup cfg w g s)
  /\ LegsData (ComputeFeetGroup cfg w g s)
     = fold_left (fun xs i => alter SnappedLeg i xs) (LegIndices (LegGroups cfg !!! g))
         (LegsData s).
Proof.
  intros Hf. unfold ComputeFeetGroup. rewrite Hf. split.
  - apply LegsOnly_for_each. intros. apply LegsOnly_alter_leg.
  - now apply (for_each_alter LegsData SnappedLeg).
Qed.

Lemma ComputeFeet_falling cfg w s :
  bIsFalling s = true ->
  LegsOnly s (ComputeFeet cfg w s)
  /\ LegsData (ComputeFeet cfg w s)
     = fold_left (fun xs i => alter SnappedLeg i xs)
         (GroupedLegs cfg (length (LegGroups cfg))) (LegsData s).
Proof.
  intros Hf. unfold ComputeFeet.
  induction (length (LegGroups cfg)) as [|n [IHo IHl]].
  - split; [apply LegsOnly_refl|reflexivity].
  - rewrite for_index_S.
    destruct (ComputeFeetGroup_falling cfg w n (for_index n (ComputeFeetGroup cfg w) s))
      as [Ho Hl]; [now rewrite (LegsOnly_bIsFalling _ _ IHo)|].
    split; [eapply LegsOnly_trans; eassumption|].
    rewrite Hl, IHl. unfold GroupedLegs.
    rewrite seq_S, map_app, concat_app, fold_left_app. simpl.
    now rewrite app_nil_r.
Qed.

Lemma SetCurrentGroupUnplanted_shape cfg w s :
  length (LegsData (SetCurrentGroupUnplanted cfg w s)) = length (LegsData s)
  /\ length (GroupsData (SetCurrentGroupUnplanted cfg w s)) = length (GroupsData s)
  /\ bIsFalling (SetCurrentGroupUnplanted cfg w s) = bIsFalling s
  /\ ((CurrentGroupIndex s < length (LegGroups cfg))%nat ->
      (CurrentGroupIndex (SetCurrentGroupUnplanted cfg w s) < length (LegGroups cfg))%nat).
Proof.
  destruct (Unplants cfg s) eqn:HU.
  - destruct (SetCurrentGroupUnplanted_fires cfg w s HU) as (EG & _ & EF & EC).
    rewrite EG, EF, EC, length_alter.
    split; [|split; [reflexivity|split; [reflexivity|]]].
    + unfold SetCurrentGroupUnplanted. unfold Unplants in HU.
      apply andb_true_iff in HU as [HU H3]. apply andb_true_iff in HU as [H1 H2].
      apply negb_true_iff in H1, H3. rewrite H1, H2, H3. simpl.
      match goal with |- context [for_each ?l ?b ?s1] =>
        destruct (Shape_for_each b (Shape_UnplantLeg w) l s1) as (_ & -> & _)
      end.
      reflexivity.
    + intros Hn. rewrite mod_succ_wrap by exact Hn. apply Nat.mod_upper_bound. lia.
  - rewrite SetCurrentGroupUnplanted_idle by exact HU. auto.
Qed.

Lemma Pipeline_shape cfg w s0 :
  length (LegsData (Pipeline cfg w s0)) = length (LegsData s0)
  /\ length (GroupsData (Pipeline cfg w s0)) = length (GroupsData s0)
  /\ bIsFalling (Pipeline cfg w s0) = bIsFalling s0
  /\ ((CurrentGroupIndex s0 < length (LegGroups cfg))%nat ->
      (CurrentGroupIndex (Pipeline cfg w s0) < length (LegGroups cfg))%nat).
Proof.
  unfold Pipeline.
  assert (H3 : Shape (UpdatePawnVariables cfg w s0) (BeforeGait cfg w s0)).
  { unfold BeforeGait. eapply Shape_trans;
      [apply Shape_SetSupportCompDeltas|apply Shape_SetFeetTargetLocations]. }
  destruct H3 as (E3 & L3 & G3).
  pose proof (f_equal bIsFalling E3) as F3. pose proof (f_equal CurrentGroupIndex E3) as C3.
  simpl in F3, C3, L3, G3.
  set (s3 := BeforeGait cfg w s0) in *.
  destruct (bIsFalling s3) eqn:Hf3.
  - destruct (Shape_ComputeFeet cfg w s3) as (E & L & G).
    pose proof (f_equal bIsFalling E) as F. pose proof (f_equal CurrentGroupIndex E) as C.
    simpl in F, C. simpl.
    rewrite L, G, F, C, L3, G3, Hf3, C3, <- F3. auto.
  - destruct (SetCurrentGroupUnplanted_shape cfg w s3) as (L4 & G4 & F4 & C4).
    set (s4 := SetCurrentGroupUnplanted cfg w s3) in *.
    destruct (Shape_trans _ _ _ (Shape_ComputeFeet cfg w s4)
                (Shape_SetGroupsPlanted cfg w _)) as (E & L & G).
    pose proof (f_equal bIsFalling E) as F. pose proof (f_equal CurrentGroupIndex E) as C.
    simpl in F, C. simpl.
    rewrite L, G, F, C, L4, G4, F4, L3, G3, Hf3, <- F3.
    repeat split; try reflexivity. intros Hn. apply C4. now rewrite C3.
Qed.

(** X2.  A tick keeps the node well formed: it never resizes the leg and group
    arrays, never changes the falling flag, and leaves the current-group
    pointer in range. *)
Theorem tick_keeps_shape cfg w s :
  let s' := Evaluate_Computations cfg w s in
  length (LegsData s') = length (LegsData s)
  /\ length (GroupsData s') = length (GroupsData s)
  /\ bIsFalling s' = bIsFalling s
  /\ ((CurrentGroupIndex s < length (LegGroups cfg))%nat ->
      (CurrentGroupIndex s' < length (LegGroups cfg))%nat).
Proof.
  intros s'. unfold s', Evaluate_Computations.
  destruct (decide (SkippedFrames s < FRAMES_TO_SKIP_ON_INIT)%nat); [simpl; auto|].
  destruct (decide (SkippedFrames s = FRAMES_TO_SKIP_ON_INIT)%nat); [|apply Pipeline_shape].
  destruct (Pipeline_shape cfg w
              (with_init (for_index (length (Legs cfg)) (InitLegData cfg w) s)
                 (FRAMES_TO_SKIP_ON_INIT + 1) true)) as (L & G & F & C).
  destruct (Shape_for_index (InitLegData cfg w) (fun i s0 => Shape_alter_leg _ i s0)
              (length (Legs cfg)) s) as (E0 & L0 & G0).
  pose proof (f_equal bIsFalling E0) as F0. pose proof (f_equal CurrentGroupIndex E0) as C0.
  simpl in *. rewrite L, G, F, L0, G0, F0.
  repeat split; try reflexivity. intros Hn. apply C. now rewrite C0.
Qed.

Lemma Pipeline_falling cfg w s :
  bIsFalling s = true ->
  GroupsData (Pipeline cfg w s) = GroupsData s
  /\ CurrentGroupIndex (Pipeline cfg w s) = CurrentGroupIndex s.
Proof.
  intros Hf. destruct (BeforeGait_frame cfg w s) as (HG & HC & HF & _).
  unfold Pipeline. rewrite HF, Hf.
  destruct (ComputeFeet_falling cfg w (BeforeGait cfg w s)) as [Ho _];
    [now rewrite HF|].
  change (GroupsData (ComputeFeet cfg w (BeforeGait cfg w s)) = GroupsData s
          /\ CurrentGroupIndex (ComputeFeet cfg w (BeforeGait cfg w s)) = CurrentGroupIndex s).
  now rewrite (LegsOnly_GroupsData _ _ Ho), (LegsOnly_CurrentGroupIndex _ _ Ho).
Qed.

(** X3.  While the pawn falls the gait is suspended: a tick changes neither the
    data of any group nor the current-group pointer. *)
Theorem falling_suspends_the_gait cfg w s :
  bIsFalling s = true ->
  GroupsData (Pipeline cfg w s) = GroupsData s
  /\ CurrentGroupIndex (Pipeline cfg w s) = CurrentGroupIndex s.
Proof. apply Pipeline_falling. Qed.

Lemma falling_suspends_the_gait_witness :
  GroupsData (Pipeline TwoGroups LevelGroundTwo FallingNode) = GroupsData FallingNode
  /\ CurrentGroupIndex (Pipeline TwoGroups LevelGroundTwo FallingNode) = 1%nat.
Proof. apply (falling_suspends_the_gait TwoGroups LevelGroundTwo FallingNode). reflexivity. Defined.

(** X4.  While the pawn falls, a tick ends with the foot of every leg that is
    listed in a group exactly on the target resolved in that tick. *)
Theorem falling_snaps_feet cfg w s g i :
  bIsFalling s = true ->
  (g < length (LegGroups cfg))%nat ->
  In i (LegIndices (LegGroups cfg !!! g)) ->
  (i < length (LegsData s))%nat ->
  let d' := LegsData (Pipeline cfg w s) !!! i in
  FootLocation d' = FootTarget d'
  /\ FootTarget d' = FootTarget (LegsData (BeforeGait cfg w s) !!! i).
Proof.
  intros Hf Hg Hin Hi d'. unfold d'.
  destruct (BeforeGait_frame cfg w s) as (_ & _ & HF & _).
  unfold Pipeline. rewrite HF, Hf.
  change (LegsData (ComputeBodyTransform cfg w (ComputeFeet cfg w (BeforeGait cfg w s))))
    with (LegsData (ComputeFeet cfg w (BeforeGait cfg w s))).
  destruct (ComputeFeet_falling cfg w (BeforeGait cfg w s)) as [_ ->]; [now rewrite HF|].
  rewrite (fold_alter_member SnappedLeg); [now split|reflexivity| |].
  - eapply GroupedLegs_member; eassumption.
  - assert (HS : Shape (UpdatePawnVariables cfg w s) (BeforeGait cfg w s)).
    { unfold BeforeGait. eapply Shape_trans;
        [apply Shape_SetSupportCompDeltas|apply Shape_SetFeetTargetLocations]. }
    destruct HS as (_ & -> & _). exact Hi.
Qed.

Lemma falling_snaps_feet_witness :
  FootLocation (LegsData (Pipeline TwoGroups LevelGroundTwo FallingNode) !!! 1%nat)
  = FootTarget (LegsData (Pipeline TwoGroups LevelGroundTwo FallingNode) !!! 1%nat).
Proof.
  refine (proj1 (falling_snaps_feet TwoGroups LevelGroundTwo FallingNode 1%nat 1%nat _ _ _ _)).
  - reflexivity.
  - simpl. lia.
  - simpl. now left.
  - simpl. lia.
Defined.

(** ** Falling and landing *)

Lemma Reset_frame cfg w s :
  SkippedFrames (ResetFeetTargetsAndLocations cfg w s) = SkippedFrames s
  /\ bIsFalling (ResetFeetTargetsAndLocations cfg w s) = bIsFalling s
  /\ length (GroupsData (ResetFeetTargetsAndLocations cfg w s)) = length (GroupsData s).
Proof.
  unfold ResetFeetTargetsAndLocations.
  set (s2 := for_index (length (Legs cfg)) (ResetFoot w) (SetFeetTargetLocations cfg w s)).
  pose proof (Shape_for_index ResetGroup (fun i s0 => Shape_alter_group _ i s0)
                (length (LegGroups cfg)) (with_CurrentGroupIndex s2 0)) as H3.
  pose proof (Shape_trans _ _ _ (Shape_SetFeetTargetLocations cfg w s)
                (Shape_for_index (ResetFoot w) (fun i s0 => Shape_alter_leg _ i s0)
                   (length (Legs cfg)) _)) as H2.
  fold s2 in H2.
  rewrite (Shape_SkippedFrames _ _ H3), (Shape_bIsFalling _ _ H3).
  destruct H3 as (_ & _ & ->). simpl.
  rewrite (Shape_SkippedFrames _ _ H2), (Shape_bIsFalling _ _ H2).
  destruct H2 as (_ & _ & ->). auto.
Qed.

Lemma Reset_group cfg w s g :
  (g < length (LegGroups cfg))%nat -> (g < length (GroupsData s))%nat ->
  GroupsData (ResetFeetTargetsAndLocations cfg w s) !!! g
  = {| bIsUnplanted := false; StepPercent := 0 |}.
Proof.
  intros Hg Hl. rewrite Reset_GroupsData. now rewrite fold_alter_seq_total.
Qed.

(** X5.  The tick on which a fall starts (the pawn is initialised, has lost its
    movement base and was not falling) ends with the node falling, the
    pointer on group 0 and every group planted with a step percent of 0. *)
Theorem fall_start_resets_the_gait cfg w s g :
  bIsInitialized s = true -> HasMovementBase w = false -> bIsFalling s = false ->
  (FRAMES_TO_SKIP_ON_INIT < SkippedFrames s)%nat ->
  (g < length (LegGroups cfg))%nat -> (g < length (GroupsData s))%nat ->
  let s' := EvaluateSkeletalControl_AnyThread cfg w s in
  bIsFalling s' = true
  /\ CurrentGroupIndex s' = 0%nat
  /\ GroupsData s' !!! g = {| bIsUnplanted := false; StepPercent := 0 |}.
Proof.
  intros Hinit Hbase Hf Hsk Hg Hl s'. unfold s', EvaluateSkeletalControl_AnyThread.
  rewrite Hinit, Hbase, Hf. simpl.
  set (s1 := with_bIsFalling (ResetFeetTargetsAndLocations cfg w s) true).
  destruct (Reset_frame cfg w s) as (ES & _ & _).
  unfold Evaluate_Computations.
  assert (E1 : SkippedFrames s1 = SkippedFrames s) by exact ES.
  destruct (decide (SkippedFrames s1 < FRAMES_TO_SKIP_ON_INIT)%nat); [lia|].
  destruct (decide (SkippedFrames s1 = FRAMES_TO_SKIP_ON_INIT)%nat); [lia|].
  destruct (Pipeline_falling cfg w s1 eq_refl) as (EG & EC).
  destruct (Pipeline_shape cfg w s1) as (_ & _ & EF & _).
  rewrite EG, EC, EF.
  split; [reflexivity|]. split; [apply Reset_CurrentGroupIndex|].
  now apply Reset_group.
Qed.

Lemma fall_start_resets_the_gait_witness :
  let s' := EvaluateSkeletalControl_AnyThread TwoGroups (NoMovementBase NoGround) MidStride in
  bIsFalling s' = true
  /\ CurrentGroupIndex s' = 0%nat
  /\ GroupsData s' !!! 0%nat = {| bIsUnplanted := false; StepPercent := 0 |}.
Proof.
  apply (fall_start_resets_the_gait TwoGroups (NoMovementBase NoGround) MidStride 0%nat);
    try reflexivity; simpl; unfold FRAMES_TO_SKIP_ON_INIT; lia.
Defined.

(** X6.  The tick on which the pawn lands (it is initialised, was falling and has
    a movement base again) ends with the node on the ground, and with every
    group but group 0 planted with a step percent of 0: only group 0, where
    the pointer is put, can start a step in that tick. *)
Theorem landing_restarts_from_group_0 cfg w s g :
  bIsInitialized s = true -> HasMovementBase w = true -> bIsFalling s = true ->
  (FRAMES_TO_SKIP_ON_INIT < SkippedFrames s)%nat ->
  length (GroupsData s) = length (LegGroups cfg) ->
  (0 < g < length (LegGroups cfg))%nat ->
  let s' := EvaluateSkeletalControl_AnyThread cfg w s in
  bIsFalling s' = false
  /\ GroupsData s' !!! g = {| bIsUnplanted := false; StepPercent := 0 |}.
Proof.
  intros Hinit Hbase Hf Hsk Hlen Hg s'. unfold s', EvaluateSkeletalControl_AnyThread.
  rewrite Hinit, Hbase, Hf. simpl.
  set (s1 := ResetFeetTargetsAndLocations cfg w (with_bIsFalling s false)).
  destruct (Reset_frame cfg w (with_bIsFalling s false)) as (ES & EF & EL).
  fold s1 in ES, EF, EL. simpl in ES, EF, EL.
  unfold Evaluate_Computations.
  destruct (decide (SkippedFrames s1 < FRAMES_TO_SKIP_ON_INIT)%nat); [lia|].
  destruct (decide (SkippedFrames s1 = FRAMES_TO_SKIP_ON_INIT)%nat); [lia|].
  destruct (Pipeline_shape cfg w s1) as (_ & _ & EF' & _).
  split; [now rewrite EF'|].
  rewrite Pipeline_groups; [|exact EF|now rewrite EL|lia].
  destruct (BeforeGait_frame cfg w s1) as (HG & HC & _ & _).
  assert (E : GroupsData (SetCurrentGroupUnplanted cfg w (BeforeGait cfg w s1)) !!! g
              = {| bIsUnplanted := false; StepPercent := 0 |}).
  { destruct (Unplants cfg (BeforeGait cfg w s1)) eqn:HU.
    - destruct (SetCurrentGroupUnplanted_fires cfg w _ HU) as (-> & _).
      rewrite HC, HG. unfold s1 at 1. rewrite Reset_CurrentGroupIndex.
      rewrite list_lookup_total_alter_ne by lia.
      apply Reset_group; simpl; lia.
    - rewrite SetCurrentGroupUnplanted_idle by exact HU. rewrite HG.
      apply Reset_group; simpl; lia. }
  rewrite E. reflexivity.
Qed.

Lemma landing_restarts_from_group_0_witness :
  let s' := EvaluateSkeletalControl_AnyThread TwoGroups LevelGroundTwo FallingNode in
  bIsFalling s' = false
  /\ GroupsData s' !!! 1%nat = {| bIsUnplanted := false; StepPercent := 0 |}.
Proof.
  apply (landing_restarts_from_group_0 TwoGroups LevelGroundTwo FallingNode 1%nat);
    try reflexivity; simpl; unfold FRAMES_TO_SKIP_ON_INIT; lia.
Defined.

(** ** Motion sampling *)

Lemma Lerp_between (a b c : R) :
  0 <= c <= 1 -> Rmin a b <= FMath.Lerp a b c <= Rmax a b.
Proof.
  intros Hc. unfold FMath.Lerp, Rmin, Rmax. destruct (Rle_dec a b); split; nra.
Qed.

Lemma MapRangeClamped_between (v inA inB outA outB : R) :
  Rmin outA outB <= UKismetMathLibrary.MapRangeClamped v inA inB outA outB <= Rmax outA outB.
Proof.
  unfold UKismetMathLibrary.MapRangeClamped, FMath.GetMappedRangeValueClamped.
  apply Lerp_between, Clamp_range. lra.
Qed.

Lemma ClampAxis_range (a : R) : 0 <= FMath.ClampAxis a < 360.
Proof.
  unfold FMath.ClampAxis. destruct (base_Int_part (a / 360)) as [H1 H2].
  replace a with (360 * (a / 360)) at 1 3 by (field; lra).
  split; nra.
Qed.

Lemma NormalizeAxis_range (a : R) : -180 < FMath.NormalizeAxis a <= 180.
Proof.
  unfold FMath.NormalizeAxis. pose proof (ClampAxis_range a) as [H1 H2].
  destruct (decide (FMath.ClampAxis a > 180)); lra.
Qed.

(** X7.  The metrics [UpdatePawnVariables] samples are bounded, whatever the pawn
    does: the speed is 0 or above the threshold, the forward and right
    percentages are in [-1, 1] and the yaw delta is in (-180, 180]. *)
Theorem motion_metrics_are_bounded cfg w s :
  let m := motion (UpdatePawnVariables cfg w s) in
  (Speed m = 0 \/ Speed m > SPEED_THRESHOLD_MIN)
  /\ -1 <= ForwardPercent m <= 1
  /\ -1 <= RightPercent m <= 1
  /\ -180 < YawDelta m <= 180.
Proof.
  unfold UpdatePawnVariables. simpl. split; [|split; [|split]].
  - destruct (bool_decide (FVector.Size (GetVelocity w) <= SPEED_THRESHOLD_MIN)) eqn:E;
      [now left|right]. apply bool_decide_eq_false in E. lra.
  - match goal with |- _ <= UKismetMathLibrary.MapRangeClamped ?v _ _ _ _ <= _ =>
      pose proof (MapRangeClamped_between v 0 180 1 (-1)) as H end.
    unfold Rmin, Rmax in H. destruct (Rle_dec 1 (-1)); lra.
  - match goal with |- _ <= UKismetMathLibrary.MapRangeClamped ?v _ _ _ _ <= _ =>
      pose proof (MapRangeClamped_between v 0 180 1 (-1)) as H end.
    unfold Rmin, Rmax in H. destruct (Rle_dec 1 (-1)); lra.
  - apply NormalizeAxis_range.
Qed.

(** X8.  Below the speed threshold the pawn has no direction of motion: the
    speed and both percentages are sampled as 0, whichever way it faces and
    whatever its residual velocity. *)
Theorem slow_pawn_has_no_direction cfg w s :
  FVector.Size (GetVelocity w) <= SPEED_THRESHOLD_MIN ->
  let m := motion (UpdatePawnVariables cfg w s) in
  Speed m = 0 /\ ForwardPercent m = 0 /\ RightPercent m = 0
  /\ PreviousSpeed m = 0.
Proof.
  intros Hv. unfold UpdatePawnVariables. simpl.
  rewrite bool_decide_eq_true_2 by exact Hv.
  rewrite Normalize_Zero, !DotProduct_Zero, percent_of_right_angle. auto.
Qed.

Lemma slow_pawn_has_no_direction_witness :
  let m := motion (UpdatePawnVariables TwoGroups Drifting Standing) in
  Speed m = 0 /\ ForwardPercent m = 0 /\ RightPercent m = 0 /\ PreviousSpeed m = 0.
Proof.
  apply (slow_pawn_has_no_direction TwoGroups Drifting Standing).
  apply Size_le; [unfold SPEED_THRESHOLD_MIN; lra|].
  unfold FVector.SizeSquared, SPEED_THRESHOLD_MIN. simpl. lra.
Defined.

Lemma Pipeline_motion cfg w s :
  motion (Pipeline cfg w s) = motion (UpdatePawnVariables cfg w s).
Proof.
  unfold Pipeline. destruct (BeforeGait_frame cfg w s) as (_ & _ & _ & HM).
  set (s3 := BeforeGait cfg w s) in *.
  change (motion (if bIsFalling s3 then ComputeFeet cfg w s3
                  else SetGroupsPlanted cfg w (ComputeFeet cfg w (SetCurrentGroupUnplanted cfg w s3)))
          = motion (UpdatePawnVariables cfg w s)).
  rewrite <- HM. destruct (bIsFalling s3).
  - apply Shape_motion, Shape_ComputeFeet.
  - rewrite (Shape_motion _ _ (Shape_trans _ _ _ (Shape_ComputeFeet cfg w _)
                                 (Shape_SetGroupsPlanted cfg w _))).
    destruct (Unplants cfg s3) eqn:HU.
    + now destruct (SetCurrentGroupUnplanted_fires cfg w s3 HU) as (_ & -> & _).
    + now rewrite SetCurrentGroupUnplanted_idle.
Qed.

(** X9.  With a minimum step duration and slope multipliers that are not
    negative, the step length and the step duration of a tick are not
    negative. *)
Theorem step_duration_is_not_negative cfg w s :
  0 <= MinStepDuration cfg ->
  0 <= ReduceSlopeMultiplierPitch (body s) -> 0 <= ReduceSlopeMultiplierRoll (body s) ->
  let m := motion (Pipeline cfg w s) in
  0 <= CurrentStepLength m /\ 0 <= CurrentStepDuration m.
Proof.
  intros Hmin Hp Hr m. unfold m. rewrite Pipeline_motion.
  split; [|now apply CurrentStepDuration_nonneg].
  unfold UpdatePawnVariables. simpl.
  apply Rmult_le_pos.
  - repeat apply Rplus_le_le_0_compat; apply Rabs_pos.
  - unfold GetReductionSlopeMultiplier. simpl.
    apply Rplus_le_le_0_compat; apply Rmult_le_pos; auto using Rabs_pos.
Qed.

Lemma step_duration_is_not_negative_witness :
  let m := motion (Pipeline TwoGroups LevelGroundTwo MidStride) in
  0 <= CurrentStepLength m /\ 0 <= CurrentStepDuration m.
Proof.
  apply (step_duration_is_not_negative TwoGroups LevelGroundTwo MidStride); simpl; lra.
Defined.

(** X10.  With a slope reduction multiplier that is not negative, the two slope
    multipliers a tick leaves are between one minus that multiplier and 1,
    whatever the feet do. *)
Theorem slope_multipliers_are_bounded cfg w s :
  0 <= StepSlopeReductionMultiplier cfg ->
  let b := body (Pipeline cfg w s) in
  1 - StepSlopeReductionMultiplier cfg <= ReduceSlopeMultiplierPitch b <= 1
  /\ 1 - StepSlopeReductionMultiplier cfg <= ReduceSlopeMultiplierRoll b <= 1.
Proof.
  intros H. unfold Pipeline, ComputeBodyTransform, ComputeBodyLocation, ComputeBodyRotation.
  simpl. split; now apply ReduceSlopeMultiplierOf_range.
Qed.

Lemma slope_multipliers_are_bounded_witness :
  let b := body (Pipeline TwoGroups LevelGroundTwo MidStride) in
  1 - 3 / 4 <= ReduceSlopeMultiplierPitch b <= 1
  /\ 1 - 3 / 4 <= ReduceSlopeMultiplierRoll b <= 1.
Proof.
  apply (slope_multipliers_are_bounded TwoGroups LevelGroundTwo MidStride). simpl. lra.
Defined.

(** ** Support deltas *)

Lemma sub_self (v : FVector.t) : (v - v)%V = FVector.Zero.
Proof. unfold FVector.sub, FVector.Zero. f_equal; ring. Qed.

Lemma SetSupportCompDeltas_leg cfg w s i :
  (i < length (Legs cfg))%nat -> (i < length (LegsData s))%nat ->
  LegsData (SetSupportCompDeltas cfg w s) !!! i = SupportCompDeltaOf w (LegsData s !!! i).
Proof.
  intros Hi Hl. unfold SetSupportCompDeltas.
  rewrite (for_index_alter LegsData (SupportCompDeltaOf w) (SetSupportCompDelta w))
    by reflexivity.
  now apply fold_alter_seq_total.
Qed.

Lemma SupportCompDeltaOf_twice w d :
  SupportCompDelta (SupportCompDeltaOf w (SupportCompDeltaOf w d)) = FVector.Zero.
Proof.
  unfold SupportCompDeltaOf. simpl.
  destruct (IsValid w (SupportComp d)); [apply sub_self|reflexivity].
Qed.

(** X11.  The support delta of a leg is zero when the leg has no valid support
    component, and whenever the deltas are sampled a second time in a world
    that has not changed: the motion of a surface is counted once. *)
Theorem support_delta_is_counted_once cfg w s i :
  (i < length (Legs cfg))%nat -> (i < length (LegsData s))%nat ->
  (IsValid w (SupportComp (LegsData s !!! i)) = false ->
   SupportCompDelta (LegsData (SetSupportCompDeltas cfg w s) !!! i) = FVector.Zero)
  /\ SupportCompDelta
       (LegsData (SetSupportCompDeltas cfg w (SetSupportCompDeltas cfg w s)) !!! i)
     = FVector.Zero.
Proof.
  intros Hi Hl. split.
  - intros Hv. rewrite SetSupportCompDeltas_leg by assumption.
    unfold SupportCompDeltaOf. simpl. now rewrite Hv.
  - rewrite SetSupportCompDeltas_leg; [|exact Hi|].
    + rewrite SetSupportCompDeltas_leg by assumption. apply SupportCompDeltaOf_twice.
    + destruct (Shape_SetSupportCompDeltas cfg w s) as (_ & -> & _). exact Hl.
Qed.

Lemma support_delta_is_counted_once_witness :
  SupportCompDelta (LegsData (SetSupportCompDeltas OneLeg MovingPlatform OnPlatform) !!! 0%nat)
  = (FVector.Zero + FVector.Make 5 0 0 - FVector.Zero)%V
  /\ SupportCompDelta
       (LegsData (SetSupportCompDeltas OneLeg MovingPlatform
                    (SetSupportCompDeltas OneLeg MovingPlatform OnPlatform)) !!! 0%nat)
     = FVector.Zero.
Proof.
  split; [reflexivity|].
  refine (proj2 (support_delta_is_counted_once OneLeg MovingPlatform OnPlatform 0%nat _ _));
    simpl; lia.
Defined.

(** ** The foothold search *)

Lemma FootHoldFold_spec w Anchor ZD (l : list FHitResult) : forall acc,
  let r := fold_left (FootHoldStep w Anchor ZD) l acc in
  fst r <= fst acc
  /\ (forall h, In h l -> FVector.Size (Anchor - ImpactPoint h)%V < ZD ->
        fst r <= FootHoldScore w Anchor h)
  /\ (r = acc
      \/ (In (snd r) l /\ FVector.Size (Anchor - ImpactPoint (snd r))%V < ZD
          /\ FootHoldScore w Anchor (snd r) = fst r /\ fst r < fst acc)).
Proof.
  induction l as [|h l IH]; intros acc; simpl.
  - split; [lra|]. split; [intros h []|now left].
  - destruct (IH (FootHoldStep w Anchor ZD acc h)) as (H1 & H2 & H3).
    assert (Hstep : fst (FootHoldStep w Anchor ZD acc h) <= fst acc
                    /\ (FVector.Size (Anchor - ImpactPoint h)%V < ZD ->
                        fst (FootHoldStep w Anchor ZD acc h) <= FootHoldScore w Anchor h)
                    /\ (FootHoldStep w Anchor ZD acc h = acc
                        \/ (FootHoldStep w Anchor ZD acc h = (FootHoldScore w Anchor h, h)
                            /\ FVector.Size (Anchor - ImpactPoint h)%V < ZD
                            /\ FootHoldScore w Anchor h < fst acc))).
    { unfold FootHoldStep. fold (FootHoldScore w Anchor h).
      destruct (decide (FVector.Size (Anchor - ImpactPoint h)%V < ZD)) as [Hd|Hd].
      - destruct (decide (FootHoldScore w Anchor h < fst acc)) as [Hs|Hs]; simpl.
        + split; [lra|]. split; [lra|]. right. auto.
        + split; [lra|]. split; [lra|]. now left.
      - split; [lra|]. split; [intros; contradiction|]. now left. }
    destruct Hstep as (S1 & S2 & S3).
    split; [lra|]. split.
    + intros h' [<-|Hin] Hd; [specialize (S2 Hd); lra|now apply H2].
    + destruct H3 as [E|(Hin & Hd & Hsc & Hlt)].
      * rewrite E. destruct S3 as [E'|(E' & Hd & Hlt)]; [left; exact E'|right].
        rewrite E'. simpl. auto.
      * right. split; [now right|]. split; [exact Hd|]. split; [exact Hsc|lra].
Qed.

(** X12.  The foothold search selects a candidate of lowest score: when the best
    foothold is a blocking hit, it is one of the candidates, it is strictly
    closer to the anchor than the line hit, its score is below twice the
    probe length, and no candidate closer than the line hit scores less. *)
Theorem best_foothold_has_lowest_score cfg w Anchor ZDistanceToLineHit FootHoldHits :
  let Best := FootHoldBestHit cfg w Anchor ZDistanceToLineHit FootHoldHits in
  bBlockingHit Best = true ->
  In Best FootHoldHits
  /\ FVector.Size (Anchor - ImpactPoint Best)%V < ZDistanceToLineHit
  /\ FootHoldScore w Anchor Best < (TraceLength cfg + TraceZOffset cfg) * 2
  /\ (forall h, In h FootHoldHits ->
        FVector.Size (Anchor - ImpactPoint h)%V < ZDistanceToLineHit ->
        FootHoldScore w Anchor Best <= FootHoldScore w Anchor h).
Proof.
  intros Best Hb. unfold Best, FootHoldBestHit in *.
  destruct (FootHoldFold_spec w Anchor ZDistanceToLineHit FootHoldHits
              ((TraceLength cfg + TraceZOffset cfg) * 2, FHitResult_Init))
    as (H1 & H2 & [E|(Hin & Hd & Hsc & Hlt)]).
  - rewrite E in Hb. discriminate.
  - simpl in Hlt. split; [exact Hin|]. split; [exact Hd|]. split; [lra|].
    intros h Hh Hdh. rewrite Hsc. now apply H2.
Qed.

Lemma best_foothold_has_lowest_score_witness :
  FootHoldBestHit OneLeg NoGround (FVector.Make 0 0 40) 100 TwoLedges
  = GroundHit (FVector.Make 0 0 0)
  /\ FootHoldScore NoGround (FVector.Make 0 0 40) (GroundHit (FVector.Make 0 0 0))
     <= FootHoldScore NoGround (FVector.Make 0 0 40)
          {| bBlockingHit := true; ImpactPoint := FVector.Make 0 0 10;
             ImpactNormal := FVector.Make 1 0 0; GetComponent := None |}.
Proof.
  assert (S30 : FVector.Size (FVector.mul (FVector.Make 0 0 40 - FVector.Make 0 0 10)%V
                                (FVector.Make 0 0 1)) = 30).
  { unfold FVector.Size, FVector.SizeSquared. simpl.
    replace (_ + _ + _) with (30 * 30) by ring. apply sqrt_square. lra. }
  assert (E : FootHoldBestHit OneLeg NoGround (FVector.Make 0 0 40) 100 TwoLedges
              = GroundHit (FVector.Make 0 0 0)).
  { unfold FootHoldBestHit, TwoLedges. simpl. unfold FootHoldStep at 2. simpl.
    rewrite decide_True
      by (apply Rle_lt_trans with 30; [apply Size_le; [lra|unfold FVector.SizeSquared; simpl; lra]|lra]).
    unfold FVector.DotProduct. simpl.
    rewrite S30.
    rewrite decide_True by lra.
    unfold FootHoldStep. simpl.
    rewrite decide_True
      by (apply Rle_lt_trans with 40; [apply Size_le; [lra|unfold FVector.SizeSquared; simpl; lra]|lra]).
    unfold FVector.DotProduct. simpl.
    rewrite decide_True; [reflexivity|]. nra. }
  split; [exact E|].
  rewrite <- E.
  refine (proj2 (proj2 (proj2 (best_foothold_has_lowest_score OneLeg NoGround
            (FVector.Make 0 0 40) 100 TwoLedges _))) _ _ _).
  - rewrite E. reflexivity.
  - now left.
  - simpl. apply Rle_lt_trans with 30;
      [apply Size_le; [lra|unfold FVector.SizeSquared; simpl; lra]|lra].
Defined.

(** ** Initialisation *)

Lemma InitLegData_other cfg w j i s :
  j <> i -> LegsData (InitLegData cfg w j s) !!! i = LegsData s !!! i.
Proof.
  intros Hne. unfold InitLegData, alter_leg. simpl.
  now rewrite list_lookup_total_alter_ne.
Qed.

Lemma InitLegData_length cfg w n s :
  length (LegsData (for_index n (InitLegData cfg w) s)) = length (LegsData s).
Proof.
  induction n as [|n IH]; [reflexivity|].
  rewrite for_index_S. unfold InitLegData at 1, alter_leg. simpl.
  now rewrite length_alter.
Qed.

Lemma InitLegData_frame cfg w n s :
  GroupsData (for_index n (InitLegData cfg w) s) = GroupsData s
  /\ CurrentGroupIndex (for_index n (InitLegData cfg w) s) = CurrentGroupIndex s
  /\ bIsFalling (for_index n (InitLegData cfg w) s) = bIsFalling s.
Proof.
  induction n as [|n IH]; [auto|].
  rewrite for_index_S. exact IH.
Qed.

(** X13.  The initialisation loop classifies every leg on both axes: a leg is
    forward or backwards, and right or left, and both at once when its
    attachment is within 0.001 of the centre line; its foot and its target
    start at its resting position, which lies [OwnerHalfHeight] below the
    actor, and its rest length is the height of its attachment above it. *)
Theorem init_classifies_every_leg cfg w s i :
  (i < length (Legs cfg))%nat -> (i < length (LegsData s))%nat ->
  let Attach :=
    (GetSocketRelLocation w (ParentBone (Legs cfg !!! i)) + Offset (Legs cfg !!! i))%V in
  let d' := LegsData (for_index (length (Legs cfg)) (InitLegData cfg w) s) !!! i in
  (bIsForward d' = true \/ bIsBackwards d' = true)
  /\ (bIsRight d' = true \/ bIsLeft d' = true)
  /\ (Rabs (FVector.X Attach) <= / 1000 -> bIsForward d' = true /\ bIsBackwards d' = true)
  /\ (Rabs (FVector.Y Attach) <= / 1000 -> bIsRight d' = true /\ bIsLeft d' = true)
  /\ Length d' = FVector.Z Attach + OwnerHalfHeight cfg
  /\ FootTarget d' = TransformPosition (GetActorTransform w) (TipBoneOriginalRelLocation d')
  /\ FootLocation d' = FootTarget d'
  /\ FVector.Z (TipBoneOriginalRelLocation d') = - OwnerHalfHeight cfg.
Proof.
  intros Hi Hl Attach d'. unfold d'. clear d'.
  generalize (length (Legs cfg)) Hi. intros n. induction n as [|n IH]; [lia|].
  intros Hn. rewrite for_index_S.
  destruct (decide (n = i)) as [->|Hne].
  2:{ rewrite InitLegData_other by exact Hne. apply IH. lia. }
  unfold InitLegData at 1, alter_leg. simpl LegsData.
  rewrite list_lookup_total_alter_eq by (rewrite InitLegData_length; exact Hl).
  unfold Attach. simpl. unfold FMath.IsNearlyEqual. rewrite !Rminus_0_r.
  assert (HX : forall x, (if bool_decide (Rabs x <= / 1000) then true else bool_decide (x > 0)) = true
                         \/ (if bool_decide (Rabs x <= / 1000) then true else bool_decide (x < 0)) = true).
  { intros x. destruct (bool_decide (Rabs x <= / 1000)) eqn:E; [now left|].
    apply bool_decide_eq_false in E.
    destruct (Rlt_dec 0 x) as [Hx|Hx].
    - left. now apply bool_decide_eq_true.
    - right. apply bool_decide_eq_true.
      destruct (Req_dec x 0) as [->|Hne]; [|lra].
      exfalso. apply E. rewrite Rabs_R0. lra. }
  split; [apply HX|]. split; [apply HX|].
  split; [intros H; now rewrite bool_decide_eq_true_2 by exact H|].
  split; [intros H; now rewrite bool_decide_eq_true_2 by exact H|].
  split; [ring|]. auto.
Qed.

Lemma init_classifies_every_leg_witness :
  let d' := LegsData (for_index (length (Legs OneLeg)) (InitLegData OneLeg NoGround)
                        PlantedNode) !!! 0%nat in
  bIsForward d' = true /\ bIsBackwards d' = true.
Proof.
  refine (proj1 (proj2 (proj2 (init_classifies_every_leg OneLeg NoGround PlantedNode 0%nat
                                 _ _))) _).
  - simpl. lia.
  - simpl. lia.
  - simpl. replace (0 + 0) with 0 by ring. rewrite Rabs_R0. lra.
Defined.

Lemma SetCurrentGroupUnplanted_counters cfg w s :
  SkippedFrames (SetCurrentGroupUnplanted cfg w s) = SkippedFrames s
  /\ bIsInitialized (SetCurrentGroupUnplanted cfg w s) = bIsInitialized s.
Proof.
  destruct (Unplants cfg s) eqn:HU.
  - unfold SetCurrentGroupUnplanted. unfold Unplants in HU.
    apply andb_true_iff in HU as [HU H3]. apply andb_true_iff in HU as [H1 H2].
    apply negb_true_iff in H1, H3. rewrite H1, H2, H3. simpl.
    match goal with |- context [for_each ?l ?b ?s1] =>
      pose proof (Shape_for_each b (Shape_UnplantLeg w) l s1) as HS
    end.
    rewrite (Shape_SkippedFrames _ _ HS), (Shape_bIsInitialized _ _ HS). auto.
  - rewrite SetCurrentGroupUnplanted_idle by exact HU. auto.
Qed.

Lemma Pipeline_counters cfg w s :
  SkippedFrames (Pipeline cfg w s) = SkippedFrames s
  /\ bIsInitialized (Pipeline cfg w s) = bIsInitialized s.
Proof.
  unfold Pipeline.
  assert (H3 : Shape (UpdatePawnVariables cfg w s) (BeforeGait cfg w s)).
  { unfold BeforeGait. eapply Shape_trans;
      [apply Shape_SetSupportCompDeltas|apply Shape_SetFeetTargetLocations]. }
  pose proof (Shape_SkippedFrames _ _ H3) as K3.
  pose proof (Shape_bIsInitialized _ _ H3) as I3. simpl in K3, I3.
  set (s3 := BeforeGait cfg w s) in *.
  change (SkippedFrames (if bIsFalling s3 then ComputeFeet cfg w s3
            else SetGroupsPlanted cfg w (ComputeFeet cfg w (SetCurrentGroupUnplanted cfg w s3)))
          = SkippedFrames s
          /\ bIsInitialized (if bIsFalling s3 then ComputeFeet cfg w s3
            else SetGroupsPlanted cfg w (ComputeFeet cfg w (SetCurrentGroupUnplanted cfg w s3)))
          = bIsInitialized s).
  rewrite <- K3, <- I3. destruct (bIsFalling s3).
  - split; [apply Shape_SkippedFrames|apply Shape_bIsInitialized]; apply Shape_ComputeFeet.
  - destruct (SetCurrentGroupUnplanted_counters cfg w s3) as [K4 I4].
    rewrite <- K4, <- I4.
    split; [apply Shape_SkippedFrames|apply Shape_bIsInitialized];
      (eapply Shape_trans; [apply Shape_ComputeFeet|apply Shape_SetGroupsPlanted]).
Qed.

(** ** What a tick never changes *)

Lemma KeepsStatic_refl d : KeepsStatic d d.
Proof. now repeat split. Qed.

Lemma KeepsStatic_trans a b c : KeepsStatic a b -> KeepsStatic b c -> KeepsStatic a c.
Proof.
  unfold KeepsStatic.
  intros (A1 & A2 & A3 & A4 & A5 & A6 & A7) (B1 & B2 & B3 & B4 & B5 & B6 & B7).
  repeat split; congruence.
Qed.

Lemma LegsRel_same (Rel : FLegData -> FLegData -> Prop) s s' :
  (forall d, Rel d d) -> LegsData s' = LegsData s -> LegsRel Rel s s'.
Proof.
  intros Hrefl E. unfold LegsRel. rewrite E.
  apply (LegsRel_refl Rel Hrefl s).
Qed.

Lemma Static_alter_leg f i s :
  (forall d, KeepsStatic d (f d)) -> LegsRel KeepsStatic s (alter_leg f i s).
Proof.
  intros Hf. apply LegsRel_of_Keep, LegsKeep_alter_leg; [apply KeepsStatic_refl|].
  intros d _. apply Hf.
Qed.

Lemma Static_for_each body :
  (forall i s, LegsRel KeepsStatic s (body i s)) ->
  forall l s, LegsRel KeepsStatic s (for_each l body s).
Proof.
  intros H. apply (for_each_rel (LegsRel KeepsStatic)).
  - apply LegsRel_refl, KeepsStatic_refl.
  - apply LegsRel_trans, KeepsStatic_trans.
  - exact H.
Qed.

Lemma Static_for_index body :
  (forall i s, LegsRel KeepsStatic s (body i s)) ->
  forall n s, LegsRel KeepsStatic s (for_index n body s).
Proof. intros H n s. now apply (Static_for_each body). Qed.

Lemma Static_trans s1 s2 s3 :
  LegsRel KeepsStatic s1 s2 -> LegsRel KeepsStatic s2 s3 -> LegsRel KeepsStatic s1 s3.
Proof. apply LegsRel_trans, KeepsStatic_trans. Qed.

Lemma Static_UnplantLeg w i s : LegsRel KeepsStatic s (UnplantLeg w i s).
Proof.
  unfold UnplantLeg, SetSupportComponentData.
  eapply Static_trans; apply Static_alter_leg; intros d; now repeat split.
Qed.

Lemma Static_SetCurrentGroupUnplanted cfg w s :
  LegsRel KeepsStatic s (SetCurrentGroupUnplanted cfg w s).
Proof.
  destruct (Unplants cfg s) eqn:HU.
  - unfold SetCurrentGroupUnplanted. unfold Unplants in HU.
    apply andb_true_iff in HU as [HU H3]. apply andb_true_iff in HU as [H1 H2].
    apply negb_true_iff in H1, H3. rewrite H1, H2, H3. simpl.
    match goal with |- context [for_each ?l ?b ?s1] =>
      pose proof (Static_for_each b (Static_UnplantLeg w) l s1) as HS
    end.
    exact HS.
  - rewrite SetCurrentGroupUnplanted_idle by exact HU.
    apply LegsRel_refl, KeepsStatic_refl.
Qed.

Lemma Static_ComputeFeet cfg w s : LegsRel KeepsStatic s (ComputeFeet cfg w s).
Proof.
  apply Static_for_index. intros g s0. unfold ComputeFeetGroup.
  destruct (bIsFalling s0).
  - apply Static_for_each. intros i s1. apply Static_alter_leg. intros d. now repeat split.
  - destruct (bIsUnplanted (GroupsData s0 !!! g)).
    + match goal with |- LegsRel _ _ (for_each ?l ?b ?s1) =>
        apply (Static_trans s0 s1); [apply LegsRel_same; [apply KeepsStatic_refl|reflexivity]|]
      end.
      apply Static_for_each. intros i s1. apply Static_alter_leg. intros d. now repeat split.
    + apply Static_for_each. intros i s1. apply Static_alter_leg. intros d.
      simpl. destruct (decide _); now repeat split.
Qed.

Lemma Static_SetGroupsPlanted cfg w s : LegsRel KeepsStatic s (SetGroupsPlanted cfg w s).
Proof.
  apply Static_for_index. intros g s0. unfold SetGroupPlanted.
  destruct (_ && _); [|apply LegsRel_refl, KeepsStatic_refl].
  match goal with |- LegsRel _ _ (alter_group _ _ ?s1) =>
    apply (Static_trans s0 s1); [|apply LegsRel_same; [apply KeepsStatic_refl|reflexivity]]
  end.
  apply Static_for_each. intros i s1. apply Static_alter_leg. intros d. now repeat split.
Qed.

Lemma Static_BeforeGait cfg w s : LegsRel KeepsStatic s (BeforeGait cfg w s).
Proof.
  unfold BeforeGait.
  apply (Static_trans s (UpdatePawnVariables cfg w s));
    [apply LegsRel_same; [apply KeepsStatic_refl|reflexivity]|].
  apply (Static_trans _ (SetSupportCompDeltas cfg w (UpdatePawnVariables cfg w s))).
  - apply (Static_for_index (SetSupportCompDelta w)). intros i s0.
    apply Static_alter_leg. intros d. now repeat split.
  - apply (Static_for_index (SetFootTargetLocation cfg w)). intros i s0.
    apply Static_alter_leg. intros d. now repeat split.
Qed.

Lemma Static_Pipeline cfg w s : LegsRel KeepsStatic s (Pipeline cfg w s).
Proof.
  unfold Pipeline.
  match goal with |- LegsRel _ _ (ComputeBodyTransform _ _ ?s4) =>
    apply (Static_trans s s4); [|apply LegsRel_same; [apply KeepsStatic_refl|reflexivity]]
  end.
  eapply Static_trans; [apply Static_BeforeGait|].
  destruct (bIsFalling _).
  - apply Static_ComputeFeet.
  - eapply Static_trans; [apply Static_SetCurrentGroupUnplanted|].
    eapply Static_trans; [apply Static_ComputeFeet|apply Static_SetGroupsPlanted].
Qed.

Lemma Static_Reset cfg w s :
  LegsRel KeepsStatic s (ResetFeetTargetsAndLocations cfg w s).
Proof.
  unfold ResetFeetTargetsAndLocations.
  match goal with |- LegsRel _ _ (for_index ?n ?b ?s3) =>
    apply (Static_trans s s3);
      [|unfold LegsRel;
        rewrite (for_index_rel (fun x y => LegsData y = LegsData x) b
                   ltac:(reflexivity) ltac:(congruence) ltac:(reflexivity) n s3);
        apply (LegsRel_refl KeepsStatic KeepsStatic_refl)]
  end.
  match goal with |- LegsRel _ _ (with_CurrentGroupIndex ?s2 _) =>
    apply (Static_trans s s2); [|apply LegsRel_same; [apply KeepsStatic_refl|reflexivity]]
  end.
  apply (Static_trans _ (SetFeetTargetLocations cfg w s)).
  - apply (Static_for_index (SetFootTargetLocation cfg w)). intros i s0.
    apply Static_alter_leg. intros d. now repeat split.
  - apply (Static_for_index (ResetFoot w)). intros i s0.
    apply Static_alter_leg. intros d. now repeat split.
Qed.

(** X15.  Once the legs are initialised, no evaluation of the node ever changes
    what the initialisation computed of a leg: its rest length, its resting
    position, its group and its four direction flags; neither the gait nor
    the reset at a fall or a landing touches them. *)
Theorem initialised_leg_data_is_frozen cfg w s i :
  (FRAMES_TO_SKIP_ON_INIT < SkippedFrames s)%nat ->
  KeepsStatic (LegsData s !!! i)
              (LegsData (EvaluateSkeletalControl_AnyThread cfg w s) !!! i).
Proof.
  intros Hk. apply (LegsRel_lookup KeepsStatic); [apply KeepsStatic_refl|].
  unfold EvaluateSkeletalControl_AnyThread.
  match goal with |- LegsRel _ _ (Evaluate_Computations _ _ ?s1) =>
    assert (H1 : LegsRel KeepsStatic s s1 /\ SkippedFrames s1 = SkippedFrames s);
      [|set (t := s1) in *]
  end.
  { destruct (bIsInitialized s); [|split; [apply LegsRel_refl, KeepsStatic_refl|reflexivity]].
    destruct (HasMovementBase w), (bIsFalling s); simpl;
      try (split; [apply LegsRel_refl, KeepsStatic_refl|reflexivity]).
    - split.
      + apply (Static_Reset cfg w (with_bIsFalling s false)).
      + now destruct (Reset_frame cfg w (with_bIsFalling s false)) as (? & ? & ?).
    - split.
      + apply (Static_trans s (ResetFeetTargetsAndLocations cfg w s));
          [apply Static_Reset|apply LegsRel_same; [apply KeepsStatic_refl|reflexivity]].
      + now destruct (Reset_frame cfg w s) as (? & ? & ?). }
  destruct H1 as [H1 K1].
  eapply Static_trans; [exact H1|].
  unfold Evaluate_Computations. rewrite K1.
  destruct (decide _); [lia|]. destruct (decide _); [lia|].
  apply Static_Pipeline.
Qed.

Lemma initialised_leg_data_is_frozen_witness :
  KeepsStatic (LegsData MidStride !!! 0%nat)
    (LegsData (EvaluateSkeletalControl_AnyThread TwoGroups LevelGroundTwo MidStride) !!! 0%nat).
Proof.
  apply initialised_leg_data_is_frozen. unfold FRAMES_TO_SKIP_ON_INIT. simpl. lia.
Defined.

Lemma ticks_after_initialisation cfg (ws : list World) : forall s,
  (FRAMES_TO_SKIP_ON_INIT < SkippedFrames s)%nat ->
  let s' := fold_left (fun s w => Evaluate_Computations cfg w s) ws s in
  SkippedFrames s' = SkippedFrames s /\ bIsInitialized s' = bIsInitialized s
  /\ LegsRel KeepsStatic s s'.
Proof.
  induction ws as [|w ws IH]; intros s Hk s'.
  - split; [reflexivity|]. split; [reflexivity|]. apply LegsRel_refl, KeepsStatic_refl.
  - assert (E : Evaluate_Computations cfg w s = Pipeline cfg w s).
    { unfold Evaluate_Computations.
      destruct (decide _); [lia|]. destruct (decide _); [lia|]. reflexivity. }
    destruct (Pipeline_counters cfg w s) as [HK HI].
    destruct (IH (Pipeline cfg w s)) as (IK & II & IS); [now rewrite HK|].
    assert (Es : s' = fold_left (fun s w => Evaluate_Computations cfg w s) ws
                        (Pipeline cfg w s)).
    { unfold s'. cbn [fold_left]. now rewrite E. }
    rewrite Es.
    split; [now rewrite <- HK|]. split; [now rewrite <- HI|].
    eapply Static_trans; [apply Static_Pipeline|exact IS].
Qed.

(** X14.  A node that has evaluated no frame yet lets two ticks pass
    untouched, only counting them, whatever the world shows; on the third
    tick it initialises its legs from the world of that tick and runs the
    pipeline; and from then on, however the world changes from one tick to
    the next, it stays initialised with the counter at three and never
    initialises a leg again: the rest length, the resting position, the
    group and the direction flags of every leg stay as the third tick left
    them. *)
Theorem initialisation_takes_three_ticks cfg s (w1 w2 w3 : World) (ws : list World) (i : nat) :
  SkippedFrames s = 0%nat ->
  let s2 := Evaluate_Computations cfg w2 (Evaluate_Computations cfg w1 s) in
  let s3 := Evaluate_Computations cfg w3 s2 in
  let s' := fold_left (fun s w => Evaluate_Computations cfg w s) ws s3 in
  s2 = with_init s 2 (bIsInitialized s)
  /\ s3 = Pipeline cfg w3
            (with_init (for_index (length (Legs cfg)) (InitLegData cfg w3) s2) 3 true)
  /\ SkippedFrames s' = 3%nat
  /\ bIsInitialized s' = true
  /\ KeepsStatic (LegsData s3 !!! i) (LegsData s' !!! i).
Proof.
  intros H0 s2 s3 s'.
  assert (E2 : s2 = with_init s 2 (bIsInitialized s)).
  { unfold s2, Evaluate_Computations, FRAMES_TO_SKIP_ON_INIT. rewrite H0. simpl.
    reflexivity. }
  assert (E3 : s3 = Pipeline cfg w3
                      (with_init (for_index (length (Legs cfg)) (InitLegData cfg w3) s2)
                         3 true)).
  { unfold s3. rewrite E2. unfold Evaluate_Computations, FRAMES_TO_SKIP_ON_INIT. simpl.
    reflexivity. }
  split; [exact E2|]. split; [exact E3|].
  assert (K3 : SkippedFrames s3 = 3%nat /\ bIsInitialized s3 = true).
  { rewrite E3.
    destruct (Pipeline_counters cfg w3
                (with_init (for_index (length (Legs cfg)) (InitLegData cfg w3) s2) 3 true))
      as [-> ->].
    auto. }
  destruct K3 as [K3 I3].
  destruct (ticks_after_initialisation cfg ws s3) as (HK & HI & HS).
  { rewrite K3. unfold FRAMES_TO_SKIP_ON_INIT. lia. }
  fold s' in HK, HI, HS. rewrite HK, HI, K3, I3.
  split; [reflexivity|]. split; [reflexivity|].
  apply (LegsRel_lookup KeepsStatic); [apply KeepsStatic_refl|exact HS].
Qed.

Lemma initialisation_takes_three_ticks_witness :
  SkippedFrames
    (fold_left (fun s w => Evaluate_Computations OneLeg w s) [LevelGround; TurningInPlace]
       (Evaluate_Computations OneLeg NoGround
          (Evaluate_Computations OneLeg LevelGround
             (Evaluate_Computations OneLeg NoGround (with_init PlantedNode 0 false)))))
  = 3%nat.
Proof.
  destruct (initialisation_takes_three_ticks OneLeg (with_init PlantedNode 0 false)
              NoGround LevelGround NoGround [LevelGround; TurningInPlace] 0%nat eq_refl)
    as (_ & _ & H & _).
  exact H.
Defined.

(** ** Unplanting *)

Lemma UnplantLeg_LegsData w i s :
  LegsData (UnplantLeg w i s) = alter (UnplantedLeg w) i (LegsData s).
Proof.
  unfold UnplantLeg, SetSupportComponentData, alter_leg. simpl.
  apply list_eq. intros k.
  destruct (decide (i = k)) as [->|Hne].
  - rewrite !list_lookup_alter_eq.
    rewrite list_lookup_total_alt, list_lookup_alter_eq.
    destruct (LegsData s !! k); reflexivity.
  - now rewrite !list_lookup_alter_ne.
Qed.

Lemma UnplantedLeg_idem w d : UnplantedLeg w (UnplantedLeg w d) = UnplantedLeg w d.
Proof.
  unfold UnplantedLeg, SupportComponentData. simpl.
  destruct (IsValid w (GetComponent (LastHit d))); reflexivity.
Qed.

Lemma SetCurrentGroupUnplanted_legs cfg w s :
  Unplants cfg s = true ->
  LegsData (SetCurrentGroupUnplanted cfg w s)
  = fold_left (fun xs j => alter (UnplantedLeg w) j xs)
      (LegIndices (LegGroups cfg !!! CurrentGroupIndex s)) (LegsData s).
Proof.
  intros HU. unfold SetCurrentGroupUnplanted. unfold Unplants in HU.
  apply andb_true_iff in HU as [HU H3]. apply andb_true_iff in HU as [H1 H2].
  apply negb_true_iff in H1, H3. rewrite H1, H2, H3. simpl.
  now rewrite (for_each_alter LegsData (UnplantedLeg w) (UnplantLeg w) (UnplantLeg_LegsData w)).
Qed.

(** X16.  When the current group unplants, each of its feet is anchored where it
    stands: the foot location is recorded as the location the swing starts
    from, the foot and its target do not move, and the support component
    becomes the component of the last hit, with the foot located in its
    frame when that component is valid.  The legs of the other groups are
    left as they were. *)
Theorem unplanting_anchors_the_feet cfg w s i :
  Unplants cfg s = true ->
  (i < length (LegsData s))%nat ->
  let d := LegsData s !!! i in
  let d' := LegsData (SetCurrentGroupUnplanted cfg w s) !!! i in
  let comp := GetComponent (LastHit d) in
  (In i (LegIndices (LegGroups cfg !!! CurrentGroupIndex s)) ->
     FootUnplantLocation d' = FootLocation d
     /\ FootLocation d' = FootLocation d
     /\ FootTarget d' = FootTarget d
     /\ SupportComp d' = comp
     /\ (IsValid w comp = true ->
         RelLocationToSupportComp d'
         = InverseTransformPosition (ComponentTransform w comp) (FootLocation d)
         /\ SupportCompPreviousTransform d' = ComponentTransform w comp)
     /\ (IsValid w comp = false ->
         RelLocationToSupportComp d' = RelLocationToSupportComp d
         /\ SupportCompPreviousTransform d' = SupportCompPreviousTransform d))
  /\ (~ In i (LegIndices (LegGroups cfg !!! CurrentGroupIndex s)) -> d' = d).
Proof.
  intros HU Hi d d' comp. unfold d'.
  rewrite (SetCurrentGroupUnplanted_legs cfg w s HU). split.
  - intros Hin.
    rewrite (fold_alter_member (UnplantedLeg w) (UnplantedLeg_idem w) _ _ _ Hin Hi).
    fold d. unfold UnplantedLeg, SupportComponentData. simpl. fold comp.
    do 4 (split; [reflexivity|]).
    split; intros ->; split; reflexivity.
  - intros Hni. unfold d.
    rewrite (list_lookup_total_alt (fold_left _ _ _)), (list_lookup_total_alt (LegsData s)).
    now rewrite fold_alter_notin by exact Hni.
Qed.

Lemma unplanting_anchors_the_feet_witness :
  FootUnplantLocation (LegsData (SetCurrentGroupUnplanted TwoGroups LevelGroundTwo Standing)
                         !!! 0%nat)
  = FootLocation (LegsData Standing !!! 0%nat).
Proof.
  refine (proj1 (proj1 (unplanting_anchors_the_feet TwoGroups LevelGroundTwo Standing 0%nat
                          Standing_unplants _) _)).
  - simpl. lia.
  - simpl. now left.
Defined.

(** ** Legs a loop does not visit *)

Lemma for_each_inv_in (P : Node -> Prop) (body : nat -> Node -> Node) (l : list nat) :
  (forall j s, In j l -> P s -> P (body j s)) ->
  forall s, P s -> P (for_each l body s).
Proof.
  unfold for_each. induction l as [|j l IH]; intros Hb s Hs; simpl; [exact Hs|].
  apply IH.
  - intros k s0 Hk. apply Hb. now right.
  - apply Hb; [now left|exact Hs].
Qed.

Lemma for_each_legs_notin (F : nat -> FLegData -> FLegData) (l : list nat) :
  forall s i, ~ In i l ->
    LegsData (for_each l (fun j => alter_leg (F j) j) s) !! i = LegsData s !! i.
Proof.
  unfold for_each. induction l as [|j l IH]; intros s i Hni; [reflexivity|]. simpl.
  rewrite IH by (intros H; apply Hni; now right).
  simpl. apply list_lookup_alter_ne. intros ->. apply Hni. now left.
Qed.

Lemma ComputeFeetGroup_other_leg cfg w g s i :
  ~ In i (LegIndices (LegGroups cfg !!! g)) ->
  LegsData (ComputeFeetGroup cfg w g s) !! i = LegsData s !! i.
Proof.
  intros Hni. unfold ComputeFeetGroup.
  destruct (bIsFalling s).
  - now rewrite (for_each_legs_notin (fun _ d => with_FootLocation d (FootTarget d))).
  - destruct (bIsUnplanted (GroupsData s !!! g)).
    + match goal with |- LegsData (for_each _ (fun j => alter_leg ?f j) _) !! _ = _ =>
        now rewrite (for_each_legs_notin (fun _ => f))
      end.
    + match goal with |- LegsData (for_each _ (fun j => alter_leg (@?f j) j) _) !! _ = _ =>
        now rewrite (for_each_legs_notin f)
      end.
Qed.

(** ** Initialisation of the arrays *)

Lemma Shape_LabelGroup cfg g s : Shape s (LabelGroup cfg g s).
Proof. apply Shape_for_each. intros i s0. apply Shape_alter_leg. Qed.

Lemma LabelGroup_LegsData cfg g s :
  LegsData (LabelGroup cfg g s)
  = fold_left (fun xs j => alter (fun d => with_GroupIndex d g) j xs)
      (LegIndices (LegGroups cfg !!! g)) (LegsData s).
Proof.
  unfold LabelGroup.
  now rewrite (for_each_alter LegsData (fun d => with_GroupIndex d g)
                 (fun LegIndex => alter_leg (fun d => with_GroupIndex d g) LegIndex)).
Qed.

Lemma for_each_checked_None (body : nat -> Node -> option Node) (l : list nat) :
  fold_left (fun acc i => match acc with Some s' => body i s' | None => None end) l None
  = None.
Proof. induction l as [|i l IH]; [reflexivity|exact IH]. Qed.

(** A checked loop over indices that all pass the check is the unchecked
    loop; it stops at the first index that does not. *)
Lemma for_each_checked_spec (P : nat -> Prop) (Inv : Node -> Prop)
    (body : nat -> Node -> option Node) (total : nat -> Node -> Node) :
  (forall i, P i \/ ~ P i) ->
  (forall i s, Inv s -> P i -> body i s = Some (total i s) /\ Inv (total i s)) ->
  (forall i s, Inv s -> ~ P i -> body i s = None) ->
  forall l s, Inv s ->
    (Forall P l ->
     for_each_checked l body s = Some (for_each l total s) /\ Inv (for_each l total s))
    /\ (~ Forall P l -> for_each_checked l body s = None).
Proof.
  intros Hdec Hok Hko. unfold for_each_checked, for_each.
  induction l as [|i l IH]; intros s Hs.
  - split; [auto|]. intros H. destruct H. constructor.
  - simpl. split.
    + intros Hall. apply Forall_cons in Hall as [Hi Hl].
      destruct (Hok i s Hs Hi) as [-> Hinv]. now apply IH.
    + intros Hnot.
      destruct (body i s) as [s1|] eqn:E; [|apply for_each_checked_None].
      assert (Hi : P i).
      { destruct (Hdec i) as [Hi|Hi]; [exact Hi|].
        rewrite (Hko i s Hs Hi) in E. discriminate. }
      destruct (Hok i s Hs Hi) as [E' Hinv]. rewrite E in E'. injection E' as ->.
      apply IH; [exact Hinv|]. intros Hl. apply Hnot. now constructor.
Qed.

Lemma SameButGroupIndex_refl d : SameButGroupIndex d d.
Proof. reflexivity. Qed.

Lemma SameButGroupIndex_trans a b c :
  SameButGroupIndex a b -> SameButGroupIndex b c -> SameButGroupIndex a c.
Proof. unfold SameButGroupIndex. congruence. Qed.

Lemma SameButGroupIndex_eq d d' :
  SameButGroupIndex d d' -> d' = with_GroupIndex d (GroupIndex d').
Proof.
  unfold SameButGroupIndex, with_GroupIndex. destruct d, d'. simpl.
  intros H. injection H as -> -> -> -> -> -> -> -> -> -> -> -> -> -> -> ->. reflexivity.
Qed.

(** The unchecked loops: sizes, frame and labels. *)
Lemma LabelGroups cfg s2 (n := length (LegGroups cfg))
    (s3 := for_each (seq 0 n) (LabelGroup cfg) s2) :
  Shape s2 s3
  /\ GroupsData s3 = GroupsData s2
  /\ body s3 = body s2
  /\ LegsRel SameButGroupIndex s2 s3
  /\ forall i,
       (i < length (LegsData s2))%nat ->
       (forall g, (g < n)%nat -> In i (LegIndices (LegGroups cfg !!! g)) ->
                  (forall g', (g < g' < n)%nat -> ~ In i (LegIndices (LegGroups cfg !!! g'))) ->
                  GroupIndex (LegsData s3 !!! i) = g)
       /\ ((forall g, (g < n)%nat -> ~ In i (LegIndices (LegGroups cfg !!! g))) ->
           LegsData s3 !!! i = LegsData s2 !!! i).
Proof.
  split; [apply (Shape_for_each (LabelGroup cfg) (Shape_LabelGroup cfg))|].
  split.
  { apply (for_each_rel (fun a b => GroupsData b = GroupsData a));
      [reflexivity|congruence|].
    intros i s0. unfold LabelGroup.
    apply (for_each_rel (fun a b => GroupsData b = GroupsData a));
      [reflexivity|congruence|reflexivity]. }
  split.
  { apply (for_each_rel (fun a b => body b = body a));
      [reflexivity|congruence|].
    intros i s0. unfold LabelGroup.
    apply (for_each_rel (fun a b => body b = body a));
      [reflexivity|congruence|reflexivity]. }
  split.
  { apply (for_each_rel (LegsRel SameButGroupIndex)).
    - apply LegsRel_refl, SameButGroupIndex_refl.
    - apply LegsRel_trans, SameButGroupIndex_trans.
    - intros g s0. unfold LabelGroup. apply (for_each_rel (LegsRel SameButGroupIndex)).
      + apply LegsRel_refl, SameButGroupIndex_refl.
      + apply LegsRel_trans, SameButGroupIndex_trans.
      + intros i s1. apply LegsRel_of_Keep, LegsKeep_alter_leg;
          [apply SameButGroupIndex_refl|].
        intros d _. reflexivity. }
  intros i Hi. split.
  - intros g Hg Hin Hlast. unfold s3.
    change (for_each (seq 0 n) (LabelGroup cfg) s2) with (for_index n (LabelGroup cfg) s2).
    rewrite (for_index_split _ g) by exact Hg.
    set (sa := for_index g (LabelGroup cfg) s2).
    assert (Hla : length (LegsData sa) = length (LegsData s2)).
    { now destruct (Shape_for_index (LabelGroup cfg) (Shape_LabelGroup cfg) g s2)
        as (_ & HLa & _). }
    set (sb := LabelGroup cfg g sa).
    assert (Hb : GroupIndex (LegsData sb !!! i) = g).
    { unfold sb. rewrite LabelGroup_LegsData.
      rewrite (fold_alter_member (fun d => with_GroupIndex d g)); [reflexivity|reflexivity| |].
      - exact Hin.
      - now rewrite Hla. }
    assert (Hc : LegsData (for_each (seq (S g) (n - S g)) (LabelGroup cfg) sb) !! i
                 = LegsData sb !! i).
    { apply (for_each_inv_in (fun s0 => LegsData s0 !! i = LegsData sb !! i)); [|reflexivity].
      intros j s0 Hj I. apply in_seq in Hj.
      rewrite LabelGroup_LegsData, fold_alter_notin; [exact I|apply Hlast; lia]. }
    transitivity (GroupIndex (LegsData sb !!! i)); [|exact Hb].
    rewrite !list_lookup_total_alt. now rewrite Hc.
  - intros Hnone. rewrite !list_lookup_total_alt. f_equal.
    apply (for_each_inv_in (fun s0 => LegsData s0 !! i = LegsData s2 !! i)); [|reflexivity].
    intros j s0 Hj I. apply in_seq in Hj.
    rewrite LabelGroup_LegsData, fold_alter_notin; [exact I|apply Hnone; lia].
Qed.

(** The checked initialisation is the unchecked one when every configured
    leg index is in range, and returns nothing otherwise. *)
Lemma Initialize_Computations_checked cfg s
    (s2 := with_GroupsData
             (with_LegsData s (resize (length (Legs cfg)) inhabitant (LegsData s)))
             (resize (length (LegGroups cfg)) inhabitant (GroupsData s)))
    (InRange := forall g i, (g < length (LegGroups cfg))%nat ->
                            In i (LegIndices (LegGroups cfg !!! g)) ->
                            (i < length (Legs cfg))%nat) :
  (InRange \/ ~ InRange)
  /\ (InRange ->
      Initialize_Computations cfg s
      = Some (for_each (seq 0 (length (LegGroups cfg))) (LabelGroup cfg) s2,
              RadiusCheckMultiplier cfg
              * FMath.Max (StepDistanceForward cfg) (StepDistanceRight cfg)))
  /\ (~ InRange -> Initialize_Computations cfg s = None).
Proof.
  set (nL := length (Legs cfg)).
  set (Inv := fun s0 : Node => length (LegsData s0) = nL).
  set (Pg := fun g => Forall (fun i => (i < nL)%nat) (LegIndices (LegGroups cfg !!! g))).
  assert (Hinner : forall g s0, Inv s0 ->
            (Pg g -> InitFeetGroup cfg g s0 = Some (LabelGroup cfg g s0)
                     /\ Inv (LabelGroup cfg g s0))
            /\ (~ Pg g -> InitFeetGroup cfg g s0 = None)).
  { intros g s0 Hs0. unfold InitFeetGroup, LabelGroup.
    apply (for_each_checked_spec (fun i => (i < nL)%nat) Inv); [lia| | |exact Hs0].
    - intros i s1 Hs1 Hi. unfold SetLegGroupIndex. rewrite decide_True by (rewrite Hs1; exact Hi).
      split; [reflexivity|]. unfold Inv. simpl. now rewrite length_alter.
    - intros i s1 Hs1 Hi. unfold SetLegGroupIndex. now rewrite decide_False by (rewrite Hs1; exact Hi). }
  assert (Hs2 : Inv s2) by apply length_resize.
  assert (Hdec : forall g, Pg g \/ ~ Pg g).
  { intros g. unfold Pg.
    destruct (decide (Forall (fun i => (i < nL)%nat) (LegIndices (LegGroups cfg !!! g))));
      auto. }
  destruct (for_each_checked_spec Pg Inv (InitFeetGroup cfg) (LabelGroup cfg) Hdec
              (fun g s0 H => proj1 (Hinner g s0 H)) (fun g s0 H => proj2 (Hinner g s0 H))
              (seq 0 (length (LegGroups cfg))) s2 Hs2) as [Hok Hko].
  assert (Hiff : InRange <-> Forall Pg (seq 0 (length (LegGroups cfg)))).
  { unfold InRange, Pg. rewrite Forall_forall. split.
    - intros H g Hg. apply elem_of_seq in Hg. apply Forall_forall. intros i Hi.
      apply (H g i); [lia|]. now apply list_elem_of_In.
    - intros H g i Hg Hi. specialize (H g). rewrite Forall_forall in H.
      apply H; [apply elem_of_seq; lia|now apply list_elem_of_In]. }
  split.
  { destruct (decide (Forall (fun g => Forall (fun i => (i < nL)%nat)
                                        (LegIndices (LegGroups cfg !!! g)))
                        (seq 0 (length (LegGroups cfg))))) as [H|H].
    - left. now apply Hiff.
    - right. intros H'. apply H. now apply Hiff. }
  assert (E : Initialize_Computations cfg s
              = match for_each_checked (seq 0 (length (LegGroups cfg)))
                        (InitFeetGroup cfg) s2 with
                | Some s3 =>
                    Some (s3, RadiusCheckMultiplier cfg
                              * FMath.Max (StepDistanceForward cfg) (StepDistanceRight cfg))
                | None => None
                end) by reflexivity.
  rewrite E. split.
  - intros H. apply Hiff in H. destruct (Hok H) as [-> _]. reflexivity.
  - intros H. rewrite Hko; [reflexivity|]. intros H'. apply H. now apply Hiff.
Qed.

(** X18.  [Initialize_Computations] goes through exactly when every leg
    index listed in a group is an index of [Legs].  It then leaves the
    runtime arrays sized after the configuration, one entry per leg and one
    per group; stores [RadiusCheckMultiplier] times the larger of the two
    step distances in [RadiusCheck]; keeps the groups and the legs that
    were already there, changing of a leg only its group index; labels
    every leg with the last group that lists it and leaves a leg that no
    group lists as it was; and changes nothing else of the node. *)
Theorem Initialize_Computations_sizes_and_labels cfg s :
  let n := length (LegGroups cfg) in
  let InRange :=
    forall g i, (g < n)%nat -> In i (LegIndices (LegGroups cfg !!! g)) ->
                (i < length (Legs cfg))%nat in
  (Initialize_Computations cfg s <> None <-> InRange)
  /\ forall s' RadiusCheck',
       Initialize_Computations cfg s = Some (s', RadiusCheck') ->
       RadiusCheck' = RadiusCheck cfg
       /\ RadiusCheck'
          = RadiusCheckMultiplier cfg * Rmax (StepDistanceForward cfg) (StepDistanceRight cfg)
       /\ length (LegsData s') = length (Legs cfg)
       /\ length (GroupsData s') = n
       /\ (forall g, (g < n)%nat -> (g < length (GroupsData s))%nat ->
                     GroupsData s' !!! g = GroupsData s !!! g)
       /\ SkippedFrames s' = SkippedFrames s /\ bIsInitialized s' = bIsInitialized s
       /\ bIsFalling s' = bIsFalling s /\ CurrentGroupIndex s' = CurrentGroupIndex s
       /\ motion s' = motion s /\ body s' = body s
       /\ forall i,
            (i < length (Legs cfg))%nat ->
            ((i < length (LegsData s))%nat ->
             LegsData s' !!! i
             = with_GroupIndex (LegsData s !!! i) (GroupIndex (LegsData s' !!! i)))
            /\ (forall g, (g < n)%nat -> In i (LegIndices (LegGroups cfg !!! g)) ->
                   (forall g', (g < g' < n)%nat ->
                               ~ In i (LegIndices (LegGroups cfg !!! g'))) ->
                   GroupIndex (LegsData s' !!! i) = g)
            /\ ((forall g, (g < n)%nat -> ~ In i (LegIndices (LegGroups cfg !!! g))) ->
                (i < length (LegsData s))%nat ->
                LegsData s' !!! i = LegsData s !!! i).
Proof.
  intros n InRange. subst n.
  destruct (Initialize_Computations_checked cfg s) as (Hdec & Hok & Hko).
  fold InRange in Hdec, Hok, Hko.
  split.
  { split.
    - intros Hsome. destruct Hdec as [H|H]; [exact H|].
      now rewrite (Hko H) in Hsome.
    - intros H. now rewrite (Hok H). }
  intros s' rc Hsome.
  assert (Hin : InRange).
  { destruct Hdec as [H|H]; [exact H|]. rewrite (Hko H) in Hsome. discriminate. }
  specialize (Hok Hin).
  set (s2 := with_GroupsData
               (with_LegsData s (resize (length (Legs cfg)) inhabitant (LegsData s)))
               (resize (length (LegGroups cfg)) inhabitant (GroupsData s))) in *.
  destruct (LabelGroups cfg s2) as (HS & HG & HB & HR & Hlab).
  set (s3 := for_each (seq 0 (length (LegGroups cfg))) (LabelGroup cfg) s2) in *.
  rewrite Hok in Hsome. apply (inj Some) in Hsome.
  apply pair_equal_spec in Hsome as [Es Er]. subst s' rc.
  assert (L2 : length (LegsData s2) = length (Legs cfg)) by apply length_resize.
  split; [reflexivity|].
  split.
  { unfold FMath.Max, Rmax. destruct (decide _) as [H|H], (Rle_dec _ _) as [H'|H'];
      try reflexivity; f_equal; lra. }
  rewrite (Shape_SkippedFrames _ _ HS), (Shape_bIsInitialized _ _ HS),
    (Shape_bIsFalling _ _ HS), (Shape_CurrentGroupIndex _ _ HS), (Shape_motion _ _ HS), HG, HB.
  destruct HS as (_ & HL & _). rewrite HL, L2.
  split; [reflexivity|].
  split; [apply length_resize|].
  split.
  { intros g Hg Hgl.
    change (GroupsData s2) with (resize (length (LegGroups cfg)) inhabitant (GroupsData s)).
    now apply lookup_total_resize. }
  do 6 (split; [reflexivity|]).
  intros i Hi.
  assert (Hi2 : (i < length (LegsData s2))%nat) by now rewrite L2.
  destruct (Hlab i Hi2) as [Hlast Hnone].
  assert (Hold : (i < length (LegsData s))%nat -> LegsData s2 !!! i = LegsData s !!! i).
  { intros Hl. change (LegsData s2) with (resize (length (Legs cfg)) inhabitant (LegsData s)).
    now apply lookup_total_resize. }
  split.
  { intros Hl. rewrite <- (Hold Hl). apply SameButGroupIndex_eq.
    apply (LegsRel_lookup SameButGroupIndex); [apply SameButGroupIndex_refl|exact HR]. }
  split; [exact Hlast|].
  intros Hno Hl. rewrite <- (Hold Hl). now apply Hnone.
Qed.

(** ** The rotation limits of the CCDIK solver *)

Lemma fold_insert_pad {A : Type} (x y : A) (k : nat) : forall (l : list A),
  fold_left (fun l i => <[i := y]> l) (seq (length l) k) (l ++ replicate k x)
  = l ++ replicate k y.
Proof.
  induction k as [|k IH]; intros l; [reflexivity|]. simpl.
  replace (<[length l := y]> (l ++ x :: replicate k x)) with ((l ++ [y]) ++ replicate k x).
  - replace (S (length l)) with (length (l ++ [y])) by (rewrite length_app; simpl; lia).
    rewrite IH. now rewrite <- app_assoc.
  - rewrite <- app_assoc. simpl.
    rewrite insert_app_r_alt by lia. now rewrite Nat.sub_diag.
Qed.

(** X19.  Resizing the rotation limits of a leg keeps the limits already there,
    as many as fit, and sets every added joint to 30 degrees; the array has
    the requested size. *)
Theorem CCDIK_Resize_pads_with_30 (NewSize : nat) (l : list R) :
  CCDIK_ResizeRotationLimitPerJoints NewSize l
  = take NewSize l ++ replicate (NewSize - length l) 30
  /\ length (CCDIK_ResizeRotationLimitPerJoints NewSize l) = NewSize.
Proof.
  assert (E : CCDIK_ResizeRotationLimitPerJoints NewSize l
              = take NewSize l ++ replicate (NewSize - length l) 30).
  { unfold CCDIK_ResizeRotationLimitPerJoints.
    destruct (decide (NewSize = 0%nat)) as [->|Hn]; [reflexivity|].
    destruct (decide (length l <> NewSize)) as [Hne|He].
    - rewrite length_resize.
      destruct (decide (length l < NewSize)%nat) as [Hlt|Hge].
      + rewrite resize_ge by lia. rewrite take_ge by lia. apply fold_insert_pad.
      + replace (NewSize - length l)%nat with 0%nat by lia. simpl.
        rewrite resize_le by lia. now rewrite app_nil_r.
    - assert (length l = NewSize) as <- by lia.
      rewrite take_ge by lia. rewrite Nat.sub_diag. simpl. now rewrite app_nil_r. }
  split; [exact E|]. rewrite E, length_app, length_take, length_replicate. lia.
Qed.

(** ** Target resolution *)

Lemma RetargetedOnly_refl d : RetargetedOnly d d.
Proof. now repeat split. Qed.

Lemma RetargetedOnly_trans a b c :
  RetargetedOnly a b -> RetargetedOnly b c -> RetargetedOnly a c.
Proof.
  unfold RetargetedOnly.
  intros (A1 & A2 & A3 & A4 & A5 & A6 & A7 & A8 & A9 & A10 & A11 & A12 & A13)
         (B1 & B2 & B3 & B4 & B5 & B6 & B7 & B8 & B9 & B10 & B11 & B12 & B13).
  repeat split; congruence.
Qed.

(** X20.  Resolving the foot targets moves no foot: of the whole node it changes
    only, leg by leg, the target, the target rotation, the IK switch and the
    last hit. *)
Theorem target_resolution_moves_no_foot cfg w s i :
  let s' := SetFeetTargetLocations cfg w s in
  s' = with_LegsData s (LegsData s')
  /\ length (LegsData s') = length (LegsData s)
  /\ RetargetedOnly (LegsData s !!! i) (LegsData s' !!! i).
Proof.
  intros s'.
  assert (H : LegsRel RetargetedOnly s s').
  { apply (for_index_rel (LegsRel RetargetedOnly)).
    - apply LegsRel_refl, RetargetedOnly_refl.
    - apply LegsRel_trans, RetargetedOnly_trans.
    - intros j s0. apply LegsRel_of_Keep, LegsKeep_alter_leg; [apply RetargetedOnly_refl|].
      intros d _. now repeat split. }
  split; [apply LegsOnly_SetFeetTargetLocations|].
  split; [apply (LegsRel_length _ _ _ H)|].
  apply LegsRel_lookup; [apply RetargetedOnly_refl|exact H].
Qed.

(** ** Standing *)

Lemma Dist_self (a : FVector.t) : FVector.Dist a a = 0.
Proof.
  unfold FVector.Dist, FVector.Size, FVector.SizeSquared, FVector.sub. simpl.
  replace (_ + _ + _) with 0 by ring. apply sqrt_0.
Qed.

(** X21.  Feet that are on their targets start no step: with a positive
    [MinDistanceToUnplant], a group all of whose feet are at their targets
    is never unplanted, and the whole node is left as it is. *)
Theorem feet_on_target_start_no_step cfg w s :
  0 < MinDistanceToUnplant cfg ->
  (forall i, In i (LegIndices (LegGroups cfg !!! CurrentGroupIndex s)) ->
             FootLocation (LegsData s !!! i) = FootTarget (LegsData s !!! i)) ->
  SetCurrentGroupUnplanted cfg w s = s.
Proof.
  intros Hmin Hat. apply SetCurrentGroupUnplanted_idle. unfold Unplants.
  assert (E : existsb (IsFootFarEnough cfg s)
                (LegIndices (LegGroups cfg !!! CurrentGroupIndex s)) = false).
  { apply not_true_is_false. intros H. apply existsb_exists in H as (i & Hin & Hfar).
    unfold IsFootFarEnough in Hfar. apply bool_decide_eq_true in Hfar.
    rewrite (Hat i Hin), Dist_self in Hfar. lra. }
  rewrite E. now rewrite andb_false_r.
Qed.

Lemma feet_on_target_start_no_step_witness :
  SetCurrentGroupUnplanted TwoGroups LevelGroundTwo EndOfSwing = EndOfSwing.
Proof.
  apply feet_on_target_start_no_step.
  - simpl. lra.
  - intros i Hin. simpl in Hin. destruct Hin as [<-|[]]. reflexivity.
Defined.

(** ** Planted feet *)

Lemma add_Zero (a : FVector.t) : (a + FVector.Zero)%V = a.
Proof. destruct a. unfold FVector.add. simpl. f_equal; ring. Qed.

Lemma for_each_legs_fixed (F : nat -> FLegData -> FLegData) (l : list nat) :
  forall s i,
    (forall k d, LegsData s !! i = Some d -> F k d = d) ->
    LegsData (for_each l (fun j => alter_leg (F j) j) s) !! i = LegsData s !! i.
Proof.
  unfold for_each. induction l as [|j l IH]; intros s i HF; [reflexivity|]. simpl.
  assert (E : LegsData (alter_leg (F j) j s) !! i = LegsData s !! i).
  { simpl. destruct (decide (j = i)) as [->|Hne].
    - rewrite list_lookup_alter_eq. destruct (LegsData s !! i) as [d|] eqn:Hd; [|reflexivity].
      simpl. now rewrite HF.
    - now apply list_lookup_alter_ne. }
  rewrite IH; [exact E|]. intros k d Hd. apply HF. now rewrite <- E.
Qed.

Lemma alter_flag (f : FGroupData -> FGroupData) (j g : nat) (l : list FGroupData) :
  (forall x, bIsUnplanted (f x) = bIsUnplanted x) ->
  bIsUnplanted (alter f j l !!! g) = bIsUnplanted (l !!! g).
Proof.
  intros Hf. rewrite !list_lookup_total_alt.
  destruct (decide (j = g)) as [->|Hne].
  - rewrite list_lookup_alter_eq. destruct (l !! g); [apply Hf|reflexivity].
  - now rewrite list_lookup_alter_ne.
Qed.

(** X22.  A planted foot moves only with its support.  On the ground, a leg all
    of whose groups are planted, and whose support has not moved since the
    last tick, is left exactly as it is by [ComputeFeet]. *)
Theorem planted_foot_keeps_still cfg w s i :
  bIsFalling s = false ->
  (forall g, (g < length (LegGroups cfg))%nat -> In i (LegIndices (LegGroups cfg !!! g)) ->
             bIsUnplanted (GroupsData s !!! g) = false) ->
  SupportCompDelta (LegsData s !!! i) = FVector.Zero ->
  LegsData (ComputeFeet cfg w s) !!! i = LegsData s !!! i.
Proof.
  intros Hf Hpl Hd. rewrite !list_lookup_total_alt.
  cut (LegsData (ComputeFeet cfg w s) !! i = LegsData s !! i); [now intros ->|].
  unfold ComputeFeet, for_index.
  apply (for_each_inv_in (fun s0 => bIsFalling s0 = false
            /\ (forall g, bIsUnplanted (GroupsData s0 !!! g) = bIsUnplanted (GroupsData s !!! g))
            /\ LegsData s0 !! i = LegsData s !! i)); [|auto].
  intros j s0 Hj (I1 & I2 & I3). apply in_seq in Hj.
  destruct (ComputeFeetGroup_groups cfg w j s0 I1) as (G1 & _ & G3).
  split; [exact G3|]. split.
  - intros g. rewrite G1, alter_flag; [apply I2|].
    intros x. unfold AdvanceStep. destruct (bIsUnplanted x) eqn:Ex; [reflexivity|exact Ex].
  - destruct (bIsUnplanted (GroupsData s0 !!! j)) eqn:Hu.
    + rewrite ComputeFeetGroup_other_leg; [exact I3|].
      intros Hin. rewrite I2 in Hu.
      assert (Hj' : (j < length (LegGroups cfg))%nat) by lia.
      rewrite (Hpl j Hj' Hin) in Hu. discriminate.
    + unfold ComputeFeetGroup. rewrite I1, Hu.
      match goal with |- LegsData (for_each _ (fun j => alter_leg (@?F j) j) _) !! _ = _ =>
        rewrite (for_each_legs_fixed F); [exact I3|]
      end.
      intros k d Hk. simpl. destruct (decide _); [|reflexivity].
      rewrite I3 in Hk. rewrite list_lookup_total_alt, Hk in Hd. simpl in Hd.
      rewrite Hd, add_Zero. now destruct d.
Qed.

Lemma planted_foot_keeps_still_witness :
  LegsData (ComputeFeet TwoGroups LevelGroundTwo Standing) !!! 1%nat
  = LegsData Standing !!! 1%nat.
Proof.
  apply planted_foot_keeps_still.
  - reflexivity.
  - intros g Hg _. simpl in Hg.
    destruct g as [|[|g]]; [reflexivity|reflexivity|lia].
  - reflexivity.
Defined.
